(** * SmartVault backend: content pipeline, normalisers and in-memory store

    A shallow embedding of the TypeScript sources
      - [server/video.ts]   ([detectVideoPlatform], [extractCaptions], [processVideo]),
      - [server/videoAI.ts] ([transformVideoContent]),
      - [server/ai.ts]      ([validateCategory], [validateSummary], [fallbackAnalysis],
                             [analyzeContent]),
      - [server/storage.ts] ([MemStorage]),
    followed by the properties established about them.

    Conventions.
      - A JavaScript string is the list of its UTF-16 code units ([jsstring]);
        [length] is then exactly JavaScript's [.length].
      - [null] / [undefined] results are [None]; a thrown exception is the left
        summand of a sum; awaited collaborators (the chat client, the caption and
        audio tools, the speech-to-text client) are oracles passed as arguments,
        and the calls made to them are recorded in a trace.
      - Unicode case mapping is an interface ([CaseMapping]) that fixes the
        behaviour on ASCII only; every general theorem holds for any engine that
        implements it, and [latin1Case] is a concrete instance used to run the
        functions.
      - A Number is an IEEE 754 binary64 value ([spec_float] of the Standard
        Library, precision 53 and maximal exponent 1024).  [Number::toString]
        is an interface as well ([NumberFormat]); [shortestDecimal] is the
        rendering ECMAScript prescribes. *)

From Stdlib Require Import ZArith NArith Lia Bool List Ascii String DecimalString.
From Stdlib Require Import Floats.SpecFloat.
From stdpp Require Import base gmap strings list.
Import ListNotations.

#[local] Set Warnings "-register-all".
#[local] Open Scope N_scope.

(** ** JavaScript strings and the built-in string operations the sources use *)

Module JS.

Definition jsstring := list N.

(** An ASCII literal as a JavaScript string. *)
Definition js (s : string) : jsstring :=
  map N_of_ascii (list_ascii_of_string s).

(** The double-quote character, U+0022. *)
Definition dquote : jsstring := [34].

(** [WhiteSpace] and [LineTerminator] code points: what [trim] removes and what
    [\s] matches. *)
Definition isWhiteSpace (c : N) : bool :=
  ((9 <=? c) && (c <=? 13)) || (c =? 32) || (c =? 160) || (c =? 5760)
  || ((8192 <=? c) && (c <=? 8202)) || (c =? 8232) || (c =? 8233)
  || (c =? 8239) || (c =? 8287) || (c =? 12288) || (c =? 65279).

Definition isDigit (c : N) : bool := (48 <=? c) && (c <=? 57).
Definition isUpperAscii (c : N) : bool := (65 <=? c) && (c <=? 90).
Definition isLowerAscii (c : N) : bool := (97 <=? c) && (c <=? 122).

(** [\w] without the [u] and [i] flags: [[A-Za-z0-9_]]. *)
Definition isWordChar (c : N) : bool :=
  isUpperAscii c || isLowerAscii c || isDigit c || (c =? 95).

Definition isAscii (c : N) : Prop := c < 128.

Definition lowerAscii (c : N) : N := if isUpperAscii c then c + 32 else c.
Definition upperAscii (c : N) : N := if isLowerAscii c then c - 32 else c.

(** [String.prototype.toLowerCase] / [toUpperCase].  The full Unicode tables
    are the engine's; the interface records what they do on ASCII text. *)
Class CaseMapping := {
  toLowerCase : jsstring -> jsstring;
  toUpperCase : jsstring -> jsstring;
  toLowerCase_ascii :
    forall s, Forall isAscii s -> toLowerCase s = map lowerAscii s;
  toUpperCase_ascii :
    forall s, Forall isAscii s -> toUpperCase s = map upperAscii s
}.

(** A concrete engine, exact on U+0000..U+00FF (Basic Latin and Latin-1
    Supplement) and the identity above. *)
Definition lowerLatin1 (c : N) : N :=
  if isUpperAscii c then c + 32
  else if (192 <=? c) && (c <=? 222) && negb (c =? 215) then c + 32
  else c.

Definition upperLatin1 (c : N) : jsstring :=
  if isLowerAscii c then [c - 32]
  else if c =? 181 then [924]
  else if c =? 223 then [83; 83]
  else if (224 <=? c) && (c <=? 254) && negb (c =? 247) then [c - 32]
  else if c =? 255 then [376]
  else [c].

Fixpoint dropWhile (p : N -> bool) (s : jsstring) : jsstring :=
  match s with
  | [] => []
  | c :: s' => if p c then dropWhile p s' else s
  end.

Definition trimStart (s : jsstring) : jsstring := dropWhile isWhiteSpace s.
Definition trimEnd (s : jsstring) : jsstring := rev (dropWhile isWhiteSpace (rev s)).
Definition trim (s : jsstring) : jsstring := trimEnd (trimStart s).

Fixpoint startsWith (pat s : jsstring) : bool :=
  match pat, s with
  | [], _ => true
  | _ :: _, [] => false
  | p :: pat', c :: s' => (p =? c) && startsWith pat' s'
  end.

Definition endsWith (pat s : jsstring) : bool := startsWith (rev pat) (rev s).

Fixpoint includes (pat s : jsstring) : bool :=
  startsWith pat s ||
  match s with
  | [] => false
  | _ :: s' => includes pat s'
  end.

(** [s.substring(0, n)] and [s.slice(0, n)] for a constant [n >= 0]. *)
Definition substring0 (n : nat) (s : jsstring) : jsstring := firstn n s.

(** [s.split(sep)] for a one-character separator. *)
Fixpoint splitOn (sep : N) (s : jsstring) : list jsstring :=
  match s with
  | [] => [[]]
  | c :: s' =>
      if c =? sep then [] :: splitOn sep s'
      else match splitOn sep s' with
           | [] => [[c]]
           | w :: ws => (c :: w) :: ws
           end
  end.

(** [s.split(/\s+/)]: the pieces between maximal runs of white space, with an
    empty first (last) piece when [s] starts (ends) with white space. *)
Fixpoint splitWs_go (inRun : bool) (cur : jsstring) (s : jsstring) : list jsstring :=
  match s with
  | [] => [cur]
  | c :: s' =>
      if isWhiteSpace c then
        if inRun then splitWs_go true cur s' else cur :: splitWs_go true [] s'
      else splitWs_go false (cur ++ [c]) s'
  end.

Definition splitWs (s : jsstring) : list jsstring := splitWs_go false [] s.

(** [parts.join(sep)]. *)
Fixpoint join (sep : jsstring) (parts : list jsstring) : jsstring :=
  match parts with
  | [] => []
  | [w] => w
  | w :: ws => w ++ sep ++ join sep ws
  end.

(** [s.replace(/\s+/g, ' ')]. *)
Fixpoint collapseWs_go (inRun : bool) (s : jsstring) : jsstring :=
  match s with
  | [] => []
  | c :: s' =>
      if isWhiteSpace c then
        if inRun then collapseWs_go true s' else 32 :: collapseWs_go true s'
      else c :: collapseWs_go false s'
  end.

Definition collapseWs (s : jsstring) : jsstring := collapseWs_go false s.

(** [s.replace(/[...]/g, '')] for a character class given as a predicate. *)
Definition removeChars (p : N -> bool) (s : jsstring) : jsstring :=
  List.filter (fun c => negb (p c)) s.

(** [s.replace(/pat/g, '')] for a literal, non-empty [pat]: leftmost,
    non-overlapping occurrences are dropped.  [skip] counts the characters of
    the current occurrence still to be dropped. *)
Fixpoint removeAll_go (pat : jsstring) (skip : nat) (s : jsstring) : jsstring :=
  match s with
  | [] => []
  | c :: s' =>
      match skip with
      | S k => removeAll_go pat k s'
      | O => if startsWith pat s then removeAll_go pat (length pat - 1) s'
             else c :: removeAll_go pat 0 s'
      end
  end.

Definition removeAll (pat s : jsstring) : jsstring := removeAll_go pat 0 s.

(** [s.lastIndexOf(c)] for a one-character [c]: [-1] when absent. *)
Fixpoint lastIndexOf_go (c : N) (i : Z) (last : Z) (s : jsstring) : Z :=
  match s with
  | [] => last
  | d :: s' => lastIndexOf_go c (i + 1)%Z (if d =? c then i else last) s'
  end.

Definition lastIndexOf (c : N) (s : jsstring) : Z := lastIndexOf_go c 0%Z (-1)%Z s.

(** [a || b] on strings: the empty string is falsy. *)
Definition orElse (a b : jsstring) : jsstring :=
  match a with [] => b | _ => a end.

(** [s.match(/\d+/)]: the leftmost maximal run of ASCII digits, if any. *)
Fixpoint takeWhile (p : N -> bool) (s : jsstring) : jsstring :=
  match s with
  | [] => []
  | c :: s' => if p c then c :: takeWhile p s' else []
  end.

Definition matchDigits (s : jsstring) : option jsstring :=
  match dropWhile (fun c => negb (isDigit c)) s with
  | [] => None
  | r => Some (takeWhile isDigit r)
  end.

(** Decimal numeral of an integer.  [String(n)] and a template literal print
    an integer-valued Number this way as long as its magnitude is below
    [2^53]. *)
Definition decimal (z : Z) : jsstring :=
  js (NilEmpty.string_of_int (Z.to_int z)).

(** *** Numbers *)

(** A Number: an IEEE 754 binary64 value. *)
Definition number := spec_float.

(** The Number nearest to an integer, ties to even; an infinity beyond the
    range of binary64. *)
Definition integer (z : Z) : number := binary_normalize 53 1024 z 0 false.

(** The integer a run of ASCII digits denotes. *)
Definition digitsValue (ds : jsstring) : Z :=
  fold_left (fun acc c => (10 * acc + Z.of_N (c - 48))%Z) ds 0%Z.

(** [parseInt(ds, 10)] on a run of digits: the Number nearest to the integer
    the digits denote. *)
Definition parseInt10 (ds : jsstring) : number := integer (digitsValue ds).

(** [Number::toString] (radix 10), the conversion behind [String(x)]. *)
Class NumberFormat := {
  numberToString : number -> jsstring
}.

(** The rendering of ECMAScript's [Number::toString]: with [k] digits [s] and
    a decimal exponent [n] such that [s * 10^(n-k)] reads back as the same
    Number, [k] as small as possible and the value as close to the Number as
    possible.  A positive finite Number is [num / den]. *)

(** The Number [s * 10^t] reads back as, for [0 < s]. *)
Definition readBack (s t : Z) : number :=
  if (0 <=? t)%Z then integer (s * 10 ^ t)
  else SFdiv 53 1024 (S754_finite false (Z.to_pos s) 0)
                     (S754_finite false (Z.to_pos (10 ^ (- t))) 0).

Definition sameNumber (x y : number) : bool :=
  match SFcompare x y with Some Eq => true | _ => false end.

(** The least [j], counted from [j], with [den <= num * 10^j]. *)
Fixpoint leadingZeros (fuel : nat) (num den j : Z) : Z :=
  match fuel with
  | O => j
  | S fuel =>
      if (den <=? num)%Z then j
      else leadingZeros fuel (10 * num)%Z den (j + 1)%Z
  end.

(** The [n] with [10^(n-1) <= num / den < 10^n]. *)
Definition decimalExponent (num den : Z) : Z :=
  if (den <=? num)%Z then Z.of_nat (length (decimal (num / den)))
  else (1 - leadingZeros 400 num den 0)%Z.

(** The [k]-digit candidate for [x = num / den] with decimal exponent [n0]:
    of the two [k]-digit decimals around [x], one that reads back as [x], the
    closer one (the even one in a tie) when both do.  The result is [(n, s)]. *)
Definition candidate (x : number) (num den n0 k : Z) : option (Z * Z) :=
  let t := (n0 - k)%Z in
  let num' := if (0 <=? t)%Z then num else (num * 10 ^ (- t))%Z in
  let den' := if (0 <=? t)%Z then (den * 10 ^ t)%Z else den in
  let lo := (num' / den')%Z in
  let rest := (num' mod den')%Z in
  let hi := (lo + 1)%Z in
  let okLo := (0 <? lo)%Z && sameNumber (readBack lo t) x in
  let okHi := sameNumber (readBack hi t) x in
  let preferHi := (den' <? 2 * rest)%Z || ((den' =? 2 * rest)%Z && Z.odd lo) in
  let normal (s : Z) :=
    if (s =? 10 ^ k)%Z then ((n0 + 1)%Z, (10 ^ (k - 1))%Z) else (n0, s) in
  if okLo && okHi then Some (normal (if preferHi then hi else lo))
  else if okLo then Some (normal lo)
  else if okHi then Some (normal hi)
  else None.

(** The first [k], counted from [k], that has a candidate. *)
Fixpoint shortest (fuel : nat) (x : number) (num den n0 k : Z)
  : Z * Z * Z :=
  match fuel with
  | O => (n0, k, (num * 10 ^ (k - n0) / den)%Z)
  | S fuel =>
      match candidate x num den n0 k with
      | Some (n, s) => (n, k, s)
      | None => shortest fuel x num den n0 (k + 1)%Z
      end
  end.

Definition zeros (n : Z) : jsstring := repeat 48 (Z.to_nat n).

(** Steps 6 to 10 of [Number::toString]: the digits [s] laid out for the
    decimal exponent [n]. *)
Definition layout (n k s : Z) : jsstring :=
  let digits := decimal s in
  if (k <=? n)%Z && (n <=? 21)%Z then digits ++ zeros (n - k)
  else if (0 <? n)%Z && (n <=? 21)%Z then
    firstn (Z.to_nat n) digits ++ js "." ++ skipn (Z.to_nat n) digits
  else if (-6 <? n)%Z && (n <=? 0)%Z then js "0." ++ zeros (- n) ++ digits
  else
    let e := (n - 1)%Z in
    let exponent := js (if (e <? 0)%Z then "e-" else "e+") ++ decimal (Z.abs e) in
    if (k =? 1)%Z then digits ++ exponent
    else firstn 1 digits ++ js "." ++ skipn 1 digits ++ exponent.

Definition positiveToString (m : positive) (e : Z) : jsstring :=
  let x := binary_normalize 53 1024 (Zpos m) e false in
  let num := if (0 <=? e)%Z then (Zpos m * 2 ^ e)%Z else Zpos m in
  let den := if (0 <=? e)%Z then 1%Z else (2 ^ (- e))%Z in
  let '(n, k, s) := shortest 17 x num den (decimalExponent num den) 1 in
  layout n k s.

Definition shortestToString (x : number) : jsstring :=
  match x with
  | S754_nan => js "NaN"
  | S754_zero _ => js "0"
  | S754_infinity false => js "Infinity"
  | S754_infinity true => js "-Infinity"
  | S754_finite false m e => positiveToString m e
  | S754_finite true m e => js "-" ++ positiveToString m e
  end.

#[export] Instance shortestDecimal : NumberFormat :=
  {| numberToString := shortestToString |}.

End JS.

Export JS.

(** ** Exceptions *)

Module Err.

(** The fields of a thrown error that the sources inspect: [message],
    [status] and [code], each possibly [undefined]. *)
Record JsError := mkError {
  message : option jsstring;
  status : option Z;
  code : option jsstring
}.

(** [new Error(msg)]. *)
Definition newError (msg : jsstring) : JsError :=
  {| message := Some msg; status := None; code := None |}.

(** The test both model loops apply in their [catch] block:
    [error.message?.includes('model') || error.status === 404 ||
     error.code === 'model_not_found']. *)
Definition isModelError (e : JsError) : bool :=
  match message e with Some m => includes (js "model") m | None => false end
  || bool_decide (status e = Some 404%Z)
  || bool_decide (code e = Some (js "model_not_found")).

End Err.

Export Err.

(** ** [server/video.ts] *)

Module Video.

Inductive PlatformType := tiktok | instagram | youtube.

Record VideoPlatform := {
  type : PlatformType;
  supported : bool
}.

Section DetectVideoPlatform.
Context `{CaseMapping}.

Definition detectVideoPlatform (url : jsstring) : VideoPlatform :=
  let urlLower := toLowerCase url in
  if includes (js "tiktok.com") urlLower || includes (js "vm.tiktok.com") urlLower then
    {| type := tiktok; supported := true |}
  else if includes (js "instagram.com") urlLower
          && (includes (js "/reel/") urlLower || includes (js "/reels/") urlLower) then
    {| type := instagram; supported := true |}
  else if includes (js "youtube.com") urlLower || includes (js "youtu.be") urlLower then
    if includes (js "/shorts/") urlLower || includes (js "youtube.com/shorts/") urlLower then
      {| type := youtube; supported := true |}
    else
      {| type := youtube; supported := true |}
  else
    {| type := youtube; supported := false |}.

End DetectVideoPlatform.

(** *** [extractCaptions] *)

(** What the caption probe leaves behind: either the tool (or a file-system
    call) failed, which every [catch] turns into [null], or the temporary
    directory holds the listed files. *)
Record TmpFile := {
  fileName : jsstring;
  fileContent : jsstring
}.

Inductive CaptionProbe :=
| ProbeFailed
| ProbeListing (timestamp : jsstring) (dir : list TmpFile).

(** [/^\d+$/] on a trimmed line. *)
Definition allDigits (s : jsstring) : bool :=
  match s with [] => false | _ => forallb isDigit s end.

Definition isSubtitleName (timestamp : jsstring) (f : jsstring) : bool :=
  (includes (js "captions-") f || includes timestamp f)
  && (endsWith (js ".vtt") f || endsWith (js ".srt") f
      || endsWith (js ".ttml") f || endsWith (js ".json3") f).

Definition vttTextLines (content : jsstring) : list jsstring :=
  flat_map (fun line =>
    let trimmed := trim line in
    if bool_decide (trimmed = []) || startsWith (js "WEBVTT") trimmed
       || includes (js "-->") trimmed || allDigits trimmed then []
    else if (0 <? length trimmed)%nat && negb (startsWith (js "<") trimmed) then [trimmed]
    else [])
  (splitOn 10 content).

Definition srtTextLines (content : jsstring) : list jsstring :=
  flat_map (fun line0 =>
    let line := trim line0 in
    if bool_decide (line = []) || allDigits line || includes (js "-->") line then []
    else if (0 <? length line)%nat then [line]
    else [])
  (splitOn 10 content).

Definition captionText (textLines : list jsstring) : jsstring :=
  trim (collapseWs (join (js " ") textLines)).

Definition extractCaptions (probe : CaptionProbe) : option jsstring :=
  match probe with
  | ProbeFailed => None
  | ProbeListing timestamp dir =>
      let files := List.filter (fun f => isSubtitleName timestamp (fileName f)) dir in
      match files with
      | [] => None
      | first :: _ =>
          let subtitleFile :=
            match find (fun f => endsWith (js ".vtt") (fileName f)
                                 || endsWith (js ".srt") (fileName f)) files with
            | Some f => f
            | None => first
            end in
          let fromVtt :=
            if endsWith (js ".vtt") (fileName subtitleFile) then
              let text := captionText (vttTextLines (fileContent subtitleFile)) in
              if (50 <? length text)%nat then Some text else None
            else None in
          match fromVtt with
          | Some text => Some text
          | None =>
              if endsWith (js ".srt") (fileName subtitleFile) then
                let text := captionText (srtTextLines (fileContent subtitleFile)) in
                if (50 <? length text)%nat then Some text else None
              else None
          end
      end
  end.

(** *** [processVideo] *)

(** The collaborators [processVideo] awaits.  [captions] is the result of
    [extractCaptions(url)], which never throws; [audio] stands for the
    download-and-read step, giving the audio bytes and their format or the error
    it throws; [transcribe] is [transcribeAudio]. *)
Record VideoEnv := {
  captions : jsstring -> option jsstring;
  audio : jsstring -> JsError + (list N * jsstring);
  transcribe : list N -> jsstring -> JsError + jsstring
}.

Inductive Stage := CaptionStage | AudioStage | TranscribeStage.

(** The guard [captions && captions.length > 50]. *)
Definition usableCaptions (captions : option jsstring) : option jsstring :=
  match captions with
  | Some c =>
      if negb (bool_decide (c = [])) && (50 <? length c)%nat then Some c else None
  | None => None
  end.

Section ProcessVideo.
Context `{CaseMapping}.

(** The result, and the stages that ran, in order. *)
Definition processVideo (env : VideoEnv) (url : jsstring)
  : (JsError + jsstring) * list Stage :=
  let platform := detectVideoPlatform url in
  if negb (supported platform) then
    (inl (newError (js "Unsupported video platform: " ++ url)), [])
  else
    match usableCaptions (captions env url) with
    | Some c => (inr c, [CaptionStage])
    | None =>
        match audio env url with
        | inl e => (inl e, [CaptionStage; AudioStage])
        | inr (audioBuffer, audioFormat) =>
            (transcribe env audioBuffer audioFormat,
             [CaptionStage; AudioStage; TranscribeStage])
        end
    end.

End ProcessVideo.

End Video.

(** ** Parsed JSON values *)

Module Json.

(** What [JSON.parse] produces. *)
Inductive JValue :=
| JNull
| JBool (b : bool)
| JNum (x : number)
| JStr (s : jsstring)
| JArr (l : list JValue)
| JObj (o : gmap jsstring JValue).

(** JavaScript truthiness; a missing property ([undefined]) is falsy. *)
Definition truthy (v : JValue) : bool :=
  match v with
  | JNull => false
  | JBool b => b
  | JNum (S754_zero _) | JNum S754_nan => false
  | JNum _ => true
  | JStr s => negb (bool_decide (s = []))
  | JArr _ | JObj _ => true
  end.

(** [Array.isArray(x)]. *)
Definition isArray (p : option JValue) : bool :=
  match p with Some (JArr _) => true | _ => false end.

(** [typeof x === 'string']. *)
Definition isString (v : JValue) : bool :=
  match v with JStr _ => true | _ => false end.

(** V8's [TypeError] for [String(v)] on an object that has no callable
    [toString] or [valueOf]. *)
Definition cannotConvert : JsError :=
  newError (js "Cannot convert object to primitive value").

Section ToString.
Context `{NumberFormat}.

(** [String(v)].  An array is joined with commas, [null] elements giving the
    empty string.  An object without a field [toString] reaches
    [Object.prototype.toString]; a field [toString] hides that method and,
    coming from JSON, cannot be called, and as [Object.prototype.valueOf]
    returns the object itself the conversion throws. *)
Fixpoint toStr (v : JValue) : JsError + jsstring :=
  match v with
  | JNull => inr (js "null")
  | JBool true => inr (js "true")
  | JBool false => inr (js "false")
  | JNum x => inr (numberToString x)
  | JStr s => inr s
  | JArr l =>
      match
        foldr (fun x acc =>
                 match (match x with JNull => inr [] | _ => toStr x end), acc with
                 | inl e, _ => inl e
                 | inr _, inl e => inl e
                 | inr s, inr ss => inr (s :: ss)
                 end) (inr []) l
      with
      | inl e => inl e
      | inr ss => inr (join (js ",") ss)
      end
  | JObj o =>
      if bool_decide (is_Some (o !! js "toString")) then inl cannotConvert
      else inr (js "[object Object]")
  end.

End ToString.

End Json.

Export Json.

(** ** [server/videoAI.ts] *)

Module VideoAI.

Inductive ContentType := recipe | workout | tutorial | general.

Record VideoStructuredContent := {
  type : ContentType;
  recipeBlock : option JValue;
  workoutBlock : option JValue;
  tutorialBlock : option JValue
}.

Record VideoAIAnalysis := {
  title : jsstring;
  category : jsstring;
  summary : jsstring;
  structuredContent : VideoStructuredContent
}.

(** *** The user prompt and its provenance label *)

Definition isFromCaptions (transcript : jsstring) : bool :=
  negb (includes (js "WEBVTT") transcript)
  && negb (includes (js "-->") transcript)
  && (0 <? length transcript)%nat.

Definition transcriptSource (transcript : jsstring) : jsstring :=
  if isFromCaptions transcript then js "captions/subtitles (high quality)"
  else js "audio transcription".

Definition nl : jsstring := [10].

Definition userPromptWith (transcriptSource transcript url : jsstring) : jsstring :=
  js "Analyze this video transcript and extract ALL structured content with maximum detail." ++ nl
  ++ nl
  ++ js "IMPORTANT: This transcript is from " ++ transcriptSource ++ js ", which means it contains the actual text content from the video. Prioritize this content over any assumptions." ++ nl
  ++ nl
  ++ js "Transcript:" ++ nl
  ++ dquote ++ transcript ++ dquote ++ nl
  ++ nl
  ++ js "URL: " ++ url ++ nl
  ++ nl
  ++ js "INSTRUCTIONS:" ++ nl
  ++ js "1. Carefully read the ENTIRE transcript - this is the primary source of information" ++ nl
  ++ js "2. Since this is " ++ transcriptSource ++ js ", trust the text content as it represents what was actually said/shown" ++ nl
  ++ js "3. Generate a concise, properly formatted title (max 60 chars, Title Case, no emojis) based on the video content" ++ nl
  ++ js "4. Identify the content type (recipe, workout, tutorial, or general)" ++ nl
  ++ js "5. For RECIPES: Extract EVERY ingredient with full quantities and units, ALL cooking steps with details (temperatures, times, techniques), and any metadata (servings, prep time, cook time)" ++ nl
  ++ js "6. Be thorough - include all details mentioned, even if they seem minor" ++ nl
  ++ js "7. Preserve the exact wording for measurements and instructions when possible" ++ nl
  ++ js "8. The transcript text is authoritative - use it as the primary source" ++ nl
  ++ js "9. Return complete, detailed JSON with all available information including the title" ++ nl
  ++ nl
  ++ js "Return JSON with the appropriate structure based on the content type.".

Definition userPrompt (transcript url : jsstring) : jsstring :=
  userPromptWith (transcriptSource transcript) transcript url.

(** *** Post-parse repair of the recipe block *)

(** V8's [TypeError] for [recipeData.name.trim()] on a value that is not a
    string. *)
Definition trimNotAFunction : JsError :=
  newError (js "recipeData.name.trim is not a function").

(** "Ensure ingredients is an array" / "Ensure instructions is an array". *)
Definition ensureArray (key : jsstring) (recipeData : gmap jsstring JValue)
  : gmap jsstring JValue :=
  if negb (isArray (recipeData !! key))
  then <[key := JArr []]> recipeData else recipeData.

(** "Ensure name exists":
    [if (!recipeData.name || recipeData.name.trim() === '')]. *)
Definition ensureName (recipeData : gmap jsstring JValue)
  : JsError + gmap jsstring JValue :=
  match recipeData !! js "name" with
  | Some (JStr s) =>
      if negb (truthy (JStr s)) || bool_decide (trim s = [])
      then inr (<[js "name" := JStr (js "Untitled Recipe")]> recipeData)
      else inr recipeData
  | Some v =>
      if negb (truthy v)
      then inr (<[js "name" := JStr (js "Untitled Recipe")]> recipeData)
      else inl trimNotAFunction
  | None => inr (<[js "name" := JStr (js "Untitled Recipe")]> recipeData)
  end.

(** "Clean and validate servings":
    [if (recipeData.servings && typeof recipeData.servings === 'string')]. *)
Definition cleanServings (recipeData : gmap jsstring JValue)
  : gmap jsstring JValue :=
  match recipeData !! js "servings" with
  | Some (JStr s) =>
      if truthy (JStr s) then
        match matchDigits s with
        | Some servingsMatch =>
            <[js "servings" := JNum (parseInt10 servingsMatch)]> recipeData
        | None => delete (js "servings") recipeData
        end
      else recipeData
  | _ => recipeData
  end.

Section Times.
Context `{NumberFormat}.

(** "Ensure times are strings if present":
    [if (recipeData.prepTime && typeof recipeData.prepTime !== 'string')
       recipeData.prepTime = String(recipeData.prepTime)]. *)
Definition ensureTimeString (key : jsstring) (recipeData : gmap jsstring JValue)
  : JsError + gmap jsstring JValue :=
  match recipeData !! key with
  | Some v =>
      if truthy v && negb (isString v) then
        match toStr v with
        | inl e => inl e
        | inr s => inr (<[key := JStr s]> recipeData)
        end
      else inr recipeData
  | None => inr recipeData
  end.

(** The body of [if (recipeData) { ... }] on the named fields of the recipe
    block. *)
Definition repairRecipe (recipeData : gmap jsstring JValue)
  : JsError + gmap jsstring JValue :=
  let recipeData := ensureArray (js "ingredients") recipeData in
  let recipeData := ensureArray (js "instructions") recipeData in
  match ensureName recipeData with
  | inl e => inl e
  | inr recipeData =>
      let recipeData := cleanServings recipeData in
      match ensureTimeString (js "prepTime") recipeData with
      | inl e => inl e
      | inr recipeData => ensureTimeString (js "cookTime") recipeData
      end
  end.

(** The first assignment, [recipeData.ingredients = []], on a primitive: the
    file is a module, hence strict code, where V8 throws the [TypeError]
    [Cannot create property 'ingredients' on string '...'], naming the type
    and the value. *)
Definition cannotCreateProperty (key type value : jsstring) : JsError :=
  newError (js "Cannot create property '" ++ key ++ js "' on " ++ type
            ++ js " '" ++ value ++ js "'").

(** The value of [recipeData] after [let recipeData = result.recipe;
    if (recipeData) { ... }]. *)
Inductive RecipeData :=
| Unrepaired (recipe : option JValue)
| RecipeObject (fields : gmap jsstring JValue)
| RecipeArray (elements : list JValue) (named : gmap jsstring JValue).

(** [recipe] is [result.recipe], [None] when the response has no such field.
    A falsy value skips the block.  An array has none of the fields the block
    reads (they are neither indices nor [length]), so the block runs on it as
    on an object without fields and what it assigns become named properties
    of the array.  On any other truthy value the first assignment throws. *)
Definition repairRecipeData (recipe : option JValue) : JsError + RecipeData :=
  match recipe with
  | None => inr (Unrepaired None)
  | Some v =>
      if negb (truthy v) then inr (Unrepaired (Some v))
      else
        match v with
        | JObj fields =>
            match repairRecipe fields with
            | inl e => inl e
            | inr fields => inr (RecipeObject fields)
            end
        | JArr elements =>
            match repairRecipe ∅ with
            | inl e => inl e
            | inr named => inr (RecipeArray elements named)
            end
        | JStr s =>
            inl (cannotCreateProperty (js "ingredients") (js "string") s)
        | JNum x =>
            inl (cannotCreateProperty (js "ingredients") (js "number")
                   (numberToString x))
        | JBool b =>
            inl (cannotCreateProperty (js "ingredients") (js "boolean")
                   (js (if b then "true" else "false")))
        | JNull => inr (Unrepaired (Some JNull))
        end
  end.

End Times.

(** *** Title clean-up and Title Case *)

(** The class [[#@]]. *)
Definition isMarker (c : N) : bool := (c =? 35) || (c =? 64).

Section Title.
Context `{CaseMapping}.

Definition capitalize (word : jsstring) : jsstring :=
  match word with
  | [] => word
  | c :: _ => toUpperCase [c] ++ toLowerCase (skipn 1 word)
  end.

(** The value of [title] after trimming, [replace(/[#@]/g, '')],
    [replace(/\s+/g, ' ')] and [substring(0, 60)]. *)
Definition cleanTitle (title : jsstring) : jsstring :=
  substring0 60 (collapseWs (removeChars isMarker (trim title))).

Definition cleanAndFormatTitle (title : jsstring) : jsstring :=
  let title := cleanTitle title in
  join (js " ") (map capitalize (splitOn 32 title)).

End Title.

(** *** The model loop and the terminal fallback *)

Definition models : list jsstring :=
  [js "gpt-4o-mini"; js "gpt-4-turbo"; js "gpt-3.5-turbo"].

(** The fields of the chat-completion request that vary or matter here; the
    system message is a constant text. *)
Record ChatRequest := {
  model : jsstring;
  userContent : jsstring;
  max_tokens : Z
}.

(** What one pass through the [try] block does for a request: the analysis it
    returns, or the error it throws (by the chat client, by [JSON.parse], or by
    the code that shapes the response). *)
Definition TryBlock := ChatRequest -> JsError + VideoAIAnalysis.

Definition terminalFallback (transcript : jsstring) : VideoAIAnalysis :=
  let fallbackTitle :=
    orElse (trim (hd [] (splitOn 46 (substring0 50 transcript)))) (js "Video") in
  {| title := substring0 60 fallbackTitle;
     category := js "General";
     summary := substring0 200 transcript;
     structuredContent :=
       {| type := general; recipeBlock := None;
          workoutBlock := None; tutorialBlock := None |} |}.

(** The [for (const model of models)] loop.  The second component lists the
    models for which a chat completion was requested, in order; [None] as the
    first component means the loop ended without returning. *)
Fixpoint tryModels (attempt : TryBlock) (prompt : jsstring) (ms : list jsstring)
  : option VideoAIAnalysis * list jsstring :=
  match ms with
  | [] => (None, [])
  | m :: rest =>
      match attempt {| model := m; userContent := prompt; max_tokens := 3000 |} with
      | inr analysis => (Some analysis, [m])
      | inl error =>
          if isModelError error then
            let (r, called) := tryModels attempt prompt rest in (r, m :: called)
          else (None, [m])
      end
  end.

Definition transformVideoContent (apiKey : option jsstring) (attempt : TryBlock)
  (transcript url : jsstring) : (JsError + VideoAIAnalysis) * list jsstring :=
  match apiKey with
  | None | Some [] => (inl (newError (js "OPENAI_API_KEY not set")), [])
  | Some _ =>
      match tryModels attempt (userPrompt transcript url) models with
      | (Some analysis, called) => (inr analysis, called)
      | (None, called) => (inr (terminalFallback transcript), called)
      end
  end.

End VideoAI.

(** ** [server/ai.ts] *)

Module AI.

Record AIAnalysis := {
  category : jsstring;
  summary : jsstring
}.

Definition FIXED_CATEGORIES : list jsstring :=
  [js "Technology"; js "Business"; js "Finance"; js "Marketing";
   js "Productivity"; js "Self-Improvement"; js "Health"; js "Fitness";
   js "Cooking"; js "Design"; js "Creative"; js "AI"; js "Programming";
   js "Science"; js "Education"; js "Lifestyle"].

(** [content || title || ''] for [content : string | null]. *)
Definition textSource (title : jsstring) (content : option jsstring) : jsstring :=
  match content with
  | Some (c :: cs) => c :: cs
  | _ => title
  end.

Definition fallbackAnalysis (title : jsstring) (content : option jsstring) : AIAnalysis :=
  let summary :=
    orElse (trim (substring0 160 (textSource title content)))
           (js "No summary available.") in
  {| category := js "General";
     summary := if (200 <? length summary)%nat
                then substring0 197 summary ++ js "..." else summary |}.

(** *** [validateCategory] *)

Section ValidateCategory.
Context `{CaseMapping}.

(** [word.charAt(0).toUpperCase() + word.slice(1).toLowerCase()]. *)
Definition titleCaseWord (word : jsstring) : jsstring :=
  toUpperCase (firstn 1 word) ++ toLowerCase (skipn 1 word).

(** The class [[^\w\s-]]. *)
Definition disallowed (c : N) : bool :=
  negb (isWordChar c || isWhiteSpace c || (c =? 45)).

(** The value of [cleaned] after the "limit to 2 words" step. *)
Definition cleanCategory (category : jsstring) : jsstring :=
  let cleaned := trim category in
  let cleaned := removeChars disallowed cleaned in
  let cleaned := join (js " ") (map titleCaseWord (splitWs cleaned)) in
  let words := firstn 2 (splitWs cleaned) in
  join (js " ") words.

Definition validateCategory (category : jsstring) : jsstring :=
  match category with
  | [] => js "General"
  | _ =>
      let cleaned := cleanCategory category in
      match find (fun fixed => bool_decide (toLowerCase fixed = toLowerCase cleaned))
                 FIXED_CATEGORIES with
      | Some fixedMatch => fixedMatch
      | None =>
          if bool_decide (cleaned = []) || (length cleaned <? 2)%nat
          then js "General" else cleaned
      end
  end.

End ValidateCategory.

(** *** [validateSummary] *)

Definition isHighSurrogate (c : N) : bool := (55296 <=? c) && (c <=? 56319).
Definition isLowSurrogate (c : N) : bool := (56320 <=? c) && (c <=? 57343).

Definition codePoint (hi lo : N) : N := 65536 + (hi - 55296) * 1024 + (lo - 56320).

(** [s.replace(/[\u{lo}-\u{hi}]/gu, '')]: with the [u] flag a surrogate pair is
    one character.  [skip] is set while the second half of a removed pair is
    being dropped. *)
Fixpoint removeRange_go (lo hi : N) (skip : bool) (s : jsstring) : jsstring :=
  match s with
  | [] => []
  | c :: s' =>
      if skip then removeRange_go lo hi false s'
      else
        match s' with
        | d :: _ =>
            if isHighSurrogate c && isLowSurrogate d then
              if (lo <=? codePoint c d) && (codePoint c d <=? hi)
              then removeRange_go lo hi true s'
              else c :: removeRange_go lo hi false s'
            else if (lo <=? c) && (c <=? hi) then removeRange_go lo hi false s'
            else c :: removeRange_go lo hi false s'
        | [] =>
            if (lo <=? c) && (c <=? hi) then [] else [c]
        end
  end.

Definition removeRange (lo hi : N) (s : jsstring) : jsstring :=
  removeRange_go lo hi false s.

(** One attempt of [/\[([^\]]+)\]\([^\)]+\)/] just after an opening bracket:
    the link text and the number of characters the match covers after the
    bracket. *)
Definition matchLink (s : jsstring) : option (jsstring * nat) :=
  let text := takeWhile (fun c => negb (c =? 93)) s in
  match text with
  | [] => None
  | _ =>
      match skipn (length text) s with
      | 93 :: 40 :: r =>
          let target := takeWhile (fun c => negb (c =? 41)) r in
          match target with
          | [] => None
          | _ =>
              match skipn (length target) r with
              | 41 :: _ => Some (text, (length text + 2 + length target + 1)%nat)
              | _ => None
              end
          end
      | _ => None
      end
  end.

(** [s.replace(/\[([^\]]+)\]\([^\)]+\)/g, '$1')]. *)
Fixpoint replaceLinks_go (skip : nat) (s : jsstring) : jsstring :=
  match s with
  | [] => []
  | c :: s' =>
      match skip with
      | S k => replaceLinks_go k s'
      | O =>
          if c =? 91 then
            match matchLink s' with
            | Some (text, covered) => text ++ replaceLinks_go covered s'
            | None => c :: replaceLinks_go 0 s'
            end
          else c :: replaceLinks_go 0 s'
      end
  end.

Definition replaceLinks (s : jsstring) : jsstring := replaceLinks_go 0 s.

(** Trimming, emoji removal and markdown removal. *)
Definition cleanSummary (summary : jsstring) : jsstring :=
  let cleaned := trim summary in
  let cleaned := removeRange 127744 129535 cleaned in
  let cleaned := removeRange 128512 128591 cleaned in
  let cleaned := removeRange 128640 128767 cleaned in
  let cleaned := removeRange 9728 9983 cleaned in
  let cleaned := removeRange 9984 10175 cleaned in
  let cleaned := removeAll (js "**") cleaned in
  let cleaned := removeAll (js "*") cleaned in
  let cleaned := removeAll (js "__") cleaned in
  let cleaned := removeAll (js "_") cleaned in
  let cleaned := removeAll (js "`") cleaned in
  replaceLinks cleaned.

(** The "limit to 200 characters" block. *)
Definition capSummary (cleaned : jsstring) : jsstring :=
  if (200 <? length cleaned)%nat then
    let truncated := substring0 200 cleaned in
    let lastPeriod := lastIndexOf 46 truncated in
    let lastExclamation := lastIndexOf 33 truncated in
    let lastQuestion := lastIndexOf 63 truncated in
    let lastSentenceEnd := Z.max (Z.max lastPeriod lastExclamation) lastQuestion in
    if (50 <? lastSentenceEnd)%Z then
      substring0 (Z.to_nat (lastSentenceEnd + 1)) cleaned
    else
      let lastSpace := lastIndexOf 32 truncated in
      if (50 <? lastSpace)%Z then substring0 (Z.to_nat lastSpace) cleaned ++ js "..."
      else truncated ++ js "..."
  else cleaned.

Section ValidateSummary.
Context `{CaseMapping}.

(** The test that the cleaned summary "just repeats the title". *)
Definition repeatsTitle (cleaned title : jsstring) : bool :=
  let titleLower := trim (toLowerCase title) in
  let summaryLower := trim (toLowerCase cleaned) in
  bool_decide (summaryLower = titleLower)
  || startsWith (titleLower ++ js " ") summaryLower.

Definition validateSummary (summary title : jsstring) (content : option jsstring)
  : jsstring :=
  match summary with
  | [] =>
      orElse (trim (substring0 160 (textSource title content)))
             (js "No summary available.")
  | _ =>
      let cleaned := cleanSummary summary in
      let cleaned :=
        if repeatsTitle cleaned title then
          match content with
          | Some (c :: cs) => trim (substring0 160 (c :: cs))
          | _ => js "Information about " ++ title
          end
        else cleaned in
      orElse (capSummary cleaned) (js "No summary available.")
  end.

End ValidateSummary.

(** *** [analyzeContent] *)

Definition models : list jsstring :=
  [js "gpt-4o-mini"; js "gpt-4-turbo"; js "gpt-3.5-turbo"].

(** One pass through the [try] block for a model: the analysis it returns or
    the error it throws. *)
Definition TryBlock := jsstring -> JsError + AIAnalysis.

Fixpoint tryModels (attempt : TryBlock) (ms : list jsstring)
  : option AIAnalysis * list jsstring :=
  match ms with
  | [] => (None, [])
  | m :: rest =>
      match attempt m with
      | inr analysis => (Some analysis, [m])
      | inl error =>
          if isModelError error then
            let (r, called) := tryModels attempt rest in (r, m :: called)
          else (None, [m])
      end
  end.

(** [client] tells whether [initializeOpenAI()] produced a client, [apiKey]
    whether [process.env.OPENAI_API_KEY] is set at the time of the call. *)
Definition analyzeContent (client apiKey : bool) (attempt : TryBlock)
  (title : jsstring) (content : option jsstring) : AIAnalysis * list jsstring :=
  if negb client then (fallbackAnalysis title content, [])
  else if negb apiKey then (fallbackAnalysis title content, [])
  else
    match tryModels attempt models with
    | (Some analysis, called) => (analysis, called)
    | (None, called) => (fallbackAnalysis title content, called)
    end.

End AI.

(** ** [shared/schema.ts] and [server/storage.ts] *)

Module Storage.

Inductive ItemType := link | note | video.

Record VideoData := {
  platform : Video.PlatformType;
  transcript : option jsstring;
  structuredContent : option VideoAI.VideoStructuredContent
}.

Record Item := {
  id : jsstring;
  userId : jsstring;
  type : ItemType;
  title : jsstring;
  summary : jsstring;
  category : jsstring;
  tags : list jsstring;
  createdAt : Z;
  userNotes : option jsstring;
  url : option jsstring;
  imageUrl : option jsstring;
  content : option jsstring;
  videoData : option VideoData
}.

(** [Partial<Item>]: [None] is an absent key.  For the optional fields of
    [Item] a present key may hold [undefined], hence the nested option. *)
Record PartialItem := {
  new_id : option jsstring;
  new_userId : option jsstring;
  new_type : option ItemType;
  new_title : option jsstring;
  new_summary : option jsstring;
  new_category : option jsstring;
  new_tags : option (list jsstring);
  new_createdAt : option Z;
  new_userNotes : option (option jsstring);
  new_url : option (option jsstring);
  new_imageUrl : option (option jsstring);
  new_content : option (option jsstring);
  new_videoData : option (option VideoData)
}.

(** One field of [{...item, ...updates}]. *)
Definition spread {A} (old : A) (new : option A) : A :=
  match new with Some v => v | None => old end.

(** The private [items] map of [MemStorage]. *)
Record MemStorage := {
  items : gmap jsstring Item
}.

Definition createItem (itemId : jsstring) (now : Z) (itemData : Item) (st : MemStorage)
  : Item * MemStorage :=
  let newItem :=
    {| id := itemId; userId := userId itemData; type := type itemData;
       title := title itemData; summary := summary itemData;
       category := category itemData; tags := tags itemData;
       createdAt := now; userNotes := userNotes itemData; url := url itemData;
       imageUrl := imageUrl itemData; content := content itemData;
       videoData := videoData itemData |} in
  (newItem, {| items := <[id newItem := newItem]> (items st) |}).

Definition getItemById (itemId uid : jsstring) (st : MemStorage)
  : option Item * MemStorage :=
  match items st !! itemId with
  | None => (None, st)
  | Some item =>
      if negb (bool_decide (userId item = uid)) then (None, st)
      else (Some item, st)
  end.

Definition updateItem (itemId uid : jsstring) (updates : PartialItem) (st : MemStorage)
  : option Item * MemStorage :=
  match items st !! itemId with
  | None => (None, st)
  | Some item =>
      if negb (bool_decide (userId item = uid)) then (None, st)
      else
        let updated :=
          {| type := spread (type item) (new_type updates);
             title := spread (title item) (new_title updates);
             summary := spread (summary item) (new_summary updates);
             category := spread (category item) (new_category updates);
             tags := spread (tags item) (new_tags updates);
             userNotes := spread (userNotes item) (new_userNotes updates);
             url := spread (url item) (new_url updates);
             imageUrl := spread (imageUrl item) (new_imageUrl updates);
             content := spread (content item) (new_content updates);
             videoData := spread (videoData item) (new_videoData updates);
             id := id item;
             userId := userId item;
             createdAt := createdAt item |} in
        (Some updated, {| items := <[itemId := updated]> (items st) |})
  end.

Definition deleteItem (itemId uid : jsstring) (st : MemStorage)
  : bool * MemStorage :=
  match items st !! itemId with
  | None => (false, st)
  | Some item =>
      if negb (bool_decide (userId item = uid)) then (false, st)
      else (true, {| items := delete itemId (items st) |})
  end.

End Storage.

(** ** Vocabulary of the properties *)

(** [pat] occurs in [s]. *)
Definition Substring (pat s : jsstring) : Prop :=
  exists before after, s = before ++ pat ++ after.

(** The text before the first occurrence of character [c] (all of [s] when
    there is none). *)
Definition textBefore (c : N) (s : jsstring) : jsstring :=
  takeWhile (fun d => negb (d =? c)) s.

(** The terminal fallback title as the code computes it, and as it reads
    without the trimming. *)
Definition trimmedFirstSentence (transcript : jsstring) : jsstring :=
  orElse (trim (textBefore 46 (substring0 50 transcript))) (js "Video").

Definition untrimmedFirstSentence (transcript : jsstring) : jsstring :=
  orElse (textBefore 46 (substring0 50 transcript)) (js "Video").

(** The request sent for [model] by [transformVideoContent]. *)
Definition videoRequest (transcript url model : jsstring) : VideoAI.ChatRequest :=
  {| VideoAI.model := model;
     VideoAI.userContent := VideoAI.userPrompt transcript url;
     VideoAI.max_tokens := 3000 |}.

(** The class of errors after which the model loops go on to the next model. *)
Definition ModelClassError (e : JsError) : Prop :=
  (exists m, message e = Some m /\ Substring (js "model") m)
  \/ status e = Some 404%Z
  \/ code e = Some (js "model_not_found").

(** The two provenance labels of the video prompt. *)
Definition captionsLabel : jsstring := js "captions/subtitles (high quality)".
Definition audioLabel : jsstring := js "audio transcription".

Section UrlPatterns.
Context `{CaseMapping}.

(** The three supported sources, matched case-insensitively. *)
Definition mentions (pat : string) (url : jsstring) : Prop :=
  Substring (js pat) (toLowerCase url).

Definition matchesTikTok (url : jsstring) : Prop :=
  mentions "tiktok.com" url \/ mentions "vm.tiktok.com" url.

Definition matchesInstagramReels (url : jsstring) : Prop :=
  mentions "instagram.com" url /\ (mentions "/reel/" url \/ mentions "/reels/" url).

Definition matchesYouTube (url : jsstring) : Prop :=
  mentions "youtube.com" url \/ mentions "youtu.be" url.

End UrlPatterns.

(** The characters that survive [validateCategory]'s clean-up inside a word:
    [[A-Za-z0-9_-]]. *)
Definition isPlain (c : N) : bool := isWordChar c || (c =? 45).


Definition PlainWord (w : jsstring) : Prop := Forall (fun c => isPlain c = true) w.

(** Words of plain characters separated by white space. *)
Definition PlainText (s : jsstring) : Prop :=
  Forall (fun c => isWhiteSpace c = true \/ isPlain c = true) s.

(** Words of plain characters separated by U+0020. *)
Definition SpacedText (s : jsstring) : Prop :=
  Forall (fun c => c = 32 \/ isPlain c = true) s.

(** The fields of a recipe block that the repair reads and writes: those of
    an object; an array has none of them. *)
Definition namedFields (recipe : JValue) : option (gmap jsstring JValue) :=
  match recipe with
  | JObj fields => Some fields
  | JArr _ => Some ∅
  | _ => None
  end.

(** The repaired block, for the kind of block [recipe] is. *)
Definition repairedAs (recipe : JValue) (fields : gmap jsstring JValue)
  : VideoAI.RecipeData :=
  match recipe with
  | JArr elements => VideoAI.RecipeArray elements fields
  | _ => VideoAI.RecipeObject fields
  end.

(** A recipe whose [name] the repair can handle: absent, falsy, or a string.
    (On any other value [name.trim()] throws.) *)
Definition NameRepairable (recipeData : gmap jsstring JValue) : Prop :=
  match recipeData !! js "name" with
  | None => True
  | Some v => truthy v = false \/ isString v = true
  end.

(** A recipe whose times the repair can handle: [String()] returns on a
    [prepTime] or [cookTime] it is applied to.  (It throws on an object with a
    field [toString], also inside an array.) *)
Definition TimesRender `{NumberFormat} (recipeData : gmap jsstring JValue) : Prop :=
  forall key v,
    key = js "prepTime" \/ key = js "cookTime" ->
    recipeData !! key = Some v -> truthy v = true -> isString v = false ->
    exists s, toStr v = inr s.

(** [name] is missing or blank. *)
Definition NameBlank (recipeData : gmap jsstring JValue) : Prop :=
  match recipeData !! js "name" with
  | None => True
  | Some (JStr s) => trim s = []
  | Some v => truthy v = false
  end.

Definition HasDigit (s : jsstring) : Prop := exists c, In c s /\ isDigit c = true.

(** [ds] is the leftmost maximal run of digits of [s]. *)
Definition FirstDigitRun (s ds : jsstring) : Prop :=
  exists before after,
    s = before ++ ds ++ after
    /\ Forall (fun c => isDigit c = false) before
    /\ ds <> []
    /\ Forall (fun c => isDigit c = true) ds
    /\ match after with [] => True | c :: _ => isDigit c = false end.

(** Title Case on ASCII text, one character at a time; [start] tells whether
    the next character begins a word. *)
Fixpoint titleCaseAscii (start : bool) (s : jsstring) : jsstring :=
  match s with
  | [] => []
  | c :: r =>
      if c =? 32 then 32 :: titleCaseAscii true r
      else (if start then upperAscii c else lowerAscii c) :: titleCaseAscii false r
  end.

Definition capitalizeAscii (w : jsstring) : jsstring :=
  match w with
  | [] => []
  | c :: r => upperAscii c :: map lowerAscii r
  end.

(** Every white-space character is U+0020 and no two of them are adjacent;
    [inRun] tells whether the text follows a space. *)
Fixpoint singleSpaced (inRun : bool) (s : jsstring) : bool :=
  match s with
  | [] => true
  | c :: r =>
      if isWhiteSpace c then (c =? 32) && negb inRun && singleSpaced true r
      else singleSpaced false r
  end.

(** The shape of a title once it went through [cleanAndFormatTitle]. *)
Record NormalTitle (t : jsstring) : Prop := {
  normal_ascii : Forall isAscii t;
  normal_unmarked : Forall (fun c => VideoAI.isMarker c = false) t;
  normal_spaced : singleSpaced false t = true;
  normal_short : (length t <= 60)%nat;
  normal_cased : titleCaseAscii true t = t
}.


(** *** Vocabulary for the summary cap *)

(** ['.'], ['!'] or ['?']. *)
Definition isSentenceEnd (c : N) : bool := (c =? 46) || (c =? 33) || (c =? 63).

(** [i] is the index of the last sentence end among the first 200 characters
    of [text]. *)
Definition LastSentenceEnd (text : jsstring) (i : nat) : Prop :=
  (i < 200)%nat
  /\ (exists c, nth_error text i = Some c /\ isSentenceEnd c = true)
  /\ forall j c, (i < j < 200)%nat -> nth_error text j = Some c ->
                 isSentenceEnd c = false.

Section SummaryVocabulary.
Context `{CaseMapping}.

(** The text [validateSummary] hands to its 200-character cap when the
    summary is not empty: the cleaned summary, or what replaces it when it
    repeats the title. *)
Definition textToCap (summary title : jsstring) (content : option jsstring)
  : jsstring :=
  let cleaned := AI.cleanSummary summary in
  if AI.repeatsTitle cleaned title then
    match content with
    | Some (c :: cs) => trim (substring0 160 (c :: cs))
    | _ => js "Information about " ++ title
    end
  else cleaned.

(** The cleaned summary "just repeats the title": ignoring case and outer
    white space it is the title, or the title followed by a space and more. *)
Definition RepeatsTitle (cleaned title : jsstring) : Prop :=
  trim (toLowerCase cleaned) = trim (toLowerCase title)
  \/ exists more,
       trim (toLowerCase cleaned) = trim (toLowerCase title) ++ js " " ++ more.

(** Lower-casing treats the words on either side of a space separately, as
    Unicode case conversion does. *)
Definition LowersWordByWord : Prop :=
  forall s t, toLowerCase (s ++ 32 :: t) = toLowerCase s ++ 32 :: toLowerCase t.

End SummaryVocabulary.
(** ** Sample data used to run the functions *)

Module Samples.

Definition note1 : Storage.Item :=
  {| Storage.id := js "item-1"; Storage.userId := js "alice";
     Storage.type := Storage.note; Storage.title := js "Shopping";
     Storage.summary := js "Milk and eggs"; Storage.category := js "Lifestyle";
     Storage.tags := []; Storage.createdAt := 1700000000000%Z;
     Storage.userNotes := None; Storage.url := None; Storage.imageUrl := None;
     Storage.content := Some (js "Milk and eggs"); Storage.videoData := None |}.

Definition store1 : Storage.MemStorage :=
  {| Storage.items := <[js "item-1" := note1]> ∅ |}.

(** An update that tries to take the item over. *)
Definition hijack : Storage.PartialItem :=
  {| Storage.new_id := Some (js "item-2"); Storage.new_userId := Some (js "mallory");
     Storage.new_type := None; Storage.new_title := Some (js "Mine now");
     Storage.new_summary := None; Storage.new_category := None;
     Storage.new_tags := None; Storage.new_createdAt := Some 0%Z;
     Storage.new_userNotes := Some None; Storage.new_url := None;
     Storage.new_imageUrl := None; Storage.new_content := None;
     Storage.new_videoData := None |}.

(** A [try] block in which every request fails because the model does not
    exist. *)
Definition modelNotFound : JsError :=
  {| message := Some (js "The model does not exist");
     status := Some 404%Z; code := Some (js "model_not_found") |}.

(** A [try] block that fails on a rate limit. *)
Definition rateLimited : JsError :=
  {| message := Some (js "Rate limit reached"); status := Some 429%Z;
     code := Some (js "rate_limit_exceeded") |}.

Definition videoAllMissing : VideoAI.TryBlock := fun _ => inl modelNotFound.
Definition videoRateLimited : VideoAI.TryBlock := fun _ => inl rateLimited.
Definition aiRateLimited : AI.TryBlock := fun _ => inl rateLimited.

(** A run in which the first model is not available and the second one
    answers. *)
Definition ovenAnalysis : VideoAI.VideoAIAnalysis :=
  {| VideoAI.title := js "Oven Basics";
     VideoAI.category := js "Cooking";
     VideoAI.summary := js "How to preheat an oven.";
     VideoAI.structuredContent :=
       {| VideoAI.type := VideoAI.general; VideoAI.recipeBlock := None;
          VideoAI.workoutBlock := None; VideoAI.tutorialBlock := None |} |}.

Definition videoSecondAnswers : VideoAI.TryBlock := fun request =>
  if bool_decide (VideoAI.model request = js "gpt-4-turbo")
  then inr ovenAnalysis else inl modelNotFound.

Definition noteAnalysis : AI.AIAnalysis :=
  {| AI.category := js "Cooking"; AI.summary := js "How to preheat an oven." |}.

Definition aiSecondAnswers : AI.TryBlock := fun model =>
  if bool_decide (model = js "gpt-4-turbo")
  then inr noteAnalysis else inl modelNotFound.

Definition apiKey : option jsstring := Some (js "sk-test").
Definition reelUrl : jsstring := js "https://www.instagram.com/reel/abc/".

(** A run in which the caption probe yields nothing usable and transcription
    succeeds. *)
Definition shortCaptionEnv : Video.VideoEnv :=
  {| Video.captions := fun _ => Some (js "too short");
     Video.audio := fun _ => inr ([0; 1; 2], js "m4a");
     Video.transcribe := fun _ _ => inr (js "spoken words") |}.

(** [{"name": "Cake", "ingredients": "flour, sugar", "servings": "serves 4 people",
      "prepTime": 10, "cookTime": 22.5}]. *)
Definition cake : gmap jsstring JValue :=
  <[js "name" := JStr (js "Cake")]>
  (<[js "ingredients" := JStr (js "flour, sugar")]>
  (<[js "servings" := JStr (js "serves 4 people")]>
  (<[js "prepTime" := JNum (integer 10)]>
  (<[js "cookTime" := JNum (S754_finite false 45 (-1))]> ∅)))).

(** [{"name": "Cake", "ingredients": [], "instructions": [], "servings": "",
      "prepTime": 0}]. *)
Definition plainCake : gmap jsstring JValue :=
  <[js "name" := JStr (js "Cake")]>
  (<[js "ingredients" := JArr []]>
  (<[js "instructions" := JArr []]>
  (<[js "servings" := JStr []]>
  (<[js "prepTime" := JNum (integer 0)]> ∅)))).

(** [{"name": 5, "ingredients": "flour"}]. *)
Definition numberedCake : gmap jsstring JValue :=
  <[js "name" := JNum (integer 5)]> (<[js "ingredients" := JStr (js "flour")]> ∅).

(** [{"name": "Cake", "prepTime": {"toString": 1}}]. *)
Definition clockCake : gmap jsstring JValue :=
  <[js "name" := JStr (js "Cake")]>
  (<[js "prepTime" := JObj (<[js "toString" := JNum (integer 1)]> ∅)]> ∅).

(** [{"name": "Cake", "servings": "serves 9007199254740993"}]: the digits
    denote [2^53 + 1], which no Number is. *)
Definition banquet : gmap jsstring JValue :=
  <[js "name" := JStr (js "Cake")]>
  (<[js "servings" := JStr (js "serves 9007199254740993")]> ∅).

(** A 200-character title: "information about information about ..." cut
    at 197 characters, then "...". *)
Definition aboutTitle : jsstring :=
  firstn 197 (List.concat (repeat (js "information about ") 11)) ++ js "...".

(** A 60-character sentence, used as a title. *)
Definition sentence60 : jsstring := repeat 97 59 ++ js ".".

(** A subtitle file as the caption probe finds it. *)
Definition vttFile : Video.TmpFile :=
  {| Video.fileName := js "captions-1700000000000.en.vtt";
     Video.fileContent :=
       js "WEBVTT" ++ [10] ++ [10]
       ++ js "00:00:01.000 --> 00:00:03.000" ++ [10]
       ++ js "Preheat the oven to 350 degrees." ++ [10] ++ [10]
       ++ js "2" ++ [10]
       ++ js "00:00:03.000 --> 00:00:05.000" ++ [10]
       ++ js "<c>Mix</c> the flour" ++ [10]
       ++ js "  Mix two cups of flour with sugar.  " ++ [10] |}.

End Samples.

(** ** [server/storage.ts]: listing a user's items *)


Module Listing.

(** [Array.prototype.sort] with the comparator
    [(a, b) => b.createdAt.getTime() - a.createdAt.getTime()].  The sort is
    stable, so its result is the one of inserting each item, from the last to
    the first, in front of the first item that is not strictly newer. *)
Fixpoint insertNewest (x : Storage.Item) (l : list Storage.Item) : list Storage.Item :=
  match l with
  | [] => [x]
  | y :: l' =>
      if (Storage.createdAt x <? Storage.createdAt y)%Z
      then y :: insertNewest x l' else x :: l
  end.

Definition sortNewestFirst (l : list Storage.Item) : list Storage.Item :=
  foldr insertNewest [] l.

(** [values] is [Array.from(this.items.values())]: the items of the store in
    the order the [Map] iterates them. *)
Definition getItemsByUserId (values : list Storage.Item) (uid : jsstring)
  : list Storage.Item :=
  sortNewestFirst
    (List.filter (fun item => bool_decide (Storage.userId item = uid)) values).

(** Every item is at least as new as the ones after it. *)
Fixpoint NewestFirst (l : list Storage.Item) : Prop :=
  match l with
  | [] => True
  | x :: l' =>
      Forall (fun y => (Storage.createdAt y <= Storage.createdAt x)%Z) l'
      /\ NewestFirst l'
  end.

(** The items of [l] created at [t], in the order of [l]. *)
Definition createdAtTime (t : Z) (l : list Storage.Item) : list Storage.Item :=
  List.filter (fun item => (Storage.createdAt item =? t)%Z) l.

End Listing.

(** ** [server/storage.ts]: users *)

Module Users.

(** A field typed [string | null], as an object holds it at run time: the
    spread of a [Partial<User>] can also leave [undefined] there. *)
Inductive Nullable :=
| Undefined
| Null
| Str (s : jsstring).

Definition truthyField (v : Nullable) : bool :=
  match v with Str (_ :: _) => true | _ => false end.

(** [v || null]. *)
Definition orNull (v : Nullable) : Nullable := if truthyField v then v else Null.

(** [v || '']. *)
Definition orEmpty (v : Nullable) : jsstring :=
  match v with Str s => s | _ => [] end.

Record User := {
  id : jsstring;
  email : jsstring;
  firstName : Nullable;
  lastName : Nullable;
  profileImageUrl : Nullable;
  createdAt : Z;
  updatedAt : Z
}.

(** [Partial<User> & { email: string }]: [None] is an absent key.  For the
    fields typed [string | null] a present key may hold [undefined]. *)
Record UserData := {
  new_id : option jsstring;
  new_email : jsstring;
  new_firstName : option Nullable;
  new_lastName : option Nullable;
  new_profileImageUrl : option Nullable;
  new_createdAt : option Z;
  new_updatedAt : option Z
}.

(** The private [users] and [userByEmail] maps of [MemStorage].  No method
    reads or writes them together with [items]. *)
Record UserStore := {
  users : gmap jsstring User;
  userByEmail : gmap jsstring jsstring
}.

Definition emptyStore : UserStore := {| users := ∅; userByEmail := ∅ |}.

(** What the environment contributes to one call of [upsertUser]: the value
    of [Date.now()] and of [Math.random().toString(36).substr(2, 9)] in the
    generated id, and the two [new Date()] of the time stamps. *)
Record Draw := {
  dateNow : Z;
  randomSuffix : jsstring;
  createdNow : Z;
  updatedNow : Z
}.

(** [`user-${Date.now()}-${Math.random().toString(36).substr(2, 9)}`].
    [Date.now()] is a time value: a whole number of milliseconds of magnitude
    at most [8.64e15], below [2^53], which the template prints digit by
    digit. *)
Definition generatedId (draw : Draw) : jsstring :=
  js "user-" ++ decimal (dateNow draw) ++ js "-" ++ randomSuffix draw.

(** [userData.x || null] for a key that may be absent. *)
Definition givenOrNull (v : option Nullable) : Nullable :=
  match v with Some x => orNull x | None => Null end.

(** [userData.id || `user-...`]: the id of a user that is new. *)
Definition newUserId (draw : Draw) (userData : UserData) : jsstring :=
  match new_id userData with
  | Some (c :: i) => c :: i
  | _ => generatedId draw
  end.

(** The user returned, and the store afterwards.  [None] stands for the one
    case in which the code builds an object that is no [User]: the e-mail
    index names an id that [users] lacks, and [{...undefined, ...userData}]
    has only the fields of [userData]. *)
Definition upsertUser (draw : Draw) (userData : UserData) (st : UserStore)
  : option (User * UserStore) :=
  let existing :=
    match (userByEmail st !! new_email userData : option jsstring) with
    | Some existing => if bool_decide (existing = []) then None else Some existing
    | None => None
    end in
  match existing with
  | Some existing =>
      match users st !! existing with
      | Some user =>
          let updated :=
            {| id := Storage.spread (id user) (new_id userData);
               email := new_email userData;
               firstName := Storage.spread (firstName user) (new_firstName userData);
               lastName := Storage.spread (lastName user) (new_lastName userData);
               profileImageUrl :=
                 Storage.spread (profileImageUrl user) (new_profileImageUrl userData);
               createdAt := Storage.spread (createdAt user) (new_createdAt userData);
               updatedAt := updatedNow draw |} in
          Some (updated,
                {| users := <[existing := updated]> (users st);
                   userByEmail := userByEmail st |})
      | None => None
      end
  | None =>
      let newUser :=
        {| id := newUserId draw userData;
           email := new_email userData;
           firstName := givenOrNull (new_firstName userData);
           lastName := givenOrNull (new_lastName userData);
           profileImageUrl := givenOrNull (new_profileImageUrl userData);
           createdAt := createdNow draw;
           updatedAt := updatedNow draw |} in
      Some (newUser,
            {| users := <[id newUser := newUser]> (users st);
               userByEmail := <[email newUser := id newUser]> (userByEmail st) |})
  end.

(** [this.users.get(id) || null]. *)
Definition getUserById (userId : jsstring) (st : UserStore) : option User :=
  users st !! userId.

Definition getUserByEmail (address : jsstring) (st : UserStore) : option User :=
  match (userByEmail st !! address : option jsstring) with
  | None => None
  | Some userId =>
      if bool_decide (userId = []) then None else users st !! userId
  end.

(** The e-mail index only names ids under which a user is stored. *)
Definition Indexed (st : UserStore) : Prop :=
  forall address userId : jsstring,
    userByEmail st !! address = Some userId ->
    userId <> [] /\ exists user, users st !! userId = Some user.

(** Every user is stored under its own id, and indexed under its own e-mail
    address. *)
Definition Consistent (st : UserStore) : Prop :=
  (forall (userId : jsstring) user, users st !! userId = Some user -> id user = userId)
  /\ (forall address userId : jsstring,
        userByEmail st !! address = Some userId ->
        userId <> []
        /\ exists user, users st !! userId = Some user /\ email user = address).

(** A run of [upsertUser] calls, from the first to the last. *)
Fixpoint upsertAll (calls : list (Draw * UserData)) (st : UserStore)
  : option UserStore :=
  match calls with
  | [] => Some st
  | (draw, userData) :: rest =>
      match upsertUser draw userData st with
      | Some (_, st') => upsertAll rest st'
      | None => None
      end
  end.

End Users.

(** ** [server/jwt.ts], [server/jwtMiddleware.ts] and [server/mobileAuth.ts] *)

Module Jwt.

Record JWTPayload := {
  userId : jsstring;
  email : jsstring
}.

(** [generateToken] and [verifyToken] wrap [jsonwebtoken]'s [sign] and
    [verify] with the server's secret; what they compute also depends on the
    clock (issue and expiry time), so the code below takes them as the
    functions they are at the time of the call. *)
Definition Sign := JWTPayload -> jsstring.
Definition Verify := jsstring -> option JWTPayload.

End Jwt.

Module Middleware.

(** The two request headers the middleware reads; [None] is a header that
    was not sent. *)
Record Headers := {
  xDevToken : option jsstring;
  authorization : option jsstring
}.

(** [req.user]. *)
Record AuthUser := {
  id : jsstring;
  email : jsstring;
  firstName : Users.Nullable;
  lastName : Users.Nullable
}.

(** How the middleware ends: it calls [next()] with [req.user] set, or it
    answers with a status and an error message. *)
Inductive Outcome :=
| Next (user : AuthUser)
| Respond (status : Z) (error : jsstring).

Definition authUser (user : Users.User) : AuthUser :=
  {| id := Users.id user;
     email := Users.email user;
     firstName := Users.firstName user;
     lastName := Users.lastName user |}.

Definition devUserData : Users.UserData :=
  {| Users.new_id := Some (js "dev-user-123");
     Users.new_email := js "dev@smartvault.app";
     Users.new_firstName := Some (Users.Str (js "Dev"));
     Users.new_lastName := Some (Users.Str (js "User"));
     Users.new_profileImageUrl := None;
     Users.new_createdAt := None;
     Users.new_updatedAt := None |}.

(** [production] is [process.env.NODE_ENV === 'production'].  The result is
    [None] where [upsertUser] is. *)
Definition jwtAuthMiddleware (production : bool) (verifyToken : Jwt.Verify)
  (draw : Users.Draw) (headers : Headers) (st : Users.UserStore)
  : option (Outcome * Users.UserStore) :=
  if bool_decide (xDevToken headers = Some (js "dev")) && negb production then
    match Users.upsertUser draw devUserData st with
    | Some (devUser, st') => Some (Next (authUser devUser), st')
    | None => None
    end
  else
    match authorization headers with
    | None => Some (Respond 401 (js "Unauthorized"), st)
    | Some authHeader =>
        if bool_decide (authHeader = []) || negb (startsWith (js "Bearer ") authHeader)
        then Some (Respond 401 (js "Unauthorized"), st)
        else
          let token := skipn 7 authHeader in
          match verifyToken token with
          | None => Some (Respond 401 (js "Invalid token"), st)
          | Some payload =>
              match Users.getUserById (Jwt.userId payload) st with
              | None => Some (Respond 401 (js "User not found"), st)
              | Some user => Some (Next (authUser user), st)
              end
          end
    end.

End Middleware.

Module MobileAuth.

Record GoogleUserInfo := {
  email : jsstring;
  name : jsstring;
  picture : option jsstring
}.

(** The fields of the verified token's payload that [verifyGoogleToken]
    reads; [None] is a missing field. *)
Record TokenPayload := {
  payload_email : option jsstring;
  payload_name : option jsstring;
  payload_given_name : option jsstring;
  payload_picture : option jsstring
}.

(** [x || y] for a string that may be missing. *)
Definition given (x : option jsstring) (y : jsstring) : jsstring :=
  match x with Some (c :: s) => c :: s | _ => y end.

(** The [catch] block of [verifyGoogleToken]: the error it throws for the
    error it caught. *)
Definition friendlyError (error : JsError) : JsError :=
  let mentions pat :=
    match message error with Some m => includes pat m | None => false end in
  if mentions (js "Token used too early") then
    newError (js "Token is not yet valid. Please check your device clock.")
  else if mentions (js "Token used too late") then
    newError (js "Token has expired. Please try logging in again.")
  else if mentions (js "audience") then
    newError (js "Token audience mismatch. Please ensure you are using the correct app.")
  else if mentions (js "signature") then
    newError (js "Invalid token signature. Token may be corrupted.")
  else
    newError (js "Google token verification failed: "
              ++ given (message error) (js "Unknown error")).

(** [verifyIdToken] stands for [client.verifyIdToken(...)] followed by
    [ticket.getPayload()]: the payload ([None] for a missing one), or the
    error thrown. *)
Definition verifyGoogleToken (verifyIdToken : jsstring -> JsError + option TokenPayload)
  (idToken : jsstring) : JsError + GoogleUserInfo :=
  match verifyIdToken idToken with
  | inl error => inl (friendlyError error)
  | inr None =>
      inl (friendlyError (newError (js "Invalid token payload: payload is null")))
  | inr (Some payload) =>
      match payload_email payload with
      | Some (c :: e) =>
          let email := c :: e in
          inr {| email := email;
                 name := given (payload_name payload)
                           (given (payload_given_name payload)
                              (hd [] (splitOn 64 email)));
                 picture := payload_picture payload |}
      | _ =>
          inl (friendlyError (newError (js "Token missing required field: email")))
      end
  end.

Record LoginUser := {
  login_id : jsstring;
  login_email : jsstring;
  login_name : jsstring
}.

Record LoginResult := {
  token : jsstring;
  user : LoginUser
}.

(** [`${user.firstName || ''} ${user.lastName || ''}`.trim() || user.email]. *)
Definition displayName (user : Users.User) : jsstring :=
  orElse (trim (Users.orEmpty (Users.firstName user) ++ js " "
                ++ Users.orEmpty (Users.lastName user)))
         (Users.email user).

(** The [userData] that [handleGoogleLogin] passes to [upsertUser]. *)
Definition googleUserData (googleUser : GoogleUserInfo) : Users.UserData :=
  let parts := splitOn 32 (name googleUser) in
  let firstName := hd [] parts in
  let lastNameParts := tl parts in
  {| Users.new_id := None;
     Users.new_email := email googleUser;
     Users.new_firstName := Some (Users.orNull (Users.Str firstName));
     Users.new_lastName :=
       Some (Users.orNull (Users.Str (join (js " ") lastNameParts)));
     Users.new_profileImageUrl :=
       Some match picture googleUser with
            | Some (c :: p) => Users.Str (c :: p)
            | _ => Users.Undefined
            end;
     Users.new_createdAt := None;
     Users.new_updatedAt := None |}.

(** The result, or the error thrown, and the store afterwards.  The result
    is [None] where [upsertUser] is. *)
Definition handleGoogleLogin (verifyIdToken : jsstring -> JsError + option TokenPayload)
  (generateToken : Jwt.Sign) (draw : Users.Draw) (idToken : jsstring)
  (st : Users.UserStore) : option ((JsError + LoginResult) * Users.UserStore) :=
  match verifyGoogleToken verifyIdToken idToken with
  | inl error => Some (inl error, st)
  | inr googleUser =>
      match Users.upsertUser draw (googleUserData googleUser) st with
      | None => None
      | Some (user, st') =>
          let token :=
            generateToken {| Jwt.userId := Users.id user;
                             Jwt.email := Users.email user |} in
          Some (inr {| token := token;
                       user := {| login_id := Users.id user;
                                  login_email := Users.email user;
                                  login_name := displayName user |} |},
                st')
      end
  end.

(** *** Apple *)

Record AppleUserInfo := {
  apple_email : jsstring;
  apple_name : option jsstring
}.

(** "Mock for now": every identity token is accepted, as this user. *)
Definition verifyAppleToken (identityToken : jsstring) : AppleUserInfo :=
  {| apple_email := js "user@example.com"; apple_name := Some (js "Test User") |}.

(** V8's [TypeError] for the destructuring
    [const [firstName, ...lastNameParts] = (name || '').split(' ')] on a
    value without a [split] method. *)
Definition splitNotAFunction : JsError :=
  newError (js "(name || " ++ dquote ++ dquote
            ++ js ").split is not a function or its return value is not iterable").

(** [userInfo?.name] for the [user] field of the request body ([None] when
    the field is missing): only an object can hold a [name]. *)
Definition infoName (userInfo : option JValue) : option JValue :=
  match userInfo with
  | Some (JObj o) => o !! js "name"
  | _ => None
  end.

(** [userInfo?.name || appleUser.name || null], then [(name || '')] as the
    receiver of [split]: a truthy value that is no string has no such
    method. *)
Definition appleName (userInfo : option JValue) (appleUser : AppleUserInfo)
  : JsError + jsstring :=
  let fromToken :=
    match apple_name appleUser with Some (c :: n) => c :: n | _ => [] end in
  match infoName userInfo with
  | Some v =>
      if truthy v then
        match v with
        | JStr s => inr s
        | _ => inl splitNotAFunction
        end
      else inr fromToken
  | None => inr fromToken
  end.

Definition appleUserData (appleUser : AppleUserInfo) (fullName : jsstring)
  : Users.UserData :=
  let parts := splitOn 32 fullName in
  let firstName := hd [] parts in
  let lastNameParts := tl parts in
  {| Users.new_id := None;
     Users.new_email := apple_email appleUser;
     Users.new_firstName := Some (Users.orNull (Users.Str firstName));
     Users.new_lastName :=
       Some (Users.orNull (Users.Str (join (js " ") lastNameParts)));
     Users.new_profileImageUrl := None;
     Users.new_createdAt := None;
     Users.new_updatedAt := None |}.

Definition handleAppleLogin (generateToken : Jwt.Sign) (draw : Users.Draw)
  (identityToken : jsstring) (userInfo : option JValue) (st : Users.UserStore)
  : option ((JsError + LoginResult) * Users.UserStore) :=
  let appleUser := verifyAppleToken identityToken in
  match appleName userInfo appleUser with
  | inl error => Some (inl error, st)
  | inr fullName =>
      match Users.upsertUser draw (appleUserData appleUser fullName) st with
      | None => None
      | Some (user, st') =>
          let token :=
            generateToken {| Jwt.userId := Users.id user;
                             Jwt.email := Users.email user |} in
          Some (inr {| token := token;
                       user := {| login_id := Users.id user;
                                  login_email := Users.email user;
                                  login_name := displayName user |} |},
                st')
      end
  end.

End MobileAuth.

(** ** [server/routes.ts] *)

Module Routes.

(** The string starts with a word character. *)
Definition startsWithWord (s : jsstring) : bool :=
  match s with d :: _ => isWordChar d | [] => false end.

(** [s.replace(/#\w+/g, '')]: a [#] followed by a word character is dropped
    together with the word characters after it.  [inTag] tells that the
    characters read last belong to such a match. *)
Fixpoint removeHashtags_go (inTag : bool) (s : jsstring) : jsstring :=
  match s with
  | [] => []
  | c :: s' =>
      if inTag && isWordChar c then removeHashtags_go true s'
      else if (c =? 35) && startsWithWord s' then removeHashtags_go true s'
      else c :: removeHashtags_go false s'
  end.

Definition removeHashtags (s : jsstring) : jsstring := removeHashtags_go false s.

(** [s.replace(/^[^:]+:\s*/i, '')]: when the first colon is not the first
    character, everything up to it and the white space after it is dropped. *)
Definition removePrefix (s : jsstring) : jsstring :=
  match takeWhile (fun c => negb (c =? 58)) s,
        dropWhile (fun c => negb (c =? 58)) s with
  | _ :: _, _ :: rest => dropWhile isWhiteSpace rest
  | _, _ => s
  end.

Definition isQuote (c : N) : bool := (c =? 34) || (c =? 39).

(** [s.replace(/^["']|["']$/g, '')]: one quote at the start and one at the
    end. *)
Definition stripQuotes (s : jsstring) : jsstring :=
  let s1 := match s with
            | c :: s' => if isQuote c then s' else s
            | [] => []
            end in
  match rev s1 with
  | c :: r => if isQuote c then rev r else s1
  | [] => []
  end.

Definition cleanVideoTitle (rawTitle : jsstring) : jsstring :=
  match rawTitle with
  | [] => []
  | _ =>
      let cleaned := trim (removeHashtags rawTitle) in
      let cleaned := trim (removePrefix cleaned) in
      let cleaned := trim (stripQuotes cleaned) in
      let cleaned := trim (collapseWs cleaned) in
      let cleaned :=
        if (100 <? length cleaned)%nat then
          let cleaned := substring0 100 cleaned in
          let lastSpace := lastIndexOf 32 cleaned in
          let cleaned :=
            if (70 <? lastSpace)%Z then substring0 (Z.to_nat lastSpace) cleaned
            else cleaned in
          trim cleaned ++ js "..."
        else cleaned in
      orElse cleaned (js "Video")
  end.

(** A [#] directly followed by a word character: what [/#\w+/] matches. *)
Fixpoint hasHashtag (s : jsstring) : bool :=
  match s with
  | [] => false
  | c :: s' =>
      ((c =? 35) && startsWithWord s') || hasHashtag s'
  end.

End Routes.

(** ** Sample accounts *)

Module Accounts.

Definition draw1 : Users.Draw :=
  {| Users.dateNow := 1700000000000%Z;
     Users.randomSuffix := js "k3x9q2m1z";
     Users.createdNow := 1700000000000%Z;
     Users.updatedNow := 1700000000001%Z |}.

Definition draw2 : Users.Draw :=
  {| Users.dateNow := 1700000360000%Z;
     Users.randomSuffix := js "p0d4w8u7b";
     Users.createdNow := 1700000360000%Z;
     Users.updatedNow := 1700000360000%Z |}.

Definition ada : Users.UserData :=
  {| Users.new_id := None;
     Users.new_email := js "ada@example.com";
     Users.new_firstName := Some (Users.Str (js "Ada"));
     Users.new_lastName := Some Users.Null;
     Users.new_profileImageUrl := None;
     Users.new_createdAt := None;
     Users.new_updatedAt := None |}.

(** A Google token check that accepts every token as Ada's. *)
Definition acceptAda : jsstring -> JsError + option MobileAuth.TokenPayload :=
  fun _ =>
    inr (Some {| MobileAuth.payload_email := Some (js "ada@example.com");
                 MobileAuth.payload_name := Some (js "Ada Lovelace");
                 MobileAuth.payload_given_name := Some (js "Ada");
                 MobileAuth.payload_picture := None |}).

(** A toy token: the user id behind a fixed prefix. *)
Definition sign : Jwt.Sign := fun payload => js "signed:" ++ Jwt.userId payload.

Definition verify : Jwt.Verify :=
  fun token =>
    if startsWith (js "signed:") token
    then Some {| Jwt.userId := skipn 7 token; Jwt.email := js "ada@example.com" |}
    else None.

(** A production request that also carries the development header. *)
Definition devHeaders : Middleware.Headers :=
  {| Middleware.xDevToken := Some (js "dev"); Middleware.authorization := None |}.

(** [req.user] for the owner of the sample note. *)
Definition alice : Middleware.AuthUser :=
  {| Middleware.id := js "alice";
     Middleware.email := js "alice@example.com";
     Middleware.firstName := Users.Str (js "Alice");
     Middleware.lastName := Users.Null |}.

End Accounts.

(** ** [server/ai.ts]: the [try] block of [analyzeContent] *)

Module Completion.

(** [create model] stands for the request and the read of
    [response.choices[0].message.content]: the content ([None] for [null]),
    or the error thrown.  [parse] is [JSON.parse]. *)
Definition Create := jsstring -> JsError + option jsstring.
Definition Parse := jsstring -> JsError + JValue.

(** [content || '{}']. *)
Definition orBraces (content : option jsstring) : jsstring :=
  match content with Some (c :: s) => c :: s | _ => js "{}" end.

(** V8's [TypeError] for [result.category] on [null]. *)
Definition categoryOfNull : JsError :=
  newError (js "Cannot read properties of null (reading 'category')").

(** [result.key] on a parsed value, for a key that is no built-in property:
    [undefined] ([None]) on everything that is no object, an exception on
    [null]. *)
Definition getProp (whenNull : JsError) (key : jsstring) (result : JValue)
  : JsError + option JValue :=
  match result with
  | JNull => inl whenNull
  | JObj o => inr (o !! key)
  | _ => inr None
  end.

(** Whether a template literal can render the value.  [String(v)] throws on
    an object with a field [toString]: the field hides
    [Object.prototype.toString] and, coming from JSON, cannot be called.  An
    array renders its elements. *)
Fixpoint renders (v : JValue) : bool :=
  match v with
  | JArr l => forallb renders l
  | JObj o => negb (bool_decide (is_Some (o !! js "toString")))
  | _ => true
  end.

(** The two log lines inside the inner [try], which print
    [`${result.category}`] and [`${result.summary?.substring(0, 50)}`]: they
    throw on [null], on a category that does not render, and on a summary
    that is neither missing, [null] nor a string. *)
Definition logRaw (result : JValue) : JsError + unit :=
  match getProp categoryOfNull (js "category") result with
  | inl e => inl e
  | inr category =>
      if negb (match category with Some v => renders v | None => true end) then
        inl (newError (js "Cannot convert object to primitive value"))
      else
        match getProp categoryOfNull (js "summary") result with
        | inl e => inl e
        | inr (Some (JStr _)) | inr (Some JNull) | inr None => inr tt
        | inr (Some _) =>
            inl (newError (js "result.summary?.substring is not a function"))
        end
  end.

(** [aiContent.match(/\{[\s\S]*\}/)]: from the first opening brace to the
    last closing brace after it. *)
Definition matchBraces (aiContent : jsstring) : option jsstring :=
  match dropWhile (fun c => negb (c =? 123)) aiContent with
  | [] => None
  | brace :: rest =>
      let last := lastIndexOf 125 rest in
      if (last <? 0)%Z then None
      else Some (brace :: firstn (Z.to_nat last + 1) rest)
  end.

(** "Parse JSON": the inner [try] and its [catch], which ignores the error
    caught. *)
Definition parseResult (parse : Parse) (aiContent : jsstring) : JsError + JValue :=
  let inner :=
    match parse aiContent with
    | inl e => inl e
    | inr result =>
        match logRaw result with
        | inl e => inl e
        | inr _ => inr result
        end
    end in
  match inner with
  | inr result => inr result
  | inl _ =>
      match matchBraces aiContent with
      | Some json => parse json
      | None => inl (newError (js "Invalid JSON response - no JSON found"))
      end
  end.

Section Validate.
Context `{CaseMapping}.

(** [validateCategory(v || '')] and [validateSummary(v || '', ...)] on a
    value of any type: what is not a non-empty string is treated like the
    empty string. *)
Definition validateCategoryOf (v : option JValue) : jsstring :=
  match v with
  | Some (JStr s) => AI.validateCategory s
  | _ => AI.validateCategory []
  end.

Definition validateSummaryOf (v : option JValue) (title : jsstring)
  (content : option jsstring) : jsstring :=
  match v with
  | Some (JStr s) => AI.validateSummary s title content
  | _ => AI.validateSummary [] title content
  end.

(** One pass through the [try] block for [model]. *)
Definition tryBlock (create : Create) (parse : Parse) (title : jsstring)
  (content : option jsstring) : AI.TryBlock :=
  fun model =>
    match create model with
    | inl e => inl e
    | inr responseContent =>
        let aiContent := orBraces responseContent in
        match parseResult parse aiContent with
        | inl e => inl e
        | inr result =>
            match getProp categoryOfNull (js "category") result with
            | inl e => inl e
            | inr category =>
                match getProp categoryOfNull (js "summary") result with
                | inl e => inl e
                | inr summary =>
                    inr {| AI.category := validateCategoryOf category;
                           AI.summary := validateSummaryOf summary title content |}
                end
            end
        end
    end.

End Validate.

(** What every analysis handed out by [analyzeContent] looks like. *)
Definition Presentable (analysis : AI.AIAnalysis) : Prop :=
  (2 <= length (AI.category analysis))%nat
  /\ Forall (fun c => c = 32 \/ isWordChar c = true \/ c = 45) (AI.category analysis)
  /\ AI.summary analysis <> []
  /\ (length (AI.summary analysis) <= 203)%nat.

End Completion.

(** ** [server/routes.ts]: the handlers *)

Module Handlers.

(** What a handler sends: [res.status(s).json({ error })], or [res.json] of
    one of the success objects (status 200). *)
Inductive Body :=
| ErrorBody (error : jsstring)
| ItemBody (item : Storage.Item)
| CategoriesBody (categories : list jsstring).

Record Response := {
  status : Z;
  body : Body
}.

Definition fail (status : Z) (error : jsstring) : Response :=
  {| status := status; body := ErrorBody error |}.

Definition ok (body : Body) : Response := {| status := 200; body := body |}.

(** The metadata of a web page, as [extractMetadata] returns them. *)
Record Metadata := {
  title : jsstring;
  description : option jsstring;
  imageUrl : option jsstring
}.

(** [x || undefined] on a [string | null]. *)
Definition orUndefined (x : option jsstring) : option jsstring :=
  match x with Some (c :: s) => Some (c :: s) | _ => None end.

(** [error.message?.includes(pat)]. *)
Definition mentions (error : JsError) (pat : jsstring) : bool :=
  match message error with Some m => includes pat m | None => false end.

(** [error.message || fallback]. *)
Definition messageOr (error : JsError) (fallback : jsstring) : jsstring :=
  match message error with Some (c :: m) => c :: m | _ => fallback end.

(** *** [POST /save-note] *)

Section SaveNote.
Context `{CaseMapping}.

(** [auth] is [req.user], [fields] the fields of [req.body]; [itemId] and
    [now] are the id and the time stamp that [createItem] generates. *)
Definition saveNote (auth : option Middleware.AuthUser) (fields : gmap jsstring JValue)
  (client apiKey : bool) (create : Completion.Create) (parse : Completion.Parse)
  (itemId : jsstring) (now : Z) (st : Storage.MemStorage)
  : Response * Storage.MemStorage :=
  match auth with
  | None => (fail 401 (js "Unauthorized"), st)
  | Some user =>
      match fields !! js "title" with
      | Some (JStr (c :: t)) =>
          let title := c :: t in
          match fields !! js "content" with
          | Some (JStr (d :: k)) =>
              let content := d :: k in
              let aiAnalysis :=
                fst (AI.analyzeContent client apiKey
                       (Completion.tryBlock create parse title (Some content))
                       title (Some content)) in
              let (item, st') :=
                Storage.createItem itemId now
                  {| Storage.id := [];
                     Storage.userId := Middleware.id user;
                     Storage.type := Storage.note;
                     Storage.title := title;
                     Storage.summary := AI.summary aiAnalysis;
                     Storage.category := AI.category aiAnalysis;
                     Storage.tags := [];
                     Storage.createdAt := 0;
                     Storage.userNotes := None;
                     Storage.url := None;
                     Storage.imageUrl := None;
                     Storage.content := Some content;
                     Storage.videoData := None |} st in
              (ok (ItemBody item), st')
          | _ => (fail 400 (js "Content is required"), st)
          end
      | _ => (fail 400 (js "Title is required"), st)
      end
  end.

End SaveNote.

(** *** [POST /save-link] *)

(** The [catch] block of the handler. *)
Definition linkError (error : JsError) : Response :=
  if mentions error (js "quota") || mentions error (js "billing") then
    fail 500 (js "OpenAI quota exceeded. Please check your billing or use a different API key. The app will use fallback categorization.")
  else if mentions error (js "model") || mentions error (js "gpt") then
    fail 500 (js "AI service error. Please check your OpenAI API key and model access.")
  else fail 500 (messageOr error (js "Failed to save link")).

Section SaveLink.
Context `{CaseMapping}.

(** [validUrl] tells whether [new URL(url)] returns; [extractMetadata] is the
    page look-up, with the error it may throw. *)
Definition saveLink (auth : option Middleware.AuthUser) (fields : gmap jsstring JValue)
  (validUrl : jsstring -> bool) (extractMetadata : jsstring -> JsError + Metadata)
  (client apiKey : bool) (create : Completion.Create) (parse : Completion.Parse)
  (itemId : jsstring) (now : Z) (st : Storage.MemStorage)
  : Response * Storage.MemStorage :=
  match auth with
  | None => (fail 401 (js "Unauthorized"), st)
  | Some user =>
      match fields !! js "url" with
      | Some (JStr (c :: u)) =>
          let url := c :: u in
          if negb (validUrl url) then (fail 400 (js "Invalid URL format"), st)
          else
            match extractMetadata url with
            | inl error => (linkError error, st)
            | inr metadata =>
                let aiAnalysis :=
                  fst (AI.analyzeContent client apiKey
                         (Completion.tryBlock create parse (title metadata)
                            (description metadata))
                         (title metadata) (description metadata)) in
                let (item, st') :=
                  Storage.createItem itemId now
                    {| Storage.id := [];
                       Storage.userId := Middleware.id user;
                       Storage.type := Storage.link;
                       Storage.title := title metadata;
                       Storage.summary := AI.summary aiAnalysis;
                       Storage.category := AI.category aiAnalysis;
                       Storage.tags := [];
                       Storage.createdAt := 0;
                       Storage.userNotes := None;
                       Storage.url := Some url;
                       Storage.imageUrl := orUndefined (imageUrl metadata);
                       Storage.content := None;
                       Storage.videoData := None |} st in
                (ok (ItemBody item), st')
            end
      | _ => (fail 400 (js "URL is required"), st)
      end
  end.

End SaveLink.

(** *** [POST /save-video] *)

Definition platformName (t : Video.PlatformType) : jsstring :=
  match t with
  | Video.tiktok => js "tiktok"
  | Video.instagram => js "instagram"
  | Video.youtube => js "youtube"
  end.

(** The [catch] block of the handler. *)
Definition videoError (error : JsError) : Response :=
  if mentions error (js "yt-dlp") || mentions error (js "extract") then
    fail 500 (js "Failed to extract audio from video. Make sure yt-dlp is installed and the video is accessible.")
  else if mentions error (js "Whisper") || mentions error (js "transcribe") then
    fail 500 (js "Failed to transcribe audio. Please check your OpenAI API key and Whisper access.")
  else if mentions error (js "quota") || mentions error (js "billing") then
    fail 500 (js "OpenAI quota exceeded. Please check your billing.")
  else fail 500 (messageOr error (js "Failed to save video")).

(** "Step 3": the AI-generated title, or the cleaned title of the page when
    the AI title is missing, ['Video'] or shorter than 5 characters.
    [metadata] is the outcome of [extractMetadata], whose errors the handler
    ignores. *)
Definition videoTitle (platform : Video.PlatformType) (aiTitle : jsstring)
  (metadata : JsError + Metadata) : jsstring :=
  let generated := orElse aiTitle (js "Video from " ++ platformName platform) in
  match metadata with
  | inr found =>
      if bool_decide (aiTitle = []) || bool_decide (aiTitle = js "Video")
         || (length aiTitle <? 5)%nat
      then match title found with
           | [] => generated
           | c :: t => Routes.cleanVideoTitle (c :: t)
           end
      else generated
  | inl _ => generated
  end.

Definition videoImage (metadata : JsError + Metadata) : option jsstring :=
  match metadata with
  | inr found => orUndefined (imageUrl found)
  | inl _ => None
  end.

Section SaveVideo.
Context `{CaseMapping}.

(** [validUrl] tells whether [new URL(url)] returns; [env] holds the
    collaborators of [processVideo], [apiKey] and [attempt] those of
    [transformVideoContent]; [extractMetadata] is the page look-up. *)
Definition saveVideo (auth : option Middleware.AuthUser) (fields : gmap jsstring JValue)
  (validUrl : jsstring -> bool) (env : Video.VideoEnv)
  (apiKey : option jsstring) (attempt : VideoAI.TryBlock)
  (extractMetadata : jsstring -> JsError + Metadata)
  (itemId : jsstring) (now : Z) (st : Storage.MemStorage)
  : Response * Storage.MemStorage :=
  match auth with
  | None => (fail 401 (js "Unauthorized"), st)
  | Some user =>
      match fields !! js "url" with
      | Some (JStr (c :: u)) =>
          let url := c :: u in
          if negb (validUrl url) then (fail 400 (js "Invalid URL format"), st)
          else
            let platform := Video.detectVideoPlatform url in
            if negb (Video.supported platform) then
              (fail 400 (js "Unsupported video platform. Supported: TikTok, Instagram Reels, YouTube Shorts"), st)
            else
              match fst (Video.processVideo env url) with
              | inl error => (videoError error, st)
              | inr transcript =>
                  if bool_decide (transcript = [])
                     || bool_decide (length (trim transcript) = 0%nat)
                  then (fail 500 (js "Failed to transcribe video audio"), st)
                  else
                    match fst (VideoAI.transformVideoContent apiKey attempt
                                 transcript url) with
                    | inl error => (videoError error, st)
                    | inr aiAnalysis =>
                        let metadata := extractMetadata url in
                        let (item, st') :=
                          Storage.createItem itemId now
                            {| Storage.id := [];
                               Storage.userId := Middleware.id user;
                               Storage.type := Storage.video;
                               Storage.title :=
                                 videoTitle (Video.type platform)
                                   (VideoAI.title aiAnalysis) metadata;
                               Storage.summary := VideoAI.summary aiAnalysis;
                               Storage.category := VideoAI.category aiAnalysis;
                               Storage.tags := [];
                               Storage.createdAt := 0;
                               Storage.userNotes := None;
                               Storage.url := Some url;
                               Storage.imageUrl := videoImage metadata;
                               Storage.content := None;
                               Storage.videoData :=
                                 Some {| Storage.platform := Video.type platform;
                                         Storage.transcript := Some transcript;
                                         Storage.structuredContent :=
                                           Some (VideoAI.structuredContent aiAnalysis) |}
                            |} st in
                        (ok (ItemBody item), st')
                    end
              end
      | _ => (fail 400 (js "URL is required"), st)
      end
  end.

End SaveVideo.

(** *** [GET /categories] *)

(** The comparison of [Array.prototype.sort] without a comparator: strings by
    their UTF-16 code units. *)
Fixpoint ltString (a b : jsstring) : bool :=
  match a, b with
  | _, [] => false
  | [], _ :: _ => true
  | c :: a', d :: b' => (c <? d) || ((c =? d) && ltString a' b')
  end.

Fixpoint insertString (x : jsstring) (l : list jsstring) : list jsstring :=
  match l with
  | [] => [x]
  | y :: l' => if ltString y x then y :: insertString x l' else x :: l
  end.

Definition sortStrings (l : list jsstring) : list jsstring :=
  foldr insertString [] l.

(** [Array.from(new Set(l))]: the first occurrence of each string. *)
Fixpoint distinct (seen l : list jsstring) : list jsstring :=
  match l with
  | [] => []
  | x :: l' =>
      if bool_decide (x ∈ seen) then distinct seen l'
      else x :: distinct (x :: seen) l'
  end.

(** [values] is the store's items in iteration order, as for
    [getItemsByUserId]. *)
Definition getCategories (auth : option Middleware.AuthUser) (values : list Storage.Item)
  : Response :=
  match auth with
  | None => fail 401 (js "Unauthorized")
  | Some user =>
      let items := Listing.getItemsByUserId values (Middleware.id user) in
      let categories := distinct [] (map Storage.category items) in
      ok (CategoriesBody (sortStrings categories))
  end.

(** Strictly increasing in the order of [ltString]. *)
Fixpoint Increasing (l : list jsstring) : Prop :=
  match l with
  | [] => True
  | x :: l' => Forall (fun y => ltString x y = true) l' /\ Increasing l'
  end.

End Handlers.

(** * Properties *)

(** ** The concrete engine *)

(** The concrete engine satisfies the interface. *)
Lemma lowerLatin1_ascii c : isAscii c -> lowerLatin1 c = lowerAscii c.
Proof.
  unfold isAscii, lowerLatin1, lowerAscii. intros Hc.
  destruct (isUpperAscii c); [reflexivity|].
  destruct (192 <=? c) eqn:E; [apply N.leb_le in E; lia|reflexivity].
Qed.

Lemma upperLatin1_ascii c : isAscii c -> upperLatin1 c = [upperAscii c].
Proof.
  unfold isAscii, upperLatin1, upperAscii. intros Hc.
  destruct (isLowerAscii c); [reflexivity|].
  destruct (c =? 181) eqn:E1; [apply N.eqb_eq in E1; lia|].
  destruct (c =? 223) eqn:E2; [apply N.eqb_eq in E2; lia|].
  destruct (224 <=? c) eqn:E3; [apply N.leb_le in E3; lia|].
  destruct (c =? 255) eqn:E4; [apply N.eqb_eq in E4; lia|reflexivity].
Qed.

#[export] Program Instance latin1Case : CaseMapping := {|
  toLowerCase := map lowerLatin1;
  toUpperCase := flat_map upperLatin1
|}.
Next Obligation.
  intros s Hs. induction Hs as [|c s Hc _ IH]; [reflexivity|].
  cbn [map]. rewrite lowerLatin1_ascii by exact Hc. now rewrite IH.
Qed.
Next Obligation.
  intros s Hs. induction Hs as [|c s Hc _ IH]; [reflexivity|].
  cbn [flat_map map]. rewrite upperLatin1_ascii by exact Hc. now rewrite IH.
Qed.

(** ** Facts about the string operations *)

Lemma startsWith_spec pat s :
  startsWith pat s = true <-> exists rest, s = pat ++ rest.
Proof.
  revert s. induction pat as [|p pat IH]; intros s; cbn.
  - split; [intros _; now exists s | reflexivity].
  - destruct s as [|c s].
    + split; [discriminate | intros [r Hr]; discriminate].
    + rewrite andb_true_iff, N.eqb_eq, IH. split.
      * intros [-> [r ->]]. now exists r.
      * intros [r Hr]. injection Hr as -> ->. split; [reflexivity | now exists r].
Qed.

Lemma includes_spec pat s : includes pat s = true <-> Substring pat s.
Proof.
  unfold Substring. induction s as [|c s IH].
  - cbn. rewrite orb_false_r, startsWith_spec. split.
    + intros [r Hr]. exists [], r. exact Hr.
    + intros (a & b & Hab). destruct a; [now exists b|discriminate].
  - cbn [includes]. rewrite orb_true_iff, IH, startsWith_spec. split.
    + intros [[r Hr] | (a & b & ->)].
      * exists [], r. exact Hr.
      * now exists (c :: a), b.
    + intros (a & b & Hab). destruct a as [|a0 a].
      * left. now exists b.
      * right. injection Hab as _ ->. now exists a, b.
Qed.

Lemma includes_false pat s : includes pat s = false <-> ~ Substring pat s.
Proof. rewrite <- includes_spec. now destruct (includes pat s). Qed.

Lemma isModelError_spec e : isModelError e = true <-> ModelClassError e.
Proof.
  unfold isModelError, ModelClassError.
  rewrite !orb_true_iff, !bool_decide_eq_true.
  destruct (message e) as [m|].
  - rewrite includes_spec. split.
    + intros [[Hm|Hs]|Hc]; [left; now exists m | now right; left | now right; right].
    + intros [(m' & Hm' & Hsub)|[Hs|Hc]];
        [injection Hm' as <-; now left; left | now left; right | now right].
  - split.
    + intros [[Hm|Hs]|Hc]; [discriminate | now right; left | now right; right].
    + intros [(m' & Hm' & _)|[Hs|Hc]];
        [discriminate | now left; right | now right].
Qed.

Lemma isModelError_false e : isModelError e = false <-> ~ ModelClassError e.
Proof. rewrite <- isModelError_spec. now destruct (isModelError e). Qed.

(** ** Platform classifier *)

Section PlatformClassifier.
Context `{CaseMapping}.

Lemma includes_mentions pat url :
  includes (js pat) (toLowerCase url) = true <-> mentions pat url.
Proof. apply includes_spec. Qed.

Lemma not_mentions pat url :
  ~ mentions pat url -> includes (js pat) (toLowerCase url) = false.
Proof. intros Hn. now apply includes_false. Qed.

(** A URL is rejected exactly when it matches none of the three patterns. *)
Lemma detectVideoPlatform_supported_iff url :
  Video.supported (Video.detectVideoPlatform url) = true
  <-> matchesTikTok url \/ matchesInstagramReels url \/ matchesYouTube url.
Proof.
  unfold Video.detectVideoPlatform, matchesTikTok, matchesInstagramReels,
    matchesYouTube.
  rewrite <- !includes_mentions.
  destruct (includes (js "tiktok.com") _), (includes (js "vm.tiktok.com") _),
    (includes (js "instagram.com") _), (includes (js "/reel/") _),
    (includes (js "/reels/") _), (includes (js "youtube.com") _),
    (includes (js "youtu.be") _), (includes (js "/shorts/") _),
    (includes (js "youtube.com/shorts/") _); cbn; intuition congruence.
Qed.

(** C8: a URL that matches none of the TikTok, Instagram Reels and YouTube
    patterns is classified [supported = false] with the default type
    [youtube]; the classifier is total, so it yields a verdict (and raises
    nothing) on every string. *)
Theorem detectVideoPlatform_unsupported :
  (forall url,
      ~ matchesTikTok url -> ~ matchesInstagramReels url -> ~ matchesYouTube url ->
      Video.detectVideoPlatform url
      = {| Video.type := Video.youtube; Video.supported := false |})
  /\ (forall url, exists verdict, Video.detectVideoPlatform url = verdict).
Proof.
  split; [|intros url; eexists; reflexivity].
  intros url Ht Hi Hy.
  unfold matchesTikTok, matchesInstagramReels, matchesYouTube in *.
  unfold Video.detectVideoPlatform.
  rewrite (not_mentions "tiktok.com"), (not_mentions "vm.tiktok.com") by tauto.
  rewrite (not_mentions "youtube.com"), (not_mentions "youtu.be") by tauto.
  cbn [orb].
  destruct (includes (js "instagram.com") (toLowerCase url)) eqn:Ei; [|reflexivity].
  apply includes_mentions in Ei.
  rewrite (not_mentions "/reel/"), (not_mentions "/reels/") by tauto.
  reflexivity.
Qed.

End PlatformClassifier.

Lemma example_url_no_match :
  ~ matchesTikTok (js "https://example.com/watch?v=1")
  /\ ~ matchesInstagramReels (js "https://example.com/watch?v=1")
  /\ ~ matchesYouTube (js "https://example.com/watch?v=1").
Proof.
  unfold matchesTikTok, matchesInstagramReels, matchesYouTube, mentions.
  rewrite <- !includes_spec. vm_compute. intuition discriminate.
Qed.

Lemma detectVideoPlatform_unsupported_witness :
  Video.detectVideoPlatform (js "https://example.com/watch?v=1")
  = {| Video.type := Video.youtube; Video.supported := false |}.
Proof.
  apply (proj1 detectVideoPlatform_unsupported);
    [exact (proj1 example_url_no_match)
    | exact (proj1 (proj2 example_url_no_match))
    | exact (proj2 (proj2 example_url_no_match))].
Defined.

Example detectVideoPlatform_examples :
  Video.detectVideoPlatform (js "https://www.TikTok.com/@u/video/1")
  = {| Video.type := Video.tiktok; Video.supported := true |}
  /\ Video.detectVideoPlatform (js "https://www.instagram.com/reel/abc/")
     = {| Video.type := Video.instagram; Video.supported := true |}
  /\ Video.detectVideoPlatform (js "https://www.instagram.com/p/abc/")
     = {| Video.type := Video.youtube; Video.supported := false |}
  /\ Video.detectVideoPlatform (js "https://youtu.be/abc")
     = {| Video.type := Video.youtube; Video.supported := true |}.
Proof. vm_compute. repeat split. Qed.

(** ** Provenance label of the user prompt *)

Lemma isFromCaptions_spec transcript :
  VideoAI.isFromCaptions transcript = true
  <-> transcript <> []
      /\ ~ Substring (js "WEBVTT") transcript
      /\ ~ Substring (js "-->") transcript.
Proof.
  unfold VideoAI.isFromCaptions.
  rewrite !andb_true_iff, !negb_true_iff, !includes_false, Nat.ltb_lt.
  assert (Hlen : (0 < length transcript)%nat <-> transcript <> []).
  { destruct transcript; cbn [length]; split; intros Hx;
      [lia | now contradiction Hx | discriminate | lia]. }
  rewrite Hlen. tauto.
Qed.

(** C9: the label embedded in the user prompt is "captions/subtitles (high
    quality)" exactly when the transcript is non-empty and contains neither
    "WEBVTT" nor "-->"; in every other case, the empty transcript included, it
    is "audio transcription".  The prompt is the fixed text below with the
    label so selected in its two places (after "This transcript is from" and
    after "Since this is"), the transcript between double quotes and the URL. *)
Theorem transcriptSource_label transcript url :
  let clean :=
    transcript <> []
    /\ ~ Substring (js "WEBVTT") transcript
    /\ ~ Substring (js "-->") transcript in
  let label := VideoAI.transcriptSource transcript in
  let nl := [10] in
  (label = captionsLabel <-> clean)
  /\ (label = audioLabel <-> ~ clean)
  /\ VideoAI.transcriptSource [] = audioLabel
  /\ VideoAI.userPrompt transcript url
     = js "Analyze this video transcript and extract ALL structured content with maximum detail." ++ nl
       ++ nl
       ++ js "IMPORTANT: This transcript is from " ++ label
       ++ js ", which means it contains the actual text content from the video. Prioritize this content over any assumptions." ++ nl
       ++ nl
       ++ js "Transcript:" ++ nl
       ++ dquote ++ transcript ++ dquote ++ nl
       ++ nl
       ++ js "URL: " ++ url ++ nl
       ++ nl
       ++ js "INSTRUCTIONS:" ++ nl
       ++ js "1. Carefully read the ENTIRE transcript - this is the primary source of information" ++ nl
       ++ js "2. Since this is " ++ label
       ++ js ", trust the text content as it represents what was actually said/shown" ++ nl
       ++ js "3. Generate a concise, properly formatted title (max 60 chars, Title Case, no emojis) based on the video content" ++ nl
       ++ js "4. Identify the content type (recipe, workout, tutorial, or general)" ++ nl
       ++ js "5. For RECIPES: Extract EVERY ingredient with full quantities and units, ALL cooking steps with details (temperatures, times, techniques), and any metadata (servings, prep time, cook time)" ++ nl
       ++ js "6. Be thorough - include all details mentioned, even if they seem minor" ++ nl
       ++ js "7. Preserve the exact wording for measurements and instructions when possible" ++ nl
       ++ js "8. The transcript text is authoritative - use it as the primary source" ++ nl
       ++ js "9. Return complete, detailed JSON with all available information including the title" ++ nl
       ++ nl
       ++ js "Return JSON with the appropriate structure based on the content type.".
Proof.
  cbv zeta. rewrite <- isFromCaptions_spec.
  split; [|split; [|split; [reflexivity|reflexivity]]].
  all: unfold VideoAI.transcriptSource; split.
  - destruct (VideoAI.isFromCaptions transcript); [reflexivity|discriminate].
  - intros ->. reflexivity.
  - destruct (VideoAI.isFromCaptions transcript); [discriminate|intros _ Hc; discriminate].
  - destruct (VideoAI.isFromCaptions transcript); [intros Hc; now contradiction Hc|reflexivity].
Qed.

Example transcriptSource_examples :
  VideoAI.transcriptSource (js "Preheat oven to 350F.") = captionsLabel
  /\ VideoAI.transcriptSource (js "WEBVTT 00:01 hello") = audioLabel
  /\ VideoAI.transcriptSource (js "00:01 --> 00:02 hello") = audioLabel.
Proof. vm_compute. repeat split. Qed.

(** ** Ownership in the in-memory store *)

Section Ownership.
Implicit Types (st : Storage.MemStorage) (item : Storage.Item).

Lemma getItemById_state itemId uid st :
  snd (Storage.getItemById itemId uid st) = st.
Proof.
  unfold Storage.getItemById.
  destruct (Storage.items st !! itemId) as [item|]; [|reflexivity].
  now destruct (negb _).
Qed.

Lemma updateItem_some itemId uid updates st updated st' :
  Storage.updateItem itemId uid updates st = (Some updated, st') ->
  exists item,
    Storage.items st !! itemId = Some item
    /\ Storage.userId item = uid
    /\ Storage.id updated = Storage.id item
    /\ Storage.userId updated = Storage.userId item
    /\ Storage.createdAt updated = Storage.createdAt item
    /\ Storage.items st' = <[itemId := updated]> (Storage.items st).
Proof.
  unfold Storage.updateItem.
  destruct (Storage.items st !! itemId) as [item|]; [|discriminate].
  destruct (bool_decide (Storage.userId item = uid)) eqn:E; cbn [negb];
    [|discriminate].
  apply bool_decide_eq_true in E.
  intros [= <- <-]. exists item. now repeat split.
Qed.

(** C10: an item whose [userId] differs from the caller's is invisible to
    [getItemById], [updateItem] and [deleteItem] (they answer [null], [null]
    and [false]) and the store is left as it was; and a successful
    [updateItem] keeps the stored item's [id], [userId] and [createdAt]
    whatever the updates contain. *)
Theorem store_enforces_ownership :
  (forall itemId uid updates st item,
      Storage.items st !! itemId = Some item ->
      Storage.userId item <> uid ->
      Storage.getItemById itemId uid st = (None, st)
      /\ Storage.updateItem itemId uid updates st = (None, st)
      /\ Storage.deleteItem itemId uid st = (false, st))
  /\ (forall itemId uid updates st updated st',
         Storage.updateItem itemId uid updates st = (Some updated, st') ->
         exists item,
           Storage.items st !! itemId = Some item
           /\ Storage.id updated = Storage.id item
           /\ Storage.userId updated = Storage.userId item
           /\ Storage.createdAt updated = Storage.createdAt item).
Proof.
  split.
  - intros itemId uid updates st item Hget Hne.
    unfold Storage.getItemById, Storage.updateItem, Storage.deleteItem.
    rewrite Hget.
    rewrite (bool_decide_eq_false_2 _ Hne). cbn [negb]. now repeat split.
  - intros itemId uid updates st updated st' Hupd.
    destruct (updateItem_some _ _ _ _ _ _ Hupd) as (item & ? & ? & ? & ? & ? & ?).
    exists item. now repeat split.
Qed.

End Ownership.

Lemma store_enforces_ownership_witness :
  (Storage.getItemById (js "item-1") (js "mallory") Samples.store1
   = (None, Samples.store1)
   /\ Storage.updateItem (js "item-1") (js "mallory") Samples.hijack Samples.store1
      = (None, Samples.store1)
   /\ Storage.deleteItem (js "item-1") (js "mallory") Samples.store1
      = (false, Samples.store1))
  /\ (exists updated st',
         Storage.updateItem (js "item-1") (js "alice") Samples.hijack Samples.store1
         = (Some updated, st')
         /\ Storage.id updated = js "item-1"
         /\ Storage.userId updated = js "alice"
         /\ Storage.createdAt updated = 1700000000000%Z
         /\ Storage.title updated = js "Mine now").
Proof.
  split.
  - apply (proj1 store_enforces_ownership (js "item-1") (js "mallory")
             Samples.hijack Samples.store1 Samples.note1).
    + reflexivity.
    + vm_compute. discriminate.
  - destruct (Storage.updateItem (js "item-1") (js "alice") Samples.hijack
                Samples.store1) as [[updated|] st'] eqn:E;
      [|vm_compute in E; discriminate].
    exists updated, st'. split; [reflexivity|].
    destruct (proj2 store_enforces_ownership _ _ _ _ _ _ E)
      as (item & Hitem & Hid & Huid & Hcreated).
    assert (Hl : Storage.items Samples.store1 !! js "item-1" = Some Samples.note1)
      by (vm_compute; reflexivity).
    rewrite Hl in Hitem. injection Hitem as <-.
    rewrite Hid, Huid, Hcreated.
    repeat split; try reflexivity.
    vm_compute in E. now injection E as <- _.
Defined.

(** Other users' items are untouched by a successful update or delete. *)
Lemma updateItem_other itemId uid updates st updated st' other :
  Storage.updateItem itemId uid updates st = (Some updated, st') ->
  other <> itemId ->
  Storage.items st' !! other = Storage.items st !! other.
Proof.
  intros Hupd Hne.
  destruct (updateItem_some _ _ _ _ _ _ Hupd) as (item & _ & _ & _ & _ & _ & ->).
  now rewrite lookup_insert_ne.
Qed.

(** ** Transcript acquisition *)

Lemma usableCaptions_some caps c :
  Video.usableCaptions caps = Some c <-> caps = Some c /\ (50 < length c)%nat.
Proof.
  unfold Video.usableCaptions. destruct caps as [c'|].
  - destruct (negb (bool_decide (c' = []))) eqn:E1;
      destruct (50 <? length c')%nat eqn:E2; cbn [andb].
    + apply Nat.ltb_lt in E2. split.
      * intros [= <-]. now split.
      * intros [[= <-] _]. reflexivity.
    + apply Nat.ltb_ge in E2. split; [discriminate|]. intros [[= <-] Hl]. lia.
    + apply negb_false_iff, bool_decide_eq_true in E1. subst c'.
      split; [discriminate|]. intros [[= <-] Hl]. cbn in Hl. lia.
    + apply Nat.ltb_ge in E2. split; [discriminate|]. intros [[= <-] Hl]. lia.
  - split; [discriminate|]. intros [Hc _]. discriminate.
Qed.

Lemma usableCaptions_none caps :
  Video.usableCaptions caps = None
  <-> (forall c, caps = Some c -> (length c <= 50)%nat).
Proof.
  destruct (Video.usableCaptions caps) as [c|] eqn:E.
  - apply usableCaptions_some in E as [-> Hl]. split; [discriminate|].
    intros Hall. specialize (Hall c eq_refl). lia.
  - split; [|reflexivity]. intros _ c Hc.
    destruct (Nat.le_gt_cases (length c) 50) as [Hle|Hgt]; [exact Hle|].
    assert (Video.usableCaptions caps = Some c) as Hs
      by (apply usableCaptions_some; now split).
    congruence.
Qed.

(** [extractCaptions] itself never hands out a text of 50 characters or
    fewer. *)
Lemma extractCaptions_long probe c :
  Video.extractCaptions probe = Some c -> (50 < length c)%nat.
Proof.
  unfold Video.extractCaptions.
  destruct probe as [|timestamp dir]; [discriminate|].
  destruct (List.filter _ dir) as [|first files]; [discriminate|].
  cbv zeta.
  set (subtitleFile := match find _ _ with Some f => f | None => first end).
  destruct (endsWith (js ".vtt") (Video.fileName subtitleFile)).
  - destruct (50 <? length (Video.captionText (Video.vttTextLines _)))%nat eqn:E.
    + intros [= <-]. now apply Nat.ltb_lt.
    + destruct (endsWith (js ".srt") (Video.fileName subtitleFile)); [|discriminate].
      destruct (50 <? length (Video.captionText (Video.srtTextLines _)))%nat eqn:E';
        [|discriminate].
      intros [= <-]. now apply Nat.ltb_lt.
  - destruct (endsWith (js ".srt") (Video.fileName subtitleFile)); [|discriminate].
    destruct (50 <? length (Video.captionText (Video.srtTextLines _)))%nat eqn:E';
      [|discriminate].
    intros [= <-]. now apply Nat.ltb_lt.
Qed.

Example extractCaptions_vtt :
  Video.extractCaptions (Video.ProbeListing (js "1700000000000s") [Samples.vttFile])
  = Some (js "Preheat the oven to 350 degrees. Mix two cups of flour with sugar.")
  /\ Video.extractCaptions (Video.ProbeListing (js "1700000000000s") []) = None
  /\ Video.extractCaptions Video.ProbeFailed = None.
Proof. vm_compute. repeat split. Qed.

Section Acquirer.
Context `{CaseMapping}.

(** The audio path: extraction, then transcription. *)
Lemma processVideo_audio_path env url :
  Video.supported (Video.detectVideoPlatform url) = true ->
  Video.usableCaptions (Video.captions env url) = None ->
  Video.processVideo env url
  = match Video.audio env url with
    | inl e => (inl e, [Video.CaptionStage; Video.AudioStage])
    | inr (audioBuffer, audioFormat) =>
        (Video.transcribe env audioBuffer audioFormat,
         [Video.CaptionStage; Video.AudioStage; Video.TranscribeStage])
    end.
Proof.
  intros Hs Hu. unfold Video.processVideo. rewrite Hs, Hu. reflexivity.
Qed.

(** C3: when caption extraction yields [null] or a text of at most 50
    characters, [processVideo] goes on to audio extraction and transcription
    and its outcome is that of the audio path, never the caption text; a
    transcript is returned straight from the captions only when it is longer
    than 50 characters. *)
Theorem short_captions_go_to_audio env url :
  (Video.supported (Video.detectVideoPlatform url) = true ->
   (forall c, Video.captions env url = Some c -> (length c <= 50)%nat) ->
   Video.processVideo env url
   = match Video.audio env url with
     | inl e => (inl e, [Video.CaptionStage; Video.AudioStage])
     | inr (audioBuffer, audioFormat) =>
         (Video.transcribe env audioBuffer audioFormat,
          [Video.CaptionStage; Video.AudioStage; Video.TranscribeStage])
     end)
  /\ (forall t stages,
         Video.processVideo env url = (inr t, stages) ->
         ~ In Video.AudioStage stages ->
         Video.captions env url = Some t /\ (50 < length t)%nat).
Proof.
  split.
  - intros Hs Hshort. apply processVideo_audio_path; [exact Hs|].
    now apply usableCaptions_none.
  - intros t stages. unfold Video.processVideo.
    destruct (Video.supported (Video.detectVideoPlatform url)); cbn [negb];
      [|discriminate].
    destruct (Video.usableCaptions (Video.captions env url)) as [c|] eqn:E.
    + intros [= <- <-] _. now apply usableCaptions_some.
    + destruct (Video.audio env url) as [e|[b f]].
      * discriminate.
      * intros [= _ <-] Hn. contradiction Hn. cbn. tauto.
Qed.

(** A usable caption text is returned as it is, and no audio is fetched. *)
Lemma processVideo_caption_path env url c :
  Video.supported (Video.detectVideoPlatform url) = true ->
  Video.captions env url = Some c -> (50 < length c)%nat ->
  Video.processVideo env url = (inr c, [Video.CaptionStage]).
Proof.
  intros Hs Hc Hl. unfold Video.processVideo. rewrite Hs. cbn [negb].
  assert (Video.usableCaptions (Video.captions env url) = Some c) as ->
    by (apply usableCaptions_some; now split).
  reflexivity.
Qed.

(** With captions coming from [extractCaptions], its answer alone decides the
    path: whatever it returns is long enough to be used. *)
Lemma processVideo_from_probe env url probe :
  Video.supported (Video.detectVideoPlatform url) = true ->
  Video.captions env url = Video.extractCaptions probe ->
  Video.processVideo env url
  = match Video.extractCaptions probe with
    | Some c => (inr c, [Video.CaptionStage])
    | None =>
        match Video.audio env url with
        | inl e => (inl e, [Video.CaptionStage; Video.AudioStage])
        | inr (audioBuffer, audioFormat) =>
            (Video.transcribe env audioBuffer audioFormat,
             [Video.CaptionStage; Video.AudioStage; Video.TranscribeStage])
        end
    end.
Proof.
  intros Hs Hc. destruct (Video.extractCaptions probe) as [c|] eqn:E.
  - apply processVideo_caption_path; [exact Hs|exact Hc|].
    now apply (extractCaptions_long probe).
  - apply processVideo_audio_path; [exact Hs|]. now rewrite Hc.
Qed.

(** An unsupported URL is rejected before any stage runs. *)
Lemma processVideo_unsupported env url :
  Video.supported (Video.detectVideoPlatform url) = false ->
  Video.processVideo env url
  = (inl (newError (js "Unsupported video platform: " ++ url)), []).
Proof. intros Hs. unfold Video.processVideo. now rewrite Hs. Qed.

End Acquirer.

Lemma short_captions_go_to_audio_witness :
  Video.processVideo Samples.shortCaptionEnv Samples.reelUrl
  = (inr (js "spoken words"),
     [Video.CaptionStage; Video.AudioStage; Video.TranscribeStage]).
Proof.
  assert (Hs : Video.supported (Video.detectVideoPlatform Samples.reelUrl) = true)
    by (vm_compute; reflexivity).
  apply (proj1 (short_captions_go_to_audio Samples.shortCaptionEnv Samples.reelUrl));
    [exact Hs|].
  intros c [= <-]. vm_compute. lia.
Defined.

(** ** The model loops and the terminal fallback *)

Lemma length_dropWhile p s : (length (dropWhile p s) <= length s)%nat.
Proof.
  induction s as [|c s IH]; cbn; [lia|]. destruct (p c); cbn; lia.
Qed.

Lemma length_takeWhile p s : (length (takeWhile p s) <= length s)%nat.
Proof.
  induction s as [|c s IH]; cbn; [lia|]. destruct (p c); cbn; lia.
Qed.

Lemma length_trimStart s : (length (trimStart s) <= length s)%nat.
Proof. apply length_dropWhile. Qed.

Lemma length_trimEnd s : (length (trimEnd s) <= length s)%nat.
Proof.
  unfold trimEnd. rewrite length_rev.
  etransitivity; [apply length_dropWhile|]. now rewrite length_rev.
Qed.

Lemma length_trim s : (length (trim s) <= length s)%nat.
Proof.
  unfold trim. etransitivity; [apply length_trimEnd | apply length_trimStart].
Qed.

Lemma length_substring0 n s : (length (substring0 n s) <= n)%nat.
Proof. unfold substring0. rewrite length_firstn. lia. Qed.

Lemma substring0_all n s : (length s <= n)%nat -> substring0 n s = s.
Proof. apply firstn_all2. Qed.

(** [s.split(c)[0]] is the text before the first [c]. *)
Lemma hd_splitOn c s : hd [] (splitOn c s) = textBefore c s.
Proof.
  unfold textBefore. induction s as [|d s IH]; [reflexivity|].
  cbn. destruct (d =? c); cbn; [reflexivity|].
  destruct (splitOn c s) as [|w ws]; cbn in *; now rewrite <- IH.
Qed.

Lemma length_orElse a b n :
  (length a <= n)%nat -> (length b <= n)%nat -> (length (orElse a b) <= n)%nat.
Proof. destruct a; cbn; intros; [assumption|lia]. Qed.

Lemma terminalFallback_title transcript :
  VideoAI.title (VideoAI.terminalFallback transcript)
  = trimmedFirstSentence transcript.
Proof.
  unfold VideoAI.terminalFallback, trimmedFirstSentence. cbn [VideoAI.title].
  rewrite hd_splitOn. apply substring0_all.
  apply length_orElse with (n := 60%nat); [|vm_compute; lia].
  etransitivity; [apply length_trim|].
  etransitivity; [apply length_takeWhile|].
  etransitivity; [apply length_substring0|]. lia.
Qed.

Section VideoLoop.
Variables (attempt : VideoAI.TryBlock) (prompt : jsstring).

Let request (m : jsstring) : VideoAI.ChatRequest :=
  {| VideoAI.model := m; VideoAI.userContent := prompt; VideoAI.max_tokens := 3000 |}.

(** Model-class failures all along: every model is tried, none returns. *)
Lemma video_tryModels_exhausted ms :
  (forall m, In m ms -> exists e, attempt (request m) = inl e /\ ModelClassError e) ->
  VideoAI.tryModels attempt prompt ms = (None, ms).
Proof.
  induction ms as [|m ms IH]; intros Hall; [reflexivity|].
  cbn [VideoAI.tryModels].
  destruct (Hall m (or_introl eq_refl)) as (e & He & Hm).
  fold (request m). rewrite He.
  apply isModelError_spec in Hm. rewrite Hm.
  rewrite IH; [reflexivity|]. intros m' Hin. apply Hall. now right.
Qed.

(** The first failure outside the model class ends the loop there. *)
Lemma video_tryModels_abort before m after e :
  (forall m', In m' before ->
     exists e', attempt (request m') = inl e' /\ ModelClassError e') ->
  attempt (request m) = inl e -> ~ ModelClassError e ->
  VideoAI.tryModels attempt prompt (before ++ m :: after) = (None, before ++ [m]).
Proof.
  intros Hall He Hn. induction before as [|b before IH].
  - cbn. fold (request m). rewrite He.
    apply isModelError_false in Hn. now rewrite Hn.
  - cbn [app VideoAI.tryModels].
    destruct (Hall b (or_introl eq_refl)) as (e' & He' & Hm).
    fold (request b). rewrite He'.
    apply isModelError_spec in Hm. rewrite Hm.
    rewrite IH; [reflexivity|]. intros m' Hin. apply Hall. now right.
Qed.

End VideoLoop.

Section AiLoop.
Variable attempt : AI.TryBlock.

Lemma ai_tryModels_abort before m after e :
  (forall m', In m' before -> exists e', attempt m' = inl e' /\ ModelClassError e') ->
  attempt m = inl e -> ~ ModelClassError e ->
  AI.tryModels attempt (before ++ m :: after) = (None, before ++ [m]).
Proof.
  intros Hall He Hn. induction before as [|b before IH].
  - cbn. rewrite He. apply isModelError_false in Hn. now rewrite Hn.
  - cbn [app AI.tryModels].
    destruct (Hall b (or_introl eq_refl)) as (e' & He' & Hm).
    rewrite He'. apply isModelError_spec in Hm. rewrite Hm.
    rewrite IH; [reflexivity|]. intros m' Hin. apply Hall. now right.
Qed.

End AiLoop.

(** C1 (amended): when every model of the list fails with a model-class
    error, [transformVideoContent] returns, after trying them all, the
    terminal fallback: type "general", no detail block, category "General",
    summary the first 200 characters of the transcript, and title the text
    before the first period in the first 50 characters of the transcript with
    surrounding white space trimmed off, or "Video" when that trimmed text is
    empty. *)
Theorem all_models_missing_gives_fallback attempt key transcript url :
  key <> [] ->
  (forall m, In m VideoAI.models ->
     exists e, attempt (videoRequest transcript url m) = inl e /\ ModelClassError e) ->
  exists r,
    VideoAI.transformVideoContent (Some key) attempt transcript url
    = (inr r, VideoAI.models)
    /\ VideoAI.type (VideoAI.structuredContent r) = VideoAI.general
    /\ VideoAI.recipeBlock (VideoAI.structuredContent r) = None
    /\ VideoAI.workoutBlock (VideoAI.structuredContent r) = None
    /\ VideoAI.tutorialBlock (VideoAI.structuredContent r) = None
    /\ VideoAI.category r = js "General"
    /\ VideoAI.summary r = substring0 200 transcript
    /\ VideoAI.title r = trimmedFirstSentence transcript.
Proof.
  intros Hkey Hall. exists (VideoAI.terminalFallback transcript).
  split.
  - unfold VideoAI.transformVideoContent.
    destruct key as [|k key]; [now contradiction Hkey|].
    rewrite video_tryModels_exhausted; [reflexivity|exact Hall].
  - repeat split. apply terminalFallback_title.
Qed.

Lemma all_models_missing_gives_fallback_witness :
  exists r,
    VideoAI.transformVideoContent Samples.apiKey Samples.videoAllMissing
      (js "Preheat oven to 350F. Mix 2 cups flour.") Samples.reelUrl
    = (inr r, VideoAI.models)
    /\ VideoAI.category r = js "General"
    /\ VideoAI.title r = js "Preheat oven to 350F".
Proof.
  destruct (all_models_missing_gives_fallback Samples.videoAllMissing
              (js "sk-test") (js "Preheat oven to 350F. Mix 2 cups flour.")
              Samples.reelUrl)
    as (r & Hr & _ & _ & _ & _ & Hc & _ & Ht).
  - vm_compute. discriminate.
  - intros m _. exists Samples.modelNotFound. split; [reflexivity|].
    right. left. reflexivity.
  - exists r. split; [exact Hr|]. split; [exact Hc|].
    rewrite Ht. vm_compute. reflexivity.
Defined.

(** C1 as worded does not hold: the title is trimmed, so for a transcript
    that begins with a space it is not the text before the first period. *)
Lemma fallback_title_untrimmed_counterexample :
  exists r,
    VideoAI.transformVideoContent Samples.apiKey Samples.videoAllMissing
      (js " Hello. World") Samples.reelUrl
    = (inr r, VideoAI.models)
    /\ VideoAI.title r = js "Hello"
    /\ untrimmedFirstSentence (js " Hello. World") = js " Hello"
    /\ VideoAI.title r <> untrimmedFirstSentence (js " Hello. World").
Proof.
  eexists. split; [vm_compute; reflexivity|].
  vm_compute. repeat split. discriminate.
Qed.

(** C2: in both model loops, the first attempt that fails with an error
    outside the model class ends the loop: no later model is tried and the
    function returns the terminal fallback.  When that attempt is the first
    one, exactly one chat-completion call has been made. *)
Theorem non_model_error_stops_the_loop :
  (forall attempt key transcript url before m after e,
      key <> [] ->
      VideoAI.models = before ++ m :: after ->
      (forall m', In m' before ->
         exists e', attempt (videoRequest transcript url m') = inl e'
                    /\ ModelClassError e') ->
      attempt (videoRequest transcript url m) = inl e ->
      ~ ModelClassError e ->
      VideoAI.transformVideoContent (Some key) attempt transcript url
      = (inr (VideoAI.terminalFallback transcript), before ++ [m]))
  /\ (forall attempt title content before m after e,
         AI.models = before ++ m :: after ->
         (forall m', In m' before ->
            exists e', attempt m' = inl e' /\ ModelClassError e') ->
         attempt m = inl e ->
         ~ ModelClassError e ->
         AI.analyzeContent true true attempt title content
         = (AI.fallbackAnalysis title content, before ++ [m]))
  /\ (forall attempt key transcript url e,
         key <> [] ->
         attempt (videoRequest transcript url (js "gpt-4o-mini")) = inl e ->
         ~ ModelClassError e ->
         length (snd (VideoAI.transformVideoContent (Some key) attempt transcript url))
         = 1%nat)
  /\ (forall attempt title content e,
         attempt (js "gpt-4o-mini") = inl e ->
         ~ ModelClassError e ->
         length (snd (AI.analyzeContent true true attempt title content)) = 1%nat).
Proof.
  assert (Hvideo : forall attempt key transcript url before m after e,
      key <> [] ->
      VideoAI.models = before ++ m :: after ->
      (forall m', In m' before ->
         exists e', attempt (videoRequest transcript url m') = inl e'
                    /\ ModelClassError e') ->
      attempt (videoRequest transcript url m) = inl e ->
      ~ ModelClassError e ->
      VideoAI.transformVideoContent (Some key) attempt transcript url
      = (inr (VideoAI.terminalFallback transcript), before ++ [m])).
  { intros attempt key transcript url before m after e Hkey Hms Hall He Hn.
    unfold VideoAI.transformVideoContent.
    destruct key as [|k key]; [now contradiction Hkey|].
    rewrite Hms.
    rewrite (video_tryModels_abort attempt _ before m after e Hall He Hn).
    reflexivity. }
  assert (Hai : forall attempt title content before m after e,
         AI.models = before ++ m :: after ->
         (forall m', In m' before ->
            exists e', attempt m' = inl e' /\ ModelClassError e') ->
         attempt m = inl e ->
         ~ ModelClassError e ->
         AI.analyzeContent true true attempt title content
         = (AI.fallbackAnalysis title content, before ++ [m])).
  { intros attempt title content before m after e Hms Hall He Hn.
    unfold AI.analyzeContent. cbn [negb]. rewrite Hms.
    rewrite (ai_tryModels_abort attempt before m after e Hall He Hn).
    reflexivity. }
  split; [exact Hvideo|]. split; [exact Hai|]. split.
  - intros attempt key transcript url e Hkey He Hn.
    rewrite (Hvideo attempt key transcript url [] (js "gpt-4o-mini")
               [js "gpt-4-turbo"; js "gpt-3.5-turbo"] e Hkey eq_refl);
      [reflexivity| intros m' [] | exact He | exact Hn].
  - intros attempt title content e He Hn.
    rewrite (Hai attempt title content [] (js "gpt-4o-mini")
               [js "gpt-4-turbo"; js "gpt-3.5-turbo"] e eq_refl);
      [reflexivity| intros m' [] | exact He | exact Hn].
Qed.

Lemma rateLimited_not_model_class : ~ ModelClassError Samples.rateLimited.
Proof. apply isModelError_false. vm_compute. reflexivity. Qed.

Lemma non_model_error_stops_the_loop_witness :
  VideoAI.transformVideoContent Samples.apiKey Samples.videoRateLimited
    (js "Preheat oven to 350F. Mix 2 cups flour.") Samples.reelUrl
  = (inr (VideoAI.terminalFallback (js "Preheat oven to 350F. Mix 2 cups flour.")),
     [js "gpt-4o-mini"])
  /\ AI.analyzeContent true true Samples.aiRateLimited (js "A title") None
     = (AI.fallbackAnalysis (js "A title") None, [js "gpt-4o-mini"]).
Proof.
  split.
  - apply (proj1 non_model_error_stops_the_loop Samples.videoRateLimited
             (js "sk-test") _ _ [] (js "gpt-4o-mini")
             [js "gpt-4-turbo"; js "gpt-3.5-turbo"] Samples.rateLimited).
    + vm_compute. discriminate.
    + reflexivity.
    + intros m' [].
    + reflexivity.
    + exact rateLimited_not_model_class.
  - apply (proj1 (proj2 non_model_error_stops_the_loop) Samples.aiRateLimited
             _ _ [] (js "gpt-4o-mini")
             [js "gpt-4-turbo"; js "gpt-3.5-turbo"] Samples.rateLimited).
    + reflexivity.
    + intros m' [].
    + reflexivity.
    + exact rateLimited_not_model_class.
Defined.

(** ** Category normalisation *)

Ltac char_facts :=
  cbv beta delta [isPlain isWordChar isUpperAscii isLowerAscii isDigit
    isWhiteSpace isAscii upperAscii lowerAscii AI.disallowed] in *;
  repeat match goal with
    | |- context [if ?b then _ else _] => destruct b eqn:?
    end;
  rewrite ?negb_true_iff, ?negb_false_iff, ?orb_true_iff, ?orb_false_iff,
    ?andb_true_iff, ?andb_false_iff, ?N.leb_le, ?N.leb_gt, ?N.eqb_eq, ?N.eqb_neq in *;
  try lia.

Lemma plain_ascii c : isPlain c = true -> isAscii c.
Proof. intros Hc. char_facts. Qed.

Lemma plain_upper c : isPlain c = true -> isPlain (upperAscii c) = true.
Proof. intros Hc. char_facts. Qed.

Lemma plain_lower c : isPlain c = true -> isPlain (lowerAscii c) = true.
Proof. intros Hc. char_facts. Qed.

Lemma allowed_cases c :
  AI.disallowed c = false -> isWhiteSpace c = true \/ isPlain c = true.
Proof.
  unfold AI.disallowed, isPlain. rewrite negb_false_iff, !orb_true_iff. tauto.
Qed.


Lemma removeChars_allowed s :
  PlainText (removeChars AI.disallowed s).
Proof.
  unfold PlainText, removeChars. apply List.Forall_forall. intros c Hin.
  apply filter_In in Hin as [_ Hc]. apply negb_true_iff in Hc.
  now apply allowed_cases.
Qed.

Lemma splitWs_go_plain inRun cur s :
  PlainWord cur -> PlainText s ->
  Forall PlainWord (splitWs_go inRun cur s).
Proof.
  intros Hcur Hs. revert inRun cur Hcur.
  induction Hs as [|c s Hc _ IH]; intros inRun cur Hcur; cbn.
  - constructor; [exact Hcur|constructor].
  - destruct (isWhiteSpace c) eqn:Ew.
    + destruct inRun.
      * now apply IH.
      * constructor; [exact Hcur|]. apply IH. constructor.
    + destruct Hc as [Hc|Hc]; [congruence|].
      apply IH. apply Forall_app. split; [exact Hcur|].
      constructor; [exact Hc|constructor].
Qed.

Lemma splitWs_plain s : PlainText s -> Forall PlainWord (splitWs s).
Proof. apply splitWs_go_plain. constructor. Qed.

Lemma join_plain parts :
  Forall PlainWord parts -> SpacedText (join (js " ") parts).
Proof.
  assert (Hw : forall w, PlainWord w -> SpacedText w).
  { intros w Hw. unfold SpacedText. eapply List.Forall_impl; [|exact Hw].
    intros c Hc. now right. }
  induction 1 as [|w parts Hpw Hparts IH]; [constructor|].
  cbn [join]. destruct parts as [|w' parts]; [now apply Hw|].
  apply Forall_app. split; [now apply Hw|].
  apply Forall_app. split; [|exact IH].
  constructor; [left; reflexivity|constructor].
Qed.

Lemma spaced_plainText s : SpacedText s -> PlainText s.
Proof.
  intros Hs. eapply List.Forall_impl; [|exact Hs].
  intros c [->|Hc]; [left; reflexivity|now right].
Qed.

Lemma spaced_ascii s : SpacedText s -> Forall isAscii s.
Proof.
  intros Hs. eapply List.Forall_impl; [|exact Hs].
  intros c [->|Hc]; [unfold isAscii; lia|now apply plain_ascii].
Qed.

Lemma plainWord_ascii w : PlainWord w -> Forall isAscii w.
Proof.
  intros Hw. eapply List.Forall_impl; [|exact Hw]. intros c. apply plain_ascii.
Qed.

Lemma plainWord_firstn n w : PlainWord w -> PlainWord (firstn n w).
Proof. apply Forall_take. Qed.

Lemma plainWord_skipn n w : PlainWord w -> PlainWord (skipn n w).
Proof. apply Forall_drop. Qed.

Section CategoryAnyEngine.
Context `{CaseMapping}.

Lemma titleCaseWord_plain w :
  PlainWord w ->
  AI.titleCaseWord w = map upperAscii (firstn 1 w) ++ map lowerAscii (skipn 1 w).
Proof.
  intros Hw. unfold AI.titleCaseWord.
  rewrite toUpperCase_ascii by (apply plainWord_ascii; now apply plainWord_firstn).
  rewrite toLowerCase_ascii by (apply plainWord_ascii; now apply plainWord_skipn).
  reflexivity.
Qed.

Lemma titleCaseWord_keeps_plain w : PlainWord w -> PlainWord (AI.titleCaseWord w).
Proof.
  intros Hw. rewrite titleCaseWord_plain by exact Hw.
  apply Forall_app. split.
  - apply List.Forall_map. eapply List.Forall_impl; [|apply plainWord_firstn, Hw].
    intros c. apply plain_upper.
  - apply List.Forall_map. eapply List.Forall_impl; [|apply plainWord_skipn, Hw].
    intros c. apply plain_lower.
Qed.

Lemma titleCased_plain ws :
  Forall PlainWord ws -> Forall PlainWord (map AI.titleCaseWord ws).
Proof.
  intros Hws. apply List.Forall_map. eapply List.Forall_impl; [|exact Hws].
  intros w. apply titleCaseWord_keeps_plain.
Qed.

(** The cleaned category consists of plain words separated by single spaces,
    whatever the input was. *)
Lemma cleanCategory_spaced category : SpacedText (AI.cleanCategory category).
Proof.
  unfold AI.cleanCategory. apply join_plain.
  apply Forall_take. apply splitWs_plain. apply spaced_plainText.
  apply join_plain. apply titleCased_plain. apply splitWs_plain.
  apply removeChars_allowed.
Qed.

Lemma toLowerCase_length_ascii s :
  Forall isAscii s -> length (toLowerCase s) = length s.
Proof. intros Hs. rewrite toLowerCase_ascii by exact Hs. apply length_map. Qed.

Lemma FIXED_CATEGORIES_ascii :
  Forall (fun fixed => Forall isAscii fixed /\ (2 <= length fixed)%nat)
         AI.FIXED_CATEGORIES.
Proof.
  unfold AI.FIXED_CATEGORIES.
  repeat (constructor;
          [split; [unfold isAscii; repeat (constructor; [vm_compute; reflexivity|]);
                   constructor
                  | vm_compute; lia]|]).
  constructor.
Qed.

Lemma find_none_short cleaned :
  Forall isAscii cleaned -> (length cleaned < 2)%nat ->
  find (fun fixed => bool_decide (toLowerCase fixed = toLowerCase cleaned))
       AI.FIXED_CATEGORIES = None.
Proof.
  intros Ha Hl. generalize FIXED_CATEGORIES_ascii.
  induction 1 as [|fixed rest [Hfa Hfl] _ IH]; [reflexivity|].
  cbn [find]. rewrite bool_decide_eq_false_2; [exact IH|].
  intros Heq. apply (f_equal (@length N)) in Heq.
  rewrite !toLowerCase_length_ascii in Heq by assumption. lia.
Qed.

Lemma validateCategory_short category :
  (length (AI.cleanCategory category) < 2)%nat ->
  AI.validateCategory category = js "General".
Proof.
  intros Hl. unfold AI.validateCategory.
  destruct category as [|c category]; [reflexivity|].
  cbv zeta. rewrite find_none_short;
    [|apply spaced_ascii, cleanCategory_spaced|exact Hl].
  apply Nat.ltb_lt in Hl. rewrite Hl. now rewrite orb_true_r.
Qed.

End CategoryAnyEngine.

(** The result does not depend on the engine's case tables: only ASCII text
    ever reaches them. *)
Lemma cleanCategory_engine (E1 E2 : CaseMapping) category :
  @AI.cleanCategory E1 category = @AI.cleanCategory E2 category.
Proof.
  unfold AI.cleanCategory. do 4 f_equal.
  apply map_ext_Forall.
  eapply List.Forall_impl; [|apply splitWs_plain, removeChars_allowed].
  intros w Hw. now rewrite !titleCaseWord_plain.
Qed.

Lemma find_fixed_engine (E1 E2 : CaseMapping) cleaned :
  Forall isAscii cleaned ->
  find (fun fixed => bool_decide (@toLowerCase E1 fixed = @toLowerCase E1 cleaned))
       AI.FIXED_CATEGORIES
  = find (fun fixed => bool_decide (@toLowerCase E2 fixed = @toLowerCase E2 cleaned))
         AI.FIXED_CATEGORIES.
Proof.
  intros Ha. generalize FIXED_CATEGORIES_ascii.
  induction 1 as [|fixed rest [Hfa _] _ IH]; [reflexivity|].
  cbn [find]. rewrite IH.
  now rewrite !(@toLowerCase_ascii E1), !(@toLowerCase_ascii E2).
Qed.

Lemma validateCategory_engine (E1 E2 : CaseMapping) category :
  @AI.validateCategory E1 category = @AI.validateCategory E2 category.
Proof.
  unfold AI.validateCategory. destruct category as [|c category]; [reflexivity|].
  cbv zeta. rewrite (cleanCategory_engine E1 E2).
  rewrite (find_fixed_engine E1 E2) by (apply spaced_ascii, cleanCategory_spaced).
  reflexivity.
Qed.

(** C7: "technology", "TECHNOLOGY" and " Technology " all normalise to the
    canonical "Technology"; the empty input, and every input whose cleaned
    form (disallowed characters stripped, Title-Cased, capped at two tokens)
    has fewer than 2 characters, normalises to "General". *)
Theorem validateCategory_canonical `{CaseMapping} :
  AI.validateCategory (js "technology") = js "Technology"
  /\ AI.validateCategory (js "TECHNOLOGY") = js "Technology"
  /\ AI.validateCategory (js " Technology ") = js "Technology"
  /\ AI.validateCategory [] = js "General"
  /\ (forall category,
         (length (AI.cleanCategory category) < 2)%nat ->
         AI.validateCategory category = js "General").
Proof.
  repeat split.
  1-3: rewrite (validateCategory_engine _ latin1Case); vm_compute; reflexivity.
  intros category. apply validateCategory_short.
Qed.

Lemma validateCategory_canonical_witness :
  AI.validateCategory (js "?!") = js "General"
  /\ AI.validateCategory (js "x") = js "General"
  /\ AI.validateCategory (js "technology") = js "Technology".
Proof.
  pose proof (@validateCategory_canonical latin1Case) as (Ht & _ & _ & _ & Hshort).
  split; [|split].
  - apply Hshort. vm_compute. lia.
  - apply Hshort. vm_compute. lia.
  - exact Ht.
Defined.

Example validateCategory_examples :
  AI.validateCategory (js "web development tips") = js "Web Development"
  /\ AI.validateCategory (js "self-improvement") = js "Self-Improvement"
  /\ AI.validateCategory (js "ai") = js "AI"
  /\ AI.validateCategory (js "! crypto") = js " Crypto"
  /\ AI.validateCategory (js "   ") = js "General".
Proof. vm_compute. repeat split. Qed.

(** ** Post-parse repair of the recipe block *)

Lemma takeWhile_dropWhile p s : s = takeWhile p s ++ dropWhile p s.
Proof.
  induction s as [|c s IH]; [reflexivity|]. cbn.
  destruct (p c); [cbn; now f_equal|reflexivity].
Qed.

Lemma takeWhile_all p s : Forall (fun c => p c = true) (takeWhile p s).
Proof.
  induction s as [|c s IH]; cbn; [constructor|].
  destruct (p c) eqn:E; constructor; assumption.
Qed.

Lemma dropWhile_head p s :
  match dropWhile p s with [] => True | c :: _ => p c = false end.
Proof.
  induction s as [|c s IH]; cbn; [exact I|].
  destruct (p c) eqn:E; [exact IH|exact E].
Qed.

Lemma dropWhile_nil p s :
  dropWhile p s = [] <-> Forall (fun c => p c = true) s.
Proof.
  induction s as [|c s IH]; cbn.
  - split; [constructor|reflexivity].
  - destruct (p c) eqn:E.
    + rewrite IH. split; [now constructor|now inversion 1].
    + split; [discriminate|]. inversion 1; congruence.
Qed.

Lemma matchDigits_none s : matchDigits s = None <-> ~ HasDigit s.
Proof.
  unfold matchDigits, HasDigit.
  destruct (dropWhile _ s) as [|c r] eqn:E.
  - split; [|reflexivity]. intros _ (c & Hin & Hc).
    apply dropWhile_nil in E. rewrite List.Forall_forall in E.
    specialize (E c Hin). cbn in E. rewrite Hc in E. discriminate.
  - split; [discriminate|]. intros Hno. exfalso. apply Hno.
    exists c. split.
    + rewrite (takeWhile_dropWhile (fun c => negb (isDigit c)) s), E.
      apply in_or_app. right. now left.
    + pose proof (dropWhile_head (fun c => negb (isDigit c)) s) as Hh.
      rewrite E in Hh. now apply negb_false_iff in Hh.
Qed.

Lemma matchDigits_some s ds : matchDigits s = Some ds -> FirstDigitRun s ds.
Proof.
  unfold matchDigits, FirstDigitRun.
  destruct (dropWhile _ s) as [|c r] eqn:E; [discriminate|].
  intros [= <-].
  exists (takeWhile (fun c => negb (isDigit c)) s), (dropWhile isDigit (c :: r)).
  pose proof (dropWhile_head (fun c => negb (isDigit c)) s) as Hh.
  rewrite E in Hh. apply negb_false_iff in Hh.
  split; [|split; [|split; [|split]]].
  - rewrite (takeWhile_dropWhile (fun c => negb (isDigit c)) s) at 1.
    rewrite E. f_equal. apply (takeWhile_dropWhile isDigit (c :: r)).
  - eapply List.Forall_impl; [|apply takeWhile_all].
    intros d Hd. now apply negb_true_iff in Hd.
  - cbn. now rewrite Hh.
  - apply (takeWhile_all isDigit (c :: r)).
  - apply (dropWhile_head isDigit (c :: r)).
Qed.

Ltac keys := let Hk := fresh in intros Hk; vm_compute in Hk; discriminate.

Ltac name_is_set :=
  eexists; split; [reflexivity|];
  split; [intros ? ?; now apply lookup_insert_ne|];
  split; [intros _; apply lookup_insert_eq|];
  let Hn := fresh in intros Hn; now contradiction Hn.

(** Induction on parsed values, through the elements of arrays. *)
Lemma JValue_list_ind (P : JValue -> Prop) :
  P JNull -> (forall b, P (JBool b)) -> (forall x, P (JNum x)) ->
  (forall s, P (JStr s)) -> (forall l, Forall P l -> P (JArr l)) ->
  (forall fields, P (JObj fields)) ->
  forall v, P v.
Proof.
  intros Hnull Hbool Hnum Hstr Harr Hobj. fix IH 1.
  intros [|b|x|s|l|fields];
    [exact Hnull|apply Hbool|apply Hnum|apply Hstr| |apply Hobj].
  apply Harr. induction l as [|v l IHl]; constructor; [apply IH|exact IHl].
Qed.

Section RecipeSteps.
Implicit Types (o : gmap jsstring JValue) (key : jsstring).

Lemma ensureArray_same key o :
  VideoAI.ensureArray key o !! key
  = if isArray (o !! key) then o !! key else Some (JArr []).
Proof.
  unfold VideoAI.ensureArray. destruct (isArray (o !! key)); cbn [negb];
    [reflexivity|apply lookup_insert_eq].
Qed.

Lemma ensureArray_other key k o :
  key <> k -> VideoAI.ensureArray key o !! k = o !! k.
Proof.
  intros Hne. unfold VideoAI.ensureArray.
  destruct (negb _); [now apply lookup_insert_ne|reflexivity].
Qed.

Lemma ensureName_spec o :
  NameRepairable o ->
  exists o',
    VideoAI.ensureName o = inr o'
    /\ (forall k, js "name" <> k -> o' !! k = o !! k)
    /\ (NameBlank o -> o' !! js "name" = Some (JStr (js "Untitled Recipe")))
    /\ (~ NameBlank o -> o' !! js "name" = o !! js "name").
Proof.
  unfold NameRepairable, NameBlank, VideoAI.ensureName.
  destruct (o !! js "name") as [v|] eqn:Ename; [|intros _; name_is_set].
  intros Hok.
  destruct v as [|b|z|s|l|m];
    try (assert (Hfalsy : truthy _ = false)
           by (destruct Hok as [Hok|Hok]; [exact Hok|discriminate Hok]);
         rewrite Hfalsy; cbn [negb]; name_is_set).
  destruct (negb (truthy (JStr s)) || bool_decide (trim s = [])) eqn:Eb.
  - eexists. split; [reflexivity|]. split; [|split].
    + intros k Hk. now apply lookup_insert_ne.
    + intros _. apply lookup_insert_eq.
    + intros Hn. contradiction Hn.
      apply orb_true_iff in Eb as [Eb|Eb].
      * cbn [truthy] in Eb.
        apply negb_true_iff, negb_false_iff, bool_decide_eq_true in Eb.
        now subst s.
      * now apply bool_decide_eq_true in Eb.
  - exists o. split; [reflexivity|]. split; [reflexivity|].
    split; [|now rewrite Ename].
    intros Hb. apply orb_false_iff in Eb as [_ Eb].
    apply bool_decide_eq_false in Eb. contradiction.
Qed.

(** A truthy [name] that is not a string makes the repair throw. *)
Lemma ensureName_throws o :
  ~ NameRepairable o -> VideoAI.ensureName o = inl VideoAI.trimNotAFunction.
Proof.
  unfold NameRepairable, VideoAI.ensureName.
  destruct (o !! js "name") as [v|]; [|intros Hn; now contradiction Hn].
  intros Hn.
  assert (Ht : truthy v = true) by (destruct (truthy v); [reflexivity|tauto]).
  destruct v as [|b|z|s|l|m]; try (rewrite Ht; reflexivity).
  contradiction Hn. now right.
Qed.

Lemma cleanServings_other k o :
  js "servings" <> k -> VideoAI.cleanServings o !! k = o !! k.
Proof.
  intros Hne. unfold VideoAI.cleanServings.
  destruct (o !! js "servings") as [[| | |s| |]|]; try reflexivity.
  destruct (truthy (JStr s)); [|reflexivity].
  destruct (matchDigits s); [now apply lookup_insert_ne|now apply lookup_delete_ne].
Qed.

Lemma cleanServings_string o s :
  o !! js "servings" = Some (JStr s) -> s <> [] ->
  VideoAI.cleanServings o !! js "servings"
  = match matchDigits s with
    | Some ds => Some (JNum (parseInt10 ds))
    | None => None
    end.
Proof.
  intros Hs Hne. unfold VideoAI.cleanServings. rewrite Hs.
  cbn [truthy]. rewrite bool_decide_eq_false_2 by exact Hne. cbn [negb].
  destruct (matchDigits s); [apply lookup_insert_eq|apply lookup_delete_eq].
Qed.

Section AnyFormat.
Context `{NumberFormat}.

(** What a returning [ensureTimeString] did. *)
Lemma ensureTimeString_returns key o o' :
  VideoAI.ensureTimeString key o = inr o' ->
  (forall k, key <> k -> o' !! k = o !! k)
  /\ match o !! key with
     | Some v =>
         if truthy v && negb (isString v)
         then exists s, toStr v = inr s /\ o' !! key = Some (JStr s)
         else o' = o
     | None => o' = o
     end.
Proof.
  unfold VideoAI.ensureTimeString.
  destruct (o !! key) as [v|] eqn:Ek; [|now intros [= <-]].
  destruct (truthy v && negb (isString v)); [|now intros [= <-]].
  destruct (toStr v) as [e|s]; [discriminate|]. intros [= <-]. split.
  - intros k Hk. now apply lookup_insert_ne.
  - exists s. split; [reflexivity|apply lookup_insert_eq].
Qed.

(** [ensureTimeString] returns exactly when [String()] does on the value it
    is applied to. *)
Lemma ensureTimeString_total key o :
  (forall v, o !! key = Some v -> truthy v = true -> isString v = false ->
             exists s, toStr v = inr s) ->
  exists o', VideoAI.ensureTimeString key o = inr o'.
Proof.
  intros Hv. unfold VideoAI.ensureTimeString.
  destruct (o !! key) as [v|]; [|now eexists].
  destruct (truthy v) eqn:Et; [|now eexists].
  destruct (isString v) eqn:Es; [now eexists|]. cbn [andb negb].
  destruct (Hv v eq_refl Et Es) as [s ->]. now eexists.
Qed.

Lemma ensureTimeString_throws key o v e :
  o !! key = Some v -> truthy v = true -> isString v = false ->
  toStr v = inl e -> VideoAI.ensureTimeString key o = inl e.
Proof.
  intros Hv Ht Hs He. unfold VideoAI.ensureTimeString.
  now rewrite Hv, Ht, Hs, He.
Qed.

(** [String()] throws one error only. *)
Lemma toStr_error v e : toStr v = inl e -> e = cannotConvert.
Proof.
  revert e. induction v as [|b|x|s|l IH|fields] using JValue_list_ind; intros e;
    cbn [toStr]; try discriminate.
  - destruct b; discriminate.
  - induction IH as [|x l Hx _ IHl]; cbn [foldr]; [discriminate|].
    destruct (match x with JNull => inr [] | _ => toStr x end) as [ex|sx] eqn:Ex.
    + intros [= <-]. apply Hx. destruct x; try exact Ex. discriminate Ex.
    + destruct (foldr _ _ l) as [el|sl]; [|discriminate].
      intros [= <-]. now apply IHl.
  - destruct (bool_decide _); [now intros [= <-]|discriminate].
Qed.

(** [String()] returns exactly on the values a template literal renders. *)
Lemma toStr_renders v :
  (exists s, toStr v = inr s) <-> Completion.renders v = true.
Proof.
  induction v as [|b|x|s|l IH|fields] using JValue_list_ind;
    cbn [toStr Completion.renders].
  - split; [reflexivity|eauto].
  - destruct b; (split; [reflexivity|eauto]).
  - split; [reflexivity|eauto].
  - split; [reflexivity|eauto].
  - induction IH as [|x l Hx _ IHl]; cbn [foldr forallb].
    + split; [reflexivity|eauto].
    + assert (Hel : (exists s, match x with JNull => inr [] | _ => toStr x end = inr s)
                    <-> Completion.renders x = true)
        by (destruct x; try exact Hx; split; [reflexivity|eauto]).
      rewrite andb_true_iff, <- Hel, <- IHl.
      destruct (match x with JNull => inr [] | _ => toStr x end) as [ex|sx].
      * split; [intros [s Hs]; discriminate|intros [[s Hs] _]; discriminate].
      * destruct (foldr _ _ l) as [el|sl].
        -- split; [intros [s Hs]; discriminate|intros [_ [s Hs]]; discriminate].
        -- split; [intros _; split; eauto|intros _; eauto].
  - destruct (bool_decide _); cbn [negb];
      (split; [intros [s Hs]; (discriminate || reflexivity)|]);
      [discriminate|eauto].
Qed.
(** The repair of the named fields: the steps in order. *)
Lemma repairRecipe_steps o o' :
  VideoAI.repairRecipe o = inr o' ->
  exists o3 o5,
    VideoAI.ensureName
      (VideoAI.ensureArray (js "instructions")
         (VideoAI.ensureArray (js "ingredients") o)) = inr o3
    /\ VideoAI.ensureTimeString (js "prepTime") (VideoAI.cleanServings o3) = inr o5
    /\ VideoAI.ensureTimeString (js "cookTime") o5 = inr o'.
Proof.
  unfold VideoAI.repairRecipe. cbv zeta.
  destruct (VideoAI.ensureName _) as [e|o3]; [discriminate|].
  destruct (VideoAI.ensureTimeString (js "prepTime") _) as [e|o5] eqn:E5;
    [discriminate|].
  intros E6. now exists o3, o5.
Qed.

(** On the named fields: when the name can be repaired and the times render,
    the repair returns and has done what C6 lists. *)
Lemma repairRecipe_fields (o : gmap jsstring JValue) :
  NameRepairable o -> TimesRender o ->
  exists o',
    VideoAI.repairRecipe o = inr o'
    /\ (isArray (o !! js "ingredients") = false ->
        o' !! js "ingredients" = Some (JArr []))
    /\ (isArray (o !! js "instructions") = false ->
        o' !! js "instructions" = Some (JArr []))
    /\ (NameBlank o -> o' !! js "name" = Some (JStr (js "Untitled Recipe")))
    /\ (forall s,
           o !! js "servings" = Some (JStr s) -> s <> [] ->
           (HasDigit s ->
            exists ds, matchDigits s = Some ds
                       /\ FirstDigitRun s ds
                       /\ o' !! js "servings" = Some (JNum (parseInt10 ds)))
           /\ (~ HasDigit s -> o' !! js "servings" = None))
    /\ (forall key v,
           key = js "prepTime" \/ key = js "cookTime" ->
           o !! key = Some v -> truthy v = true -> isString v = false ->
           exists s, toStr v = inr s /\ o' !! key = Some (JStr s)).
Proof.
  intros Hname Htimes. unfold VideoAI.repairRecipe. cbv zeta.
  set (o1 := VideoAI.ensureArray (js "ingredients") o).
  set (o2 := VideoAI.ensureArray (js "instructions") o1).
  assert (Hframe2 : forall k, js "ingredients" <> k -> js "instructions" <> k ->
                              o2 !! k = o !! k).
  { intros k H1 H2. subst o1 o2. now rewrite !ensureArray_other. }
  assert (Hname2 : o2 !! js "name" = o !! js "name") by (apply Hframe2; keys).
  destruct (ensureName_spec o2) as (o3 & -> & Hother3 & Hblank3 & _).
  { unfold NameRepairable. now rewrite Hname2. }
  set (o4 := VideoAI.cleanServings o3).
  assert (Hframe4 : forall k, js "ingredients" <> k -> js "instructions" <> k ->
                              js "name" <> k -> js "servings" <> k ->
                              o4 !! k = o !! k).
  { intros k H1 H2 H3 H4. subst o4.
    now rewrite cleanServings_other, Hother3, Hframe2. }
  destruct (ensureTimeString_total (js "prepTime") o4) as [o5 E5].
  { intros v Hv. rewrite Hframe4 in Hv by keys.
    apply (Htimes (js "prepTime")); [now left|exact Hv]. }
  rewrite E5. destruct (ensureTimeString_returns _ _ _ E5) as [Hother5 Hprep5].
  destruct (ensureTimeString_total (js "cookTime") o5) as [o6 E6].
  { intros v Hv. rewrite Hother5, Hframe4 in Hv by keys.
    apply (Htimes (js "cookTime")); [now right|exact Hv]. }
  rewrite E6. destruct (ensureTimeString_returns _ _ _ E6) as [Hother6 Hcook6].
  exists o6. split; [reflexivity|].
  split; [|split; [|split; [|split]]].
  - intros Harr. rewrite Hother6, Hother5 by keys. subst o4.
    rewrite cleanServings_other, Hother3 by keys.
    subst o2. rewrite ensureArray_other by keys.
    subst o1. now rewrite ensureArray_same, Harr.
  - intros Harr. rewrite Hother6, Hother5 by keys. subst o4.
    rewrite cleanServings_other, Hother3 by keys.
    subst o2. rewrite ensureArray_same.
    subst o1. rewrite ensureArray_other by keys. now rewrite Harr.
  - intros Hblank. rewrite Hother6, Hother5 by keys. subst o4.
    rewrite cleanServings_other by keys.
    apply Hblank3. unfold NameBlank in *. now rewrite Hname2.
  - intros s Hs Hne.
    assert (Hs3 : o3 !! js "servings" = Some (JStr s)).
    { rewrite Hother3 by keys. rewrite Hframe2 by keys. exact Hs. }
    assert (Hs6 : o6 !! js "servings"
                  = match matchDigits s with
                    | Some ds => Some (JNum (parseInt10 ds))
                    | None => None
                    end).
    { rewrite Hother6, Hother5 by keys. subst o4.
      now apply cleanServings_string. }
    rewrite Hs6. split.
    + intros Hd. destruct (matchDigits s) as [ds|] eqn:Em.
      * exists ds. split; [reflexivity|].
        split; [now apply matchDigits_some|reflexivity].
      * apply matchDigits_none in Em. contradiction.
    + intros Hd. apply matchDigits_none in Hd. now rewrite Hd.
  - intros key v Hkey Hv Ht Hns.
    assert (Hb : truthy v && negb (isString v) = true) by now rewrite Ht, Hns.
    destruct Hkey as [-> | ->].
    + assert (Hv4 : o4 !! js "prepTime" = Some v)
        by (rewrite Hframe4 by keys; exact Hv).
      rewrite Hv4, Hb in Hprep5. destruct Hprep5 as (s & Hs & Hs5).
      exists s. split; [exact Hs|]. rewrite Hother6 by keys. exact Hs5.
    + assert (Hv5 : o5 !! js "cookTime" = Some v)
        by (rewrite Hother5, Hframe4 by keys; exact Hv).
      rewrite Hv5, Hb in Hcook6. exact Hcook6.
Qed.

(** When the repair throws, and what: [name.trim()] on a truthy [name] that
    is not a string, or else [String()] on a time that does not render. *)
Lemma repairRecipe_throws (o : gmap jsstring JValue) e :
  VideoAI.repairRecipe o = inl e ->
  (~ NameRepairable o /\ e = VideoAI.trimNotAFunction)
  \/ (NameRepairable o /\ ~ TimesRender o /\ e = cannotConvert).
Proof.
  intros He.
  assert (Hdec : NameRepairable o \/ ~ NameRepairable o).
  { unfold NameRepairable. destruct (o !! js "name") as [v|]; [|now left].
    destruct (truthy v); [|now left; left].
    destruct (isString v); [now left; right|].
    right. intros [Hc|Hc]; discriminate. }
  destruct Hdec as [Hname | Hname].
  - right. split; [exact Hname|].
    assert (Hno : ~ TimesRender o).
    { intros Htimes.
      destruct (repairRecipe_fields o Hname Htimes) as (o' & Ho' & _).
      congruence. }
    split; [exact Hno|].
    unfold VideoAI.repairRecipe in He. cbv zeta in He.
    destruct (VideoAI.ensureName _) as [e3|o3] eqn:E3.
    + exfalso. destruct (ensureName_spec
                 (VideoAI.ensureArray (js "instructions")
                    (VideoAI.ensureArray (js "ingredients") o)))
        as (o3 & Ho3 & _); [|congruence].
      unfold NameRepairable in *.
      now rewrite !ensureArray_other by keys.
    + unfold VideoAI.ensureTimeString in He.
      repeat match type of He with
             | context [match ?m !! ?k with _ => _ end] =>
                 destruct (m !! k) as [?v|]
             | context [if ?b then _ else _] => destruct b
             | context [match toStr ?v with _ => _ end] =>
                 let E := fresh "E" in
                 destruct (toStr v) eqn:E;
                 [try (injection He as <-; now apply toStr_error in E)|]
             end; discriminate.
  - left. split; [exact Hname|].
    unfold VideoAI.repairRecipe in He. cbv zeta in He.
    rewrite ensureName_throws in He; [congruence|].
    unfold NameRepairable in *. now rewrite !ensureArray_other by keys.
Qed.

(** The blocks outside C6: a missing or falsy block is left alone, and on a
    truthy primitive the first assignment throws. *)
Lemma repairRecipeData_other :
  VideoAI.repairRecipeData None = inr (VideoAI.Unrepaired None)
  /\ (forall v, truthy v = false ->
        VideoAI.repairRecipeData (Some v) = inr (VideoAI.Unrepaired (Some v)))
  /\ (forall v, truthy v = true -> namedFields v = None ->
        exists type value,
          VideoAI.repairRecipeData (Some v)
          = inl (VideoAI.cannotCreateProperty (js "ingredients") type value)
          /\ ((type = js "string" /\ v = JStr value)
              \/ (type = js "number" /\ exists x, v = JNum x
                                                  /\ value = numberToString x)
              \/ (type = js "boolean" /\ v = JBool true /\ value = js "true"))).
Proof.
  split; [reflexivity|]. split.
  - intros v Hv. unfold VideoAI.repairRecipeData. now rewrite Hv.
  - intros v Hv Hfields. unfold VideoAI.repairRecipeData. rewrite Hv. cbn [negb].
    destruct v as [|b|x|s|l|fields]; try discriminate.
    + destruct b; [|discriminate]. do 2 eexists. split; [reflexivity|].
      right. right. now repeat split.
    + do 2 eexists. split; [reflexivity|]. right. left. split; [reflexivity|].
      now exists x.
    + do 2 eexists. split; [reflexivity|]. left. now split.
Qed.

(** C6 (amended): for a recipe block that is an object or an array, whose
    [name] is absent, falsy or a string and whose [prepTime] and [cookTime]
    render when [String()] is applied to them, the repair returns and
    - [ingredients] ([instructions]) becomes the empty array unless it already
      is an array;
    - a missing or blank [name] becomes "Untitled Recipe";
    - [servings], when it is a non-empty string, becomes [parseInt] of its
      first run of digits if it has a digit (the Number nearest to the integer
      the digits denote), and is removed otherwise;
    - [prepTime] and [cookTime], when truthy and not strings, become the
      strings [String()] gives. *)
Theorem repairRecipe_guarantees (recipe : JValue) (o : gmap jsstring JValue) :
  namedFields recipe = Some o ->
  NameRepairable o -> TimesRender o ->
  exists o',
    VideoAI.repairRecipeData (Some recipe) = inr (repairedAs recipe o')
    /\ (isArray (o !! js "ingredients") = false ->
        o' !! js "ingredients" = Some (JArr []))
    /\ (isArray (o !! js "instructions") = false ->
        o' !! js "instructions" = Some (JArr []))
    /\ (NameBlank o -> o' !! js "name" = Some (JStr (js "Untitled Recipe")))
    /\ (forall s,
           o !! js "servings" = Some (JStr s) -> s <> [] ->
           (HasDigit s ->
            exists ds, matchDigits s = Some ds
                       /\ FirstDigitRun s ds
                       /\ o' !! js "servings"
                          = Some (JNum (integer (digitsValue ds))))
           /\ (~ HasDigit s -> o' !! js "servings" = None))
    /\ (forall key v,
           key = js "prepTime" \/ key = js "cookTime" ->
           o !! key = Some v -> truthy v = true -> isString v = false ->
           exists s, toStr v = inr s /\ o' !! key = Some (JStr s)).
Proof.
  intros Hfields Hname Htimes.
  destruct (repairRecipe_fields o Hname Htimes) as (o' & Ho' & Hrest).
  exists o'. split; [|exact Hrest].
  destruct recipe as [|b|x|s|l|fields]; try discriminate Hfields.
  - injection Hfields as <-.
    unfold VideoAI.repairRecipeData. cbn [truthy negb]. now rewrite Ho'.
  - injection Hfields as ->.
    unfold VideoAI.repairRecipeData. cbn [truthy negb]. now rewrite Ho'.
Qed.

End AnyFormat.

End RecipeSteps.

Lemma repairRecipe_guarantees_witness :
  exists o',
    VideoAI.repairRecipeData (Some (JObj Samples.cake))
    = inr (VideoAI.RecipeObject o')
    /\ o' !! js "ingredients" = Some (JArr [])
    /\ o' !! js "instructions" = Some (JArr [])
    /\ o' !! js "servings" = Some (JNum (integer 4))
    /\ o' !! js "prepTime" = Some (JStr (js "10"))
    /\ o' !! js "cookTime" = Some (JStr (js "22.5")).
Proof.
  destruct (repairRecipe_guarantees (JObj Samples.cake) Samples.cake eq_refl)
    as (o' & Ho' & Hingr & Hinstr & _ & Hserv & Htime).
  - vm_compute. right. reflexivity.
  - intros key v [-> | ->] Hv; vm_compute in Hv; injection Hv as <-;
      intros _ _; eexists; vm_compute; reflexivity.
  - exists o'. split; [exact Ho'|].
    split; [apply Hingr; vm_compute; reflexivity|].
    split; [apply Hinstr; vm_compute; reflexivity|].
    split; [|split].
    + destruct (Hserv (js "serves 4 people")) as [Hdigit _].
      * vm_compute. reflexivity.
      * vm_compute. discriminate.
      * destruct Hdigit as (ds & Hds & _ & ->).
        -- exists 52. split; [vm_compute; tauto|reflexivity].
        -- vm_compute in Hds. now injection Hds as <-.
    + destruct (Htime (js "prepTime") (JNum (integer 10)))
        as (s & Hs & ->);
        [now left | vm_compute; reflexivity | reflexivity | reflexivity|].
      vm_compute in Hs. now injection Hs as <-.
    + destruct (Htime (js "cookTime") (JNum (S754_finite false 45 (-1))))
        as (s & Hs & ->);
        [now right | vm_compute; reflexivity | reflexivity | reflexivity|].
      vm_compute in Hs. now injection Hs as <-.
Defined.

(** C6 as worded does not hold: an empty [servings] string has no digits yet
    stays in place, and a [prepTime] of [0] is present and not a string yet
    stays a number.  With a numeric [name], with a [prepTime] that is an object
    with a field [toString], and with a recipe block that is a string, the
    repair throws. *)
Lemma repairRecipe_falsy_counterexample :
  (exists o',
      VideoAI.repairRecipeData (Some (JObj Samples.plainCake))
      = inr (VideoAI.RecipeObject o')
      /\ Samples.plainCake !! js "servings" = Some (JStr [])
      /\ ~ HasDigit []
      /\ o' !! js "servings" = Some (JStr [])
      /\ Samples.plainCake !! js "prepTime" = Some (JNum (integer 0))
      /\ o' !! js "prepTime" = Some (JNum (integer 0)))
  /\ VideoAI.repairRecipeData (Some (JObj Samples.numberedCake))
     = inl VideoAI.trimNotAFunction
  /\ VideoAI.repairRecipeData (Some (JObj Samples.clockCake))
     = inl cannotConvert
  /\ VideoAI.repairRecipeData (Some (JStr (js "pasta")))
     = inl (newError (js "Cannot create property 'ingredients' on string 'pasta'")).
Proof.
  split; [|vm_compute; repeat split].
  eexists. split; [vm_compute; reflexivity|].
  split; [vm_compute; reflexivity|].
  split; [intros (c & [] & _)|].
  vm_compute. repeat split.
Qed.

(** Beyond [2^53] [parseInt] rounds: the digits of [2^53 + 1] give [2^53]. *)
Example repairRecipe_rounds :
  exists o',
    VideoAI.repairRecipe Samples.banquet = inr o'
    /\ o' !! js "servings" = Some (JNum (integer (2 ^ 53)))
    /\ digitsValue (js "9007199254740993") = (2 ^ 53 + 1)%Z
    /\ numberToString (integer (2 ^ 53)) = js "9007199254740992".
Proof. eexists. vm_compute. repeat split. Qed.

(** [String()] on sample values. *)
Example toStr_examples :
  toStr (JArr [JNum (integer 1); JArr [JNum (integer 2); JNull]; JStr (js "a")])
  = inr (js "1,2,,a")
  /\ toStr (JObj ∅) = inr (js "[object Object]")
  /\ toStr (JArr [JBool true; JObj ∅]) = inr (js "true,[object Object]")
  /\ toStr (JArr [JObj (<[js "toString" := JNum (integer 1)]> ∅)])
     = inl cannotConvert.
Proof. vm_compute. repeat split. Qed.

(** [Number::toString] as [shortestDecimal] computes it: integers, fractions,
    the switch to exponent notation at [1e21] and below [1e-6], the digits of
    [2^60], of the largest Number and of the smallest one. *)
Example numberToString_examples :
  map numberToString
    [integer 4; integer (-15); integer (10 ^ 20); integer (10 ^ 21);
     integer (2 ^ 60); S754_finite false 7205759403792794 (-56);
     S754_finite false 6004799503160661 (-54);
     S754_finite false 45 (-1);
     readBack 1 (-6); readBack 1 (-7);
     S754_finite false 9007199254740991 971; S754_finite false 1 (-1074);
     S754_zero true; S754_infinity true; S754_nan]
  = map js
      ["4"; "-15"; "100000000000000000000"; "1e+21";
       "1152921504606847000"; "0.1";
       "0.3333333333333333";
       "22.5";
       "0.000001"; "1e-7";
       "1.7976931348623157e+308"; "5e-324";
       "0"; "-Infinity"; "NaN"]%string.
Proof. vm_compute. reflexivity. Qed.
(** ** Summary normalisation *)

Lemma lastIndexOf_go_range c s : forall i last,
  lastIndexOf_go c i last s = last
  \/ (i <= lastIndexOf_go c i last s < i + Z.of_nat (length s))%Z.
Proof.
  induction s as [|d s IH]; intros i last; cbn [lastIndexOf_go length].
  - now left.
  - destruct (d =? c).
    + destruct (IH (i + 1)%Z i) as [-> | Hr]; right; lia.
    + destruct (IH (i + 1)%Z last) as [-> | Hr]; [now left | right; lia].
Qed.

Lemma lastIndexOf_lt c s : (lastIndexOf c s < Z.of_nat (length s))%Z.
Proof.
  unfold lastIndexOf.
  destruct (lastIndexOf_go_range c s 0%Z (-1)%Z) as [-> | Hr]; lia.
Qed.

Lemma orElse_nonempty a b : a <> [] -> orElse a b = a.
Proof. destruct a; [intros Hn; now contradiction Hn | reflexivity]. Qed.

Lemma capSummary_fits cleaned :
  (length cleaned <= 200)%nat -> AI.capSummary cleaned = cleaned.
Proof.
  intros Hl. unfold AI.capSummary.
  apply Nat.ltb_ge in Hl. now rewrite Hl.
Qed.

(** [lastIndexOf] finds the last occurrence. *)
Lemma lastIndexOf_go_spec c s : forall i last,
  (last < i)%Z ->
  (lastIndexOf_go c i last s = last /\ Forall (fun d => d <> c) s)
  \/ exists k,
       lastIndexOf_go c i last s = (i + Z.of_nat k)%Z
       /\ nth_error s k = Some c
       /\ forall j, (k < j)%nat -> nth_error s j <> Some c.
Proof.
  induction s as [|d s IH]; intros i last Hlt; cbn [lastIndexOf_go].
  - left. now split.
  - destruct (d =? c) eqn:Ed.
    + apply N.eqb_eq in Ed. subst d. right.
      destruct (IH (i + 1)%Z i ltac:(lia)) as [[-> Hall] | (k & -> & Hk & Hlast)].
      * exists 0%nat. split; [lia|]. split; [reflexivity|].
        intros [|j] Hj; [lia|]. cbn [nth_error]. intros Hc.
        apply nth_error_In in Hc. rewrite List.Forall_forall in Hall.
        now apply (Hall c Hc).
      * exists (S k). split; [lia|]. split; [exact Hk|].
        intros [|j] Hj; [lia|]. cbn [nth_error]. apply Hlast. lia.
    + apply N.eqb_neq in Ed.
      destruct (IH (i + 1)%Z last ltac:(lia)) as [[-> Hall] | (k & -> & Hk & Hlast)].
      * left. split; [reflexivity|]. now constructor.
      * right. exists (S k). split; [lia|]. split; [exact Hk|].
        intros [|j] Hj; [lia|]. cbn [nth_error]. apply Hlast. lia.
Qed.

Lemma lastIndexOf_spec c s :
  (lastIndexOf c s = (-1)%Z /\ Forall (fun d => d <> c) s)
  \/ exists k,
       lastIndexOf c s = Z.of_nat k
       /\ nth_error s k = Some c
       /\ forall j, (k < j)%nat -> nth_error s j <> Some c.
Proof.
  unfold lastIndexOf.
  destruct (lastIndexOf_go_spec c s 0%Z (-1)%Z ltac:(lia))
    as [H1 | (k & Hk & H2)]; [now left|].
  right. exists k. now rewrite Hk.
Qed.

Lemma isSentenceEnd_cases c :
  isSentenceEnd c = true <-> c = 46 \/ c = 33 \/ c = 63.
Proof.
  unfold isSentenceEnd. rewrite !orb_true_iff, !N.eqb_eq. tauto.
Qed.

(** The index the cap computes with three [lastIndexOf] calls is the index of
    the last sentence end of the truncated text. *)
Lemma lastSentenceEnd_spec text i :
  LastSentenceEnd text i ->
  let truncated := substring0 200 text in
  Z.max (Z.max (lastIndexOf 46 truncated) (lastIndexOf 33 truncated))
        (lastIndexOf 63 truncated)
  = Z.of_nat i.
Proof.
  intros (Hi & (c0 & Hc0 & Hend0) & Hlater). cbv zeta.
  set (truncated := substring0 200 text).
  assert (Hnth : forall k, (k < 200)%nat -> nth_error truncated k = nth_error text k).
  { intros k Hk. subst truncated. unfold substring0.
    rewrite nth_error_firstn. apply Nat.ltb_lt in Hk. now rewrite Hk. }
  assert (Hin : forall k c, nth_error truncated k = Some c -> (k < 200)%nat).
  { intros k c Hk.
    assert (Hlt : (k < length truncated)%nat)
      by (apply List.nth_error_Some; rewrite Hk; discriminate).
    pose proof (length_substring0 200 text). subst truncated. lia. }
  assert (Hupper : forall c, isSentenceEnd c = true ->
                             (lastIndexOf c truncated <= Z.of_nat i)%Z).
  { intros c Hc. destruct (lastIndexOf_spec c truncated)
      as [[-> _] | (k & -> & Hk & _)]; [lia|].
    pose proof (Hin _ _ Hk) as Hk200. rewrite Hnth in Hk by exact Hk200.
    destruct (Nat.le_gt_cases k i) as [Hle | Hgt]; [lia|].
    rewrite (Hlater k c) in Hc by (try lia; exact Hk). discriminate. }
  assert (Hlower : (Z.of_nat i <= lastIndexOf c0 truncated)%Z).
  { destruct (lastIndexOf_spec c0 truncated)
      as [[_ Hall] | (k & -> & Hk & Hlast)].
    - exfalso. rewrite <- Hnth in Hc0 by exact Hi.
      apply nth_error_In in Hc0. rewrite List.Forall_forall in Hall.
      now apply (Hall c0 Hc0).
    - destruct (Nat.le_gt_cases i k) as [Hle | Hgt]; [lia|].
      exfalso. apply (Hlast i Hgt). now rewrite Hnth. }
  pose proof (Hupper 46 eq_refl). pose proof (Hupper 33 eq_refl).
  pose proof (Hupper 63 eq_refl).
  apply isSentenceEnd_cases in Hend0 as [-> | [-> | ->]]; lia.
Qed.

(** The cap cuts just after the last sentence end when that lies past
    index 50. *)
Lemma capSummary_sentence text i :
  (200 < length text)%nat -> LastSentenceEnd text i -> (50 < i)%nat ->
  AI.capSummary text = substring0 (i + 1) text
  /\ length (AI.capSummary text) = (i + 1)%nat.
Proof.
  intros Hlen Hlast Hi.
  assert (Hcap : AI.capSummary text = substring0 (i + 1) text).
  { unfold AI.capSummary. apply Nat.ltb_lt in Hlen as Hlt. rewrite Hlt. cbv zeta.
    rewrite (lastSentenceEnd_spec text i Hlast).
    assert (Hb : (50 <? Z.of_nat i)%Z = true) by (apply Z.ltb_lt; lia).
    rewrite Hb. f_equal. lia. }
  split; [exact Hcap|]. rewrite Hcap. unfold substring0.
  rewrite length_firstn. destruct Hlast as (Hi200 & _). lia.
Qed.

Section SummaryAnyEngine.
Context `{CaseMapping}.

Lemma repeatsTitle_spec cleaned title :
  AI.repeatsTitle cleaned title = true <-> RepeatsTitle cleaned title.
Proof.
  unfold AI.repeatsTitle, RepeatsTitle. cbv zeta.
  rewrite orb_true_iff, bool_decide_eq_true, startsWith_spec.
  split; (intros [Heq | [more Hmore]]; [now left|right; exists more]).
  - now rewrite Hmore, <- app_assoc.
  - now rewrite Hmore, <- app_assoc.
Qed.

Lemma repeatsTitle_false cleaned title :
  ~ RepeatsTitle cleaned title -> AI.repeatsTitle cleaned title = false.
Proof.
  rewrite <- repeatsTitle_spec. now destruct (AI.repeatsTitle cleaned title).
Qed.

Lemma repeatsTitle_false_neq cleaned title :
  AI.repeatsTitle cleaned title = false ->
  toLowerCase cleaned <> toLowerCase title.
Proof.
  unfold AI.repeatsTitle. intros Hr Heq.
  apply orb_false_iff in Hr as [Hr _].
  apply bool_decide_eq_false in Hr. apply Hr. now rewrite Heq.
Qed.

Lemma toLowerCase_information title :
  LowersWordByWord ->
  toLowerCase (js "Information about " ++ title)
  = js "information about " ++ toLowerCase title.
Proof.
  intros Hwords.
  change (js "Information about " ++ title)
    with (js "Information" ++ 32 :: (js "about" ++ 32 :: title)).
  rewrite !Hwords.
  rewrite !toLowerCase_ascii
    by (unfold isAscii; repeat (constructor; [vm_compute; reflexivity|]); constructor).
  reflexivity.
Qed.

(** C4 (amended): an empty summary yields the first 160 characters of the
    content, or of the title when there is no content, trimmed (or "No
    summary available." when that is empty).  For a non-empty summary, let
    [text] be the text handed to the cap: when [text] has at most 200
    characters it is the output (or the stock phrase when it is empty); when
    it is longer and the last '.', '!' or '?' among its first 200 characters
    lies at an index [i] past 50, the output is [text] cut after index [i].
    In all these cases the output has at most 200 characters.  The output
    differs from the title, ignoring case, when the summary is non-empty and
    either its cleaned form is non-empty, at most 200 characters long and does
    not repeat the title, or it repeats the title, there is no content and the
    title has at most 182 characters: the output is then "Information about "
    followed by the title, which is not the title, and not the title ignoring
    case for an engine that lower-cases the words on either side of a space
    separately. *)
Theorem validateSummary_amended summary title content :
  let out := AI.validateSummary summary title content in
  let text := textToCap summary title content in
  (summary = [] ->
   out = orElse (trim (substring0 160 (AI.textSource title content)))
                (js "No summary available.")
   /\ (length out <= 200)%nat)
  /\ (summary <> [] -> (length text <= 200)%nat ->
      out = orElse text (js "No summary available.") /\ (length out <= 200)%nat)
  /\ (summary <> [] -> (200 < length text)%nat ->
      forall i, LastSentenceEnd text i -> (50 < i)%nat ->
      out = substring0 (i + 1) text
      /\ length out = (i + 1)%nat /\ (length out <= 200)%nat)
  /\ (summary <> [] ->
      ~ RepeatsTitle (AI.cleanSummary summary) title ->
      AI.cleanSummary summary <> [] ->
      (length (AI.cleanSummary summary) <= 200)%nat ->
      out = AI.cleanSummary summary /\ toLowerCase out <> toLowerCase title)
  /\ (summary <> [] ->
      RepeatsTitle (AI.cleanSummary summary) title ->
      content = None \/ content = Some [] ->
      (length title <= 182)%nat ->
      out = js "Information about " ++ title
      /\ out <> title
      /\ (LowersWordByWord -> toLowerCase out <> toLowerCase title)).
Proof.
  cbv zeta.
  assert (Hcapped : summary <> [] ->
            AI.validateSummary summary title content
            = orElse (AI.capSummary (textToCap summary title content))
                     (js "No summary available."))
    by (destruct summary as [|c summary];
        [intros Hne; now contradiction Hne | reflexivity]).
  split; [|split; [|split; [|split]]].
  - intros ->. split; [reflexivity|]. cbn [AI.validateSummary].
    apply length_orElse; [|vm_compute; lia].
    etransitivity; [apply length_trim|].
    etransitivity; [apply length_substring0|]. lia.
  - intros Hne Hlen. rewrite (Hcapped Hne), capSummary_fits by exact Hlen.
    split; [reflexivity|]. apply length_orElse; [exact Hlen|vm_compute; lia].
  - intros Hne Hlen i Hlast Hi.
    destruct (capSummary_sentence _ i Hlen Hlast Hi) as [Hcap Hcut].
    assert (Hout : AI.validateSummary summary title content
                   = substring0 (i + 1) (textToCap summary title content)).
    { rewrite (Hcapped Hne), <- Hcap. apply orElse_nonempty.
      intros Hnil. rewrite Hnil in Hcut. cbn in Hcut. lia. }
    rewrite Hout, <- Hcap, Hcut. destruct Hlast as (Hi200 & _).
    split; [reflexivity|]. split; [reflexivity|]. lia.
  - intros Hne Hrep Hclean Hlen. apply repeatsTitle_false in Hrep.
    assert (Hout : AI.validateSummary summary title content
                   = AI.cleanSummary summary).
    { rewrite (Hcapped Hne). unfold textToCap. cbv zeta.
      rewrite Hrep, capSummary_fits by exact Hlen.
      now apply orElse_nonempty. }
    rewrite Hout. split; [reflexivity|]. now apply repeatsTitle_false_neq.
  - intros Hne Hrep Hcontent Hlen. apply repeatsTitle_spec in Hrep.
    assert (Hout : AI.validateSummary summary title content
                   = js "Information about " ++ title).
    { rewrite (Hcapped Hne). unfold textToCap. cbv zeta. rewrite Hrep.
      destruct Hcontent as [-> | ->];
        (rewrite capSummary_fits;
         [apply orElse_nonempty; discriminate | rewrite length_app; cbn; lia]). }
    rewrite Hout. split; [reflexivity|]. split.
    + intros Heq. apply (f_equal (@length N)) in Heq.
      rewrite length_app in Heq. cbn in Heq. lia.
    + intros Hwords. rewrite (toLowerCase_information title Hwords).
      intros Heq. apply (f_equal (@length N)) in Heq.
      rewrite length_app in Heq. cbn in Heq. lia.
Qed.

End SummaryAnyEngine.

Lemma latin1Case_words : @LowersWordByWord latin1Case.
Proof. intros s t. cbn [toLowerCase latin1Case]. now rewrite map_app. Qed.

Lemma validateSummary_amended_witness :
  AI.validateSummary (js "A quick **pasta** recipe.") (js "Dinner") None
  = js "A quick pasta recipe."
  /\ (AI.validateSummary (js "Dinner") (js "dinner") None
      = js "Information about dinner"
      /\ toLowerCase (AI.validateSummary (js "Dinner") (js "dinner") None)
         <> toLowerCase (js "dinner"))
  /\ AI.validateSummary [] (js "Dinner") (Some (js " Boil water. "))
     = js "Boil water."
  /\ AI.validateSummary (Samples.sentence60 ++ repeat 98 150) (js "Dinner") None
     = Samples.sentence60
  /\ AI.validateSummary (js "*") (js "Dinner") None = js "No summary available.".
Proof.
  pose proof (@validateSummary_amended latin1Case) as Hthm. cbv zeta in Hthm.
  split; [|split; [|split; [|split]]].
  - destruct (Hthm (js "A quick **pasta** recipe.") (js "Dinner") None)
      as (_ & _ & _ & Hkeep & _).
    destruct Hkeep as [-> _];
      [vm_compute; discriminate
      | rewrite <- (@repeatsTitle_spec latin1Case); vm_compute; discriminate
      | vm_compute; discriminate | vm_compute; lia|].
    vm_compute. reflexivity.
  - destruct (Hthm (js "Dinner") (js "dinner") None) as (_ & _ & _ & _ & Hregen).
    destruct Hregen as (Hout & _ & Hcase);
      [vm_compute; discriminate
      | apply (@repeatsTitle_spec latin1Case); vm_compute; reflexivity | now left
      | vm_compute; lia |].
    split; [rewrite Hout; reflexivity | exact (Hcase latin1Case_words)].
  - destruct (Hthm [] (js "Dinner") (Some (js " Boil water. "))) as (Hempty & _).
    destruct Hempty as [-> _]; [reflexivity|]. vm_compute. reflexivity.
  - destruct (Hthm (Samples.sentence60 ++ repeat 98 150) (js "Dinner") None)
      as (_ & _ & Hcut & _).
    assert (Htext : @textToCap latin1Case (Samples.sentence60 ++ repeat 98 150)
                      (js "Dinner") None
                    = repeat 97 59 ++ js "." ++ repeat 98 150)
      by (vm_compute; reflexivity).
    rewrite Htext in Hcut.
    destruct (Hcut ltac:(vm_compute; discriminate) ltac:(vm_compute; lia) 59%nat)
      as [-> _]; [|lia|vm_compute; reflexivity].
    split; [lia|]. split; [exists 46; split; vm_compute; reflexivity|].
    intros j c Hj Hc.
    rewrite nth_error_app2 in Hc by (rewrite repeat_length; lia).
    rewrite repeat_length in Hc.
    rewrite nth_error_app2 in Hc by (cbn [length js]; cbn; lia).
    apply nth_error_In, repeat_spec in Hc. now subst c.
  - destruct (Hthm (js "*") (js "Dinner") None) as (_ & Hfits & _).
    destruct Hfits as [-> _];
      [vm_compute; discriminate | vm_compute; lia | vm_compute; reflexivity].
Defined.

(** C4 as worded does not hold: with an empty summary and no content the
    output is the title itself.  Nor is the output compared with the title
    again after it was regenerated from the content, cut at a sentence end,
    replaced by the stock phrase, or, for a title of more than 182 characters,
    made of "Information about " and the title and then capped. *)
Lemma validateSummary_title_counterexample :
  (AI.validateSummary [] (js "Weekly plan") None = js "Weekly plan"
   /\ toLowerCase (AI.validateSummary [] (js "Weekly plan") None)
      = toLowerCase (js "Weekly plan"))
  /\ AI.validateSummary (js "Dinner") (js "Dinner") (Some (js "Dinner")) = js "Dinner"
  /\ AI.validateSummary (Samples.sentence60 ++ repeat 98 150) Samples.sentence60 None
     = Samples.sentence60
  /\ AI.validateSummary (js "*") (js "No summary available.") None
     = js "No summary available."
  /\ (length Samples.aboutTitle = 200%nat
      /\ toLowerCase (AI.validateSummary Samples.aboutTitle Samples.aboutTitle None)
         = toLowerCase Samples.aboutTitle).
Proof. vm_compute. repeat split. Qed.

(** The two ellipsis branches of the cap overshoot 200 characters. *)
Example capSummary_overshoots :
  length (AI.validateSummary (repeat 97 201) (js "t") None) = 203%nat
  /\ length (AI.validateSummary (repeat 97 199 ++ js " b") (js "t") None) = 202%nat.
Proof. vm_compute. split; reflexivity. Qed.

(** ** Title normalisation *)

Lemma Forall_dropWhile (P : N -> Prop) p s : Forall P s -> Forall P (dropWhile p s).
Proof.
  induction 1 as [|c s Hc Hs IH]; cbn; [constructor|].
  destruct (p c); [exact IH|now constructor].
Qed.

Lemma Forall_trim (P : N -> Prop) s : Forall P s -> Forall P (trim s).
Proof.
  intros Hs. unfold trim, trimEnd, trimStart.
  apply Forall_rev, Forall_dropWhile, Forall_rev, Forall_dropWhile, Hs.
Qed.

Lemma Forall_removeChars (P : N -> Prop) p s :
  Forall P s -> Forall P (removeChars p s).
Proof.
  intros Hs. unfold removeChars. rewrite List.Forall_forall in *.
  intros c Hin. apply filter_In in Hin as [Hin _]. now apply Hs.
Qed.

Lemma Forall_collapseWs_go (P : N -> Prop) inRun s :
  P 32 -> Forall P s -> Forall P (collapseWs_go inRun s).
Proof.
  intros Hsp Hs. revert inRun.
  induction Hs as [|c s Hc Hs IH]; intros inRun; cbn; [constructor|].
  destruct (isWhiteSpace c); [destruct inRun|]; try constructor; auto.
Qed.

Lemma splitOn_nonempty sep s : splitOn sep s <> [].
Proof.
  destruct s as [|c s]; cbn; [discriminate|].
  destruct (c =? sep); [discriminate|].
  destruct (splitOn sep s); discriminate.
Qed.

Lemma Forall_splitOn (P : N -> Prop) sep s :
  Forall P s -> Forall (Forall P) (splitOn sep s).
Proof.
  induction 1 as [|c s Hc Hs IH]; cbn; [repeat constructor|].
  destruct (c =? sep); [constructor; [constructor|exact IH]|].
  destruct (splitOn sep s) as [|w ws]; [repeat constructor; exact Hc|].
  inversion IH; subst. constructor; [now constructor|assumption].
Qed.

Lemma join_cons_cons sep c w ws :
  join sep ((c :: w) :: ws) = c :: join sep (w :: ws).
Proof. destruct ws; reflexivity. Qed.

(** Splitting at spaces, capitalising each word and joining again is Title
    Case character by character. *)
Lemma titleCase_split (start : bool) s :
  join (js " ")
       (match splitOn 32 s with
        | [] => []
        | w :: ws =>
            (if start then capitalizeAscii w else map lowerAscii w)
            :: map capitalizeAscii ws
        end)
  = titleCaseAscii start s.
Proof.
  revert start. induction s as [|c s IH]; intros start.
  - cbn. now destruct start.
  - cbn [splitOn titleCaseAscii]. destruct (c =? 32) eqn:Ec.
    + specialize (IH true). pose proof (splitOn_nonempty 32 s) as Hne.
      destruct (splitOn 32 s) as [|w ws]; [now contradiction Hne|].
      rewrite <- IH. now destruct start.
    + specialize (IH false). pose proof (splitOn_nonempty 32 s) as Hne.
      destruct (splitOn 32 s) as [|w ws]; [now contradiction Hne|].
      rewrite <- IH.
      destruct start; cbn [capitalizeAscii map]; apply join_cons_cons.
Qed.

Section TitleAnyEngine.
Context `{CaseMapping}.

Lemma capitalize_ascii w :
  Forall isAscii w -> VideoAI.capitalize w = capitalizeAscii w.
Proof.
  intros Hw. unfold VideoAI.capitalize, capitalizeAscii.
  destruct w as [|c r]; [reflexivity|].
  inversion Hw; subst.
  rewrite toUpperCase_ascii by (constructor; [assumption|constructor]).
  cbn [skipn]. rewrite toLowerCase_ascii by assumption. reflexivity.
Qed.

Lemma cleanTitle_ascii s : Forall isAscii s -> Forall isAscii (VideoAI.cleanTitle s).
Proof.
  intros Hs. unfold VideoAI.cleanTitle, substring0, collapseWs.
  apply Forall_take, Forall_collapseWs_go; [unfold isAscii; lia|].
  now apply Forall_removeChars, Forall_trim.
Qed.

(** On ASCII titles the engine's case tables play no part. *)
Lemma cleanAndFormatTitle_ascii s :
  Forall isAscii s ->
  VideoAI.cleanAndFormatTitle s = titleCaseAscii true (VideoAI.cleanTitle s).
Proof.
  intros Hs. unfold VideoAI.cleanAndFormatTitle. cbv zeta.
  rewrite <- titleCase_split.
  pose proof (Forall_splitOn isAscii 32 _ (cleanTitle_ascii s Hs)) as Hws.
  pose proof (splitOn_nonempty 32 (VideoAI.cleanTitle s)) as Hne.
  destruct (splitOn 32 (VideoAI.cleanTitle s)) as [|w ws]; [now contradiction Hne|].
  change (capitalizeAscii w :: map capitalizeAscii ws)
    with (map capitalizeAscii (w :: ws)).
  f_equal. apply map_ext_Forall.
  eapply List.Forall_impl; [|exact Hws]. intros w'. apply capitalize_ascii.
Qed.

End TitleAnyEngine.

(** *** Title Case, character by character *)

Lemma upperAscii_space c : (upperAscii c =? 32) = (c =? 32).
Proof.
  destruct (c =? 32) eqn:E; [apply N.eqb_eq in E; now subst|].
  apply N.eqb_neq in E. apply N.eqb_neq. char_facts.
Qed.

Lemma lowerAscii_space c : (lowerAscii c =? 32) = (c =? 32).
Proof.
  destruct (c =? 32) eqn:E; [apply N.eqb_eq in E; now subst|].
  apply N.eqb_neq in E. apply N.eqb_neq. char_facts.
Qed.

Lemma upperAscii_idem c : upperAscii (upperAscii c) = upperAscii c.
Proof. char_facts. Qed.

Lemma lowerAscii_idem c : lowerAscii (lowerAscii c) = lowerAscii c.
Proof. char_facts. Qed.

Lemma upperAscii_ascii c : isAscii c -> isAscii (upperAscii c).
Proof. intros Hc. char_facts. Qed.

Lemma lowerAscii_ascii c : isAscii c -> isAscii (lowerAscii c).
Proof. intros Hc. char_facts. Qed.

Lemma upperAscii_whitespace c : isWhiteSpace (upperAscii c) = isWhiteSpace c.
Proof.
  unfold upperAscii. destruct (isLowerAscii c) eqn:E; [|reflexivity].
  assert (97 <= c <= 122) as Hc by char_facts.
  assert (isWhiteSpace (c - 32) = false) as -> by char_facts.
  symmetry. char_facts.
Qed.

Lemma lowerAscii_whitespace c : isWhiteSpace (lowerAscii c) = isWhiteSpace c.
Proof.
  unfold lowerAscii. destruct (isUpperAscii c) eqn:E; [|reflexivity].
  assert (65 <= c <= 90) as Hc by char_facts.
  assert (isWhiteSpace (c + 32) = false) as -> by char_facts.
  symmetry. char_facts.
Qed.

Lemma upperAscii_marker c :
  VideoAI.isMarker c = false -> VideoAI.isMarker (upperAscii c) = false.
Proof. unfold VideoAI.isMarker. intros Hc. char_facts. Qed.

Lemma lowerAscii_marker c :
  VideoAI.isMarker c = false -> VideoAI.isMarker (lowerAscii c) = false.
Proof. unfold VideoAI.isMarker. intros Hc. char_facts. Qed.

Lemma length_titleCaseAscii start s : length (titleCaseAscii start s) = length s.
Proof.
  revert start. induction s as [|c s IH]; intros start; [reflexivity|].
  cbn. destruct (c =? 32); cbn; now rewrite IH.
Qed.

Lemma titleCaseAscii_idem start s :
  titleCaseAscii start (titleCaseAscii start s) = titleCaseAscii start s.
Proof.
  revert start. induction s as [|c s IH]; intros start; [reflexivity|].
  cbn [titleCaseAscii]. destruct (c =? 32) eqn:Ec.
  - cbn. now rewrite IH.
  - cbn [titleCaseAscii]. destruct start.
    + now rewrite upperAscii_space, Ec, upperAscii_idem, IH.
    + now rewrite lowerAscii_space, Ec, lowerAscii_idem, IH.
Qed.

Lemma titleCaseAscii_prefix start u v :
  firstn (length u) (titleCaseAscii start (u ++ v)) = titleCaseAscii start u.
Proof.
  revert start. induction u as [|c u IH]; intros start; [reflexivity|].
  cbn. destruct (c =? 32); cbn; now rewrite IH.
Qed.

Lemma titleCaseAscii_fixed_prefix start u v :
  titleCaseAscii start (u ++ v) = u ++ v -> titleCaseAscii start u = u.
Proof.
  intros Hfix. rewrite <- titleCaseAscii_prefix with (v := v), Hfix.
  now rewrite firstn_app, Nat.sub_diag, firstn_all, firstn_O, app_nil_r.
Qed.

Lemma titleCaseAscii_ascii start s :
  Forall isAscii s -> Forall isAscii (titleCaseAscii start s).
Proof.
  intros Hs. revert start.
  induction Hs as [|c s Hc Hs IH]; intros start; cbn; [constructor|].
  destruct (c =? 32); constructor; auto; [unfold isAscii; lia|].
  destruct start; [now apply upperAscii_ascii|now apply lowerAscii_ascii].
Qed.

Lemma titleCaseAscii_unmarked start s :
  Forall (fun c => VideoAI.isMarker c = false) s ->
  Forall (fun c => VideoAI.isMarker c = false) (titleCaseAscii start s).
Proof.
  intros Hs. revert start.
  induction Hs as [|c s Hc Hs IH]; intros start; cbn; [constructor|].
  destruct (c =? 32); constructor; auto.
  destruct start; [now apply upperAscii_marker|now apply lowerAscii_marker].
Qed.

Lemma titleCaseAscii_spaced inRun start s :
  singleSpaced inRun (titleCaseAscii start s) = singleSpaced inRun s.
Proof.
  revert inRun start. induction s as [|c s IH]; intros inRun start; [reflexivity|].
  cbn [titleCaseAscii]. destruct (c =? 32) eqn:Ec.
  - apply N.eqb_eq in Ec. subst c. cbn. now rewrite IH.
  - cbn [singleSpaced]. destruct start.
    + rewrite upperAscii_whitespace, upperAscii_space, Ec, !IH. reflexivity.
    + rewrite lowerAscii_whitespace, lowerAscii_space, Ec, !IH. reflexivity.
Qed.

(** *** Single spacing *)

Lemma collapseWs_go_spaced inRun s :
  singleSpaced inRun (collapseWs_go inRun s) = true.
Proof.
  revert inRun. induction s as [|c s IH]; intros inRun; [reflexivity|].
  cbn [collapseWs_go]. destruct (isWhiteSpace c) eqn:Ew.
  - destruct inRun; [apply IH|].
    cbn [singleSpaced].
    replace (isWhiteSpace 32) with true by reflexivity.
    cbn [andb negb N.eqb Pos.eqb]. apply IH.
  - cbn [singleSpaced]. rewrite Ew. apply IH.
Qed.

Lemma singleSpaced_prefix inRun u v :
  singleSpaced inRun (u ++ v) = true -> singleSpaced inRun u = true.
Proof.
  revert inRun. induction u as [|c u IH]; intros inRun; [reflexivity|].
  cbn [app singleSpaced]. destruct (isWhiteSpace c).
  - rewrite !andb_true_iff. intros [[? ?] ?]. repeat split; auto.
  - apply IH.
Qed.

Lemma singleSpaced_firstn inRun n s :
  singleSpaced inRun s = true -> singleSpaced inRun (firstn n s) = true.
Proof.
  intros Hs. apply singleSpaced_prefix with (v := skipn n s).
  now rewrite firstn_skipn.
Qed.

Lemma singleSpaced_trimStart s :
  singleSpaced false s = true -> singleSpaced false (trimStart s) = true.
Proof.
  unfold trimStart. destruct s as [|c s]; [reflexivity|].
  cbn [singleSpaced dropWhile]. destruct (isWhiteSpace c) eqn:Ew.
  - rewrite !andb_true_iff. intros [_ Hs].
    destruct s as [|d s]; [reflexivity|].
    cbn [singleSpaced] in Hs. cbn [dropWhile].
    destruct (isWhiteSpace d) eqn:Ed.
    + rewrite !andb_true_iff in Hs. destruct Hs as [[_ ?] _]. discriminate.
    + cbn [singleSpaced]. now rewrite Ed.
  - intros Hs. cbn [singleSpaced]. now rewrite Ew.
Qed.

Lemma trimEnd_prefix s : exists w, s = trimEnd s ++ w.
Proof.
  unfold trimEnd. exists (rev (takeWhile isWhiteSpace (rev s))).
  rewrite <- rev_app_distr, <- takeWhile_dropWhile. now rewrite rev_involutive.
Qed.

Lemma singleSpaced_trim s :
  singleSpaced false s = true -> singleSpaced false (trim s) = true.
Proof.
  intros Hs. unfold trim.
  destruct (trimEnd_prefix (trimStart s)) as [w Hw].
  apply singleSpaced_prefix with (v := w). rewrite <- Hw.
  now apply singleSpaced_trimStart.
Qed.

Lemma collapseWs_go_fixed inRun s :
  singleSpaced inRun s = true -> collapseWs_go inRun s = s.
Proof.
  revert inRun. induction s as [|c s IH]; intros inRun; [reflexivity|].
  cbn [singleSpaced collapseWs_go]. destruct (isWhiteSpace c).
  - rewrite !andb_true_iff. intros [[Hc Hr] Hs].
    apply N.eqb_eq in Hc. subst c. destruct inRun; [discriminate|].
    now rewrite IH.
  - intros Hs. now rewrite IH.
Qed.

Lemma removeChars_fixed p s :
  Forall (fun c => p c = false) s -> removeChars p s = s.
Proof.
  unfold removeChars. induction 1 as [|c s Hc Hs IH]; [reflexivity|].
  cbn. now rewrite Hc, IH.
Qed.

Lemma titleCaseAscii_trimStart s :
  singleSpaced false s = true ->
  titleCaseAscii true s = s -> titleCaseAscii true (trimStart s) = trimStart s.
Proof.
  unfold trimStart. destruct s as [|c s]; [reflexivity|].
  intros Hsp Hfix. cbn [dropWhile].
  destruct (isWhiteSpace c) eqn:Ew; [|exact Hfix].
  cbn [singleSpaced] in Hsp. rewrite Ew, !andb_true_iff in Hsp.
  destruct Hsp as [[Hc _] Hs].
  apply N.eqb_eq in Hc. subst c. cbn in Hfix. injection Hfix as Hfix.
  destruct s as [|d s]; [reflexivity|].
  cbn [dropWhile]. cbn [singleSpaced] in Hs.
  destruct (isWhiteSpace d) eqn:Ed; [|exact Hfix].
  rewrite !andb_true_iff in Hs. destruct Hs as [[_ ?] _]. discriminate.
Qed.

Lemma titleCaseAscii_trim s :
  singleSpaced false s = true ->
  titleCaseAscii true s = s -> titleCaseAscii true (trim s) = trim s.
Proof.
  intros Hsp Hfix. unfold trim.
  destruct (trimEnd_prefix (trimStart s)) as [w Hw].
  apply titleCaseAscii_fixed_prefix with (v := w). rewrite <- Hw.
  now apply titleCaseAscii_trimStart.
Qed.

(** *** [trim] is idempotent *)

Lemma dropWhile_idem p s : dropWhile p (dropWhile p s) = dropWhile p s.
Proof.
  pose proof (dropWhile_head p s) as Hh.
  destruct (dropWhile p s) as [|c r]; [reflexivity|]. cbn. now rewrite Hh.
Qed.

Lemma trimEnd_idem s : trimEnd (trimEnd s) = trimEnd s.
Proof. unfold trimEnd. now rewrite rev_involutive, dropWhile_idem. Qed.

Lemma trimStart_trimEnd u : trimStart u = u -> trimStart (trimEnd u) = trimEnd u.
Proof.
  intros Hu. destruct (trimEnd_prefix u) as [w Hw].
  destruct (trimEnd u) as [|c r]; [reflexivity|].
  unfold trimStart in *. cbn [dropWhile].
  destruct (isWhiteSpace c) eqn:Ew; [|reflexivity].
  exfalso. rewrite Hw in Hu. cbn [app dropWhile] in Hu. rewrite Ew in Hu.
  pose proof (length_dropWhile isWhiteSpace (r ++ w)) as Hl.
  rewrite Hu in Hl. cbn [length] in Hl. lia.
Qed.

Lemma trim_idem s : trim (trim s) = trim s.
Proof.
  unfold trim.
  rewrite trimStart_trimEnd by (unfold trimStart; apply dropWhile_idem).
  apply trimEnd_idem.
Qed.

(** *** Normal titles *)

Lemma removeChars_removed p s : Forall (fun c => p c = false) (removeChars p s).
Proof.
  unfold removeChars. apply List.Forall_forall. intros c Hin.
  apply filter_In in Hin as [_ Hc]. now apply negb_true_iff.
Qed.

Lemma cleanTitle_spaced s : singleSpaced false (VideoAI.cleanTitle s) = true.
Proof.
  unfold VideoAI.cleanTitle, substring0, collapseWs.
  apply singleSpaced_firstn, collapseWs_go_spaced.
Qed.

Lemma cleanTitle_unmarked s :
  Forall (fun c => VideoAI.isMarker c = false) (VideoAI.cleanTitle s).
Proof.
  unfold VideoAI.cleanTitle, substring0, collapseWs.
  apply Forall_take, Forall_collapseWs_go; [reflexivity|].
  apply removeChars_removed.
Qed.

Lemma normalTitle_trim t : NormalTitle t -> NormalTitle (trim t).
Proof.
  intros [Ha Hm Hs Hl Hc]. split.
  - now apply Forall_trim.
  - now apply Forall_trim.
  - now apply singleSpaced_trim.
  - etransitivity; [apply length_trim|exact Hl].
  - now apply titleCaseAscii_trim.
Qed.

Lemma cleanTitle_normal t : NormalTitle t -> VideoAI.cleanTitle t = trim t.
Proof.
  intros Ht. destruct (normalTitle_trim t Ht) as [_ Hm Hs Hl _].
  unfold VideoAI.cleanTitle, collapseWs.
  rewrite removeChars_fixed by exact Hm.
  rewrite collapseWs_go_fixed by exact Hs.
  now apply substring0_all.
Qed.

Section TitleNormalisation.
Context `{CaseMapping}.

Lemma cleanAndFormatTitle_normal s :
  Forall isAscii s -> NormalTitle (VideoAI.cleanAndFormatTitle s).
Proof.
  intros Hs. rewrite cleanAndFormatTitle_ascii by exact Hs. split.
  - now apply titleCaseAscii_ascii, cleanTitle_ascii.
  - apply titleCaseAscii_unmarked, cleanTitle_unmarked.
  - rewrite titleCaseAscii_spaced. apply cleanTitle_spaced.
  - rewrite length_titleCaseAscii. apply length_substring0.
  - apply titleCaseAscii_idem.
Qed.

(** Normalising a title that already is in normal form only trims it. *)
Lemma cleanAndFormatTitle_of_normal t :
  NormalTitle t -> VideoAI.cleanAndFormatTitle t = trim t.
Proof.
  intros Ht. rewrite cleanAndFormatTitle_ascii by apply Ht.
  rewrite cleanTitle_normal by exact Ht.
  apply (normalTitle_trim t Ht).
Qed.

(** For a title made of ASCII characters the normalised title has at most 60
    characters, and normalising it again yields it with leading and trailing
    white space removed: the same string whenever it neither begins nor ends
    with a space, and always from the second normalisation on. *)
Lemma title_normalisation_ascii title :
  Forall isAscii title ->
  let t := VideoAI.cleanAndFormatTitle title in
  (length t <= 60)%nat
  /\ VideoAI.cleanAndFormatTitle t = trim t
  /\ (trim t = t -> VideoAI.cleanAndFormatTitle t = t)
  /\ VideoAI.cleanAndFormatTitle (VideoAI.cleanAndFormatTitle t)
     = VideoAI.cleanAndFormatTitle t.
Proof.
  intros Ha. cbv zeta.
  pose proof (cleanAndFormatTitle_normal title Ha) as Ht.
  pose proof (cleanAndFormatTitle_of_normal _ Ht) as Hagain.
  split; [apply Ht|]. split; [exact Hagain|]. split.
  - intros Hfix. now rewrite Hagain.
  - rewrite Hagain.
    rewrite (cleanAndFormatTitle_of_normal _ (normalTitle_trim _ Ht)).
    apply trim_idem.
Qed.

End TitleNormalisation.

Example title_normalisation_ascii_example :
  VideoAI.cleanAndFormatTitle (js "  my #1 TIP:   how to @cook  pasta ")
  = js "My 1 Tip: How To Cook Pasta"
  /\ VideoAI.cleanAndFormatTitle (js "My 1 Tip: How To Cook Pasta")
     = js "My 1 Tip: How To Cook Pasta".
Proof.
  assert (Ha : Forall isAscii (js "  my #1 TIP:   how to @cook  pasta ")).
  { unfold isAscii. repeat (constructor; [vm_compute; reflexivity|]). constructor. }
  assert (Ht : VideoAI.cleanAndFormatTitle (js "  my #1 TIP:   how to @cook  pasta ")
               = js "My 1 Tip: How To Cook Pasta") by (vm_compute; reflexivity).
  split; [exact Ht|].
  destruct (title_normalisation_ascii (js "  my #1 TIP:   how to @cook  pasta ") Ha)
    as (_ & _ & Hfix & _).
  rewrite Ht in Hfix. apply Hfix. vm_compute. reflexivity.
Qed.

(** C5: the title normalisation is neither idempotent nor bounded by 60
    characters.  The title is trimmed before the markers are stripped, so
    stripping can uncover a space that only a second pass trims: ["# a"]
    gives [" A"], and [" A"] gives ["A"].  Title Case follows the cut
    ([// Max 60 chars]), so a 60-character title that begins with U+00DF,
    whose upper case is ["SS"], comes out with 61 characters. *)
Theorem cleanAndFormatTitle_failing_inputs :
  VideoAI.cleanAndFormatTitle (js "# a") = js " A"
  /\ VideoAI.cleanAndFormatTitle (js " A") = js "A"
  /\ VideoAI.cleanAndFormatTitle (VideoAI.cleanAndFormatTitle (js "# a"))
     <> VideoAI.cleanAndFormatTitle (js "# a")
  /\ length (repeat 223 60) = 60%nat
  /\ VideoAI.cleanAndFormatTitle (repeat 223 60) = js "SS" ++ repeat 223 59
  /\ length (VideoAI.cleanAndFormatTitle (repeat 223 60)) = 61%nat.
Proof.
  vm_compute. repeat split. discriminate.
Qed.
(** * Further properties *)

(** ** [validateCategory]: what it can return *)

Lemma plain_not_whitespace c : isPlain c = true -> isWhiteSpace c = false.
Proof. intros Hc. char_facts. Qed.

Lemma lower_plain_inv c : isPlain (lowerAscii c) = true -> isPlain c = true.
Proof.
  unfold lowerAscii. destruct (isUpperAscii c) eqn:E; [|exact id].
  intros _. char_facts.
Qed.

Lemma lowerAscii_upperAscii c : lowerAscii (upperAscii c) = lowerAscii c.
Proof. char_facts. Qed.

Lemma FIXED_CATEGORIES_plain : Forall PlainWord AI.FIXED_CATEGORIES.
Proof.
  unfold AI.FIXED_CATEGORIES, PlainWord.
  repeat (constructor; [repeat (constructor; [vm_compute; reflexivity|]); constructor|]).
  constructor.
Qed.

Lemma plainWord_spaced w : PlainWord w -> SpacedText w.
Proof.
  intros Hw. eapply List.Forall_impl; [|exact Hw]. intros c Hc. now right.
Qed.

Section CategoryOutput.
Context `{CaseMapping}.

(** The category that comes out has at least two characters and is made of
    plain words separated by single U+0020. *)
Lemma validateCategory_spaced_text category :
  (2 <= length (AI.validateCategory category))%nat
  /\ SpacedText (AI.validateCategory category).
Proof.
  assert (Hgeneral : (2 <= length (js "General"))%nat /\ SpacedText (js "General")).
  { split; [vm_compute; lia|].
    unfold SpacedText. repeat (constructor; [right; vm_compute; reflexivity|]).
    constructor. }
  unfold AI.validateCategory. destruct category as [|c category]; [exact Hgeneral|].
  cbv zeta. destruct (find _ AI.FIXED_CATEGORIES) as [fixedMatch|] eqn:Ef.
  - apply find_some in Ef as [Hin _].
    pose proof FIXED_CATEGORIES_ascii as Hlen.
    pose proof FIXED_CATEGORIES_plain as Hplain.
    rewrite List.Forall_forall in Hlen, Hplain. split.
    + apply (Hlen fixedMatch Hin).
    + apply plainWord_spaced, (Hplain fixedMatch Hin).
  - destruct (bool_decide _ || (_ <? 2)%nat) eqn:Eb; [exact Hgeneral|].
    apply orb_false_iff in Eb as [_ Eb]. apply Nat.ltb_ge in Eb.
    split; [exact Eb|apply cleanCategory_spaced].
Qed.

(** X1: whatever the input, the category that comes out has at least two
    characters and consists of letters, digits, underscores, hyphens and
    U+0020 only. *)
Theorem validateCategory_sanitised category :
  (2 <= length (AI.validateCategory category))%nat
  /\ Forall (fun c => c = 32 \/ isWordChar c = true \/ c = 45)
            (AI.validateCategory category).
Proof.
  destruct (validateCategory_spaced_text category) as [Hlen Hspaced].
  split; [exact Hlen|].
  eapply List.Forall_impl; [|exact Hspaced].
  intros c [->|Hc]; [now left|right].
  unfold isPlain in Hc. apply orb_true_iff in Hc as [Hc|Hc]; [now left|right].
  now apply N.eqb_eq in Hc.
Qed.

End CategoryOutput.

(** *** Re-cased canonical names *)

Lemma trimStart_head c s : isWhiteSpace c = false -> trimStart (c :: s) = c :: s.
Proof. intros Hc. unfold trimStart. cbn [dropWhile]. now rewrite Hc. Qed.

Lemma trim_no_whitespace s :
  Forall (fun c => isWhiteSpace c = false) s -> trim s = s.
Proof.
  intros Hs. unfold trim.
  assert (Hstart : trimStart s = s)
    by (destruct Hs as [|c s Hc Hs]; [reflexivity|now apply trimStart_head]).
  rewrite Hstart. unfold trimEnd.
  apply Forall_rev in Hs. rewrite <- (rev_involutive s) at 2.
  f_equal. destruct Hs as [|c r Hc Hr]; [reflexivity|].
  cbn [dropWhile]. now rewrite Hc.
Qed.

Lemma splitWs_go_no_whitespace inRun cur s :
  Forall (fun c => isWhiteSpace c = false) s -> s <> [] ->
  splitWs_go inRun cur s = [cur ++ s].
Proof.
  intros Hs. revert inRun cur.
  induction Hs as [|c s Hc Hs IH]; intros inRun cur Hne; [now contradiction Hne|].
  cbn [splitWs_go]. rewrite Hc. destruct s as [|d s].
  - reflexivity.
  - rewrite IH by discriminate. now rewrite <- app_assoc.
Qed.

Lemma splitWs_word w :
  PlainWord w -> w <> [] -> splitWs w = [w].
Proof.
  intros Hw Hne. unfold splitWs. rewrite splitWs_go_no_whitespace; [reflexivity| |exact Hne].
  eapply List.Forall_impl; [|exact Hw]. intros c. apply plain_not_whitespace.
Qed.

Section Recased.
Context `{CaseMapping}.

Lemma titleCaseWord_nonempty w : PlainWord w -> w <> [] -> AI.titleCaseWord w <> [].
Proof.
  intros Hw Hne. rewrite titleCaseWord_plain by exact Hw.
  destruct w as [|c w]; [now contradiction Hne|discriminate].
Qed.

(** A single word of plain characters is only Title-Cased by the clean-up. *)
Lemma cleanCategory_word w :
  PlainWord w -> w <> [] -> AI.cleanCategory w = AI.titleCaseWord w.
Proof.
  intros Hw Hne. unfold AI.cleanCategory.
  rewrite trim_no_whitespace
    by (eapply List.Forall_impl; [|exact Hw]; intros c; apply plain_not_whitespace).
  rewrite removeChars_fixed.
  2: { eapply List.Forall_impl; [|exact Hw]. intros c Hc.
       unfold AI.disallowed. apply negb_false_iff.
       unfold isPlain in Hc. apply orb_true_iff in Hc as [Hc|Hc];
         rewrite Hc; [reflexivity|]. now rewrite orb_true_r. }
  rewrite (splitWs_word w) by assumption. cbn [map join].
  rewrite splitWs_word
    by (first [now apply titleCaseWord_keeps_plain|now apply titleCaseWord_nonempty]).
  reflexivity.
Qed.

Lemma titleCaseWord_lower w :
  PlainWord w ->
  map lowerAscii (AI.titleCaseWord w) = map lowerAscii w.
Proof.
  intros Hw. rewrite titleCaseWord_plain by exact Hw.
  rewrite map_app, !map_map.
  rewrite (map_ext _ lowerAscii lowerAscii_upperAscii).
  rewrite (map_ext (fun c => lowerAscii (lowerAscii c)) lowerAscii lowerAscii_idem).
  now rewrite <- map_app, firstn_skipn.
Qed.

Lemma find_fixed_self fixed :
  In fixed AI.FIXED_CATEGORIES ->
  find (fun f => bool_decide (map lowerAscii f = map lowerAscii fixed))
       AI.FIXED_CATEGORIES = Some fixed.
Proof.
  unfold AI.FIXED_CATEGORIES. cbn [In].
  intros Hin.
  repeat (destruct Hin as [<-|Hin]; [vm_compute; reflexivity|]).
  destruct Hin.
Qed.

Lemma find_fixed_ascii cleaned :
  Forall isAscii cleaned ->
  find (fun fixed => bool_decide (toLowerCase fixed = toLowerCase cleaned))
       AI.FIXED_CATEGORIES
  = find (fun fixed => bool_decide (map lowerAscii fixed = map lowerAscii cleaned))
         AI.FIXED_CATEGORIES.
Proof.
  intros Ha. generalize FIXED_CATEGORIES_ascii.
  induction 1 as [|fixed rest [Hfa _] _ IH]; [reflexivity|].
  cbn [find]. rewrite IH. now rewrite !toLowerCase_ascii.
Qed.

(** X2: the canonical match ignores case: any re-casing of a canonical
    category (an ASCII string with the same lower-case form) is mapped to the
    canonical spelling. *)
Theorem validateCategory_recased fixed category :
  In fixed AI.FIXED_CATEGORIES ->
  map lowerAscii category = map lowerAscii fixed ->
  AI.validateCategory category = fixed.
Proof.
  intros Hin Hlow.
  assert (Hfixed : PlainWord fixed /\ (2 <= length fixed)%nat).
  { pose proof FIXED_CATEGORIES_plain as Hp. pose proof FIXED_CATEGORIES_ascii as Hl.
    rewrite List.Forall_forall in Hp, Hl. split; [now apply Hp|now apply Hl]. }
  destruct Hfixed as [Hplain Hlen].
  assert (Hw : PlainWord category).
  { unfold PlainWord. apply List.Forall_forall. intros c Hc.
    apply lower_plain_inv.
    assert (Hin' : In (lowerAscii c) (map lowerAscii fixed))
      by (rewrite <- Hlow; now apply in_map).
    apply in_map_iff in Hin' as (d & <- & Hd).
    apply plain_lower. unfold PlainWord in Hplain.
    rewrite List.Forall_forall in Hplain. now apply Hplain. }
  assert (Hne : category <> []).
  { intros ->. apply (f_equal (@length N)) in Hlow.
    rewrite !length_map in Hlow. cbn in Hlow. lia. }
  unfold AI.validateCategory. destruct category as [|c0 rest]; [now contradiction Hne|].
  cbv zeta. rewrite cleanCategory_word by assumption.
  rewrite find_fixed_ascii
    by (apply plainWord_ascii; now apply titleCaseWord_keeps_plain).
  rewrite titleCaseWord_lower by exact Hw. rewrite Hlow.
  now rewrite find_fixed_self.
Qed.

End Recased.

Lemma validateCategory_recased_witness :
  AI.validateCategory (js "sElF-iMpRoVeMeNt") = js "Self-Improvement".
Proof.
  apply validateCategory_recased.
  - vm_compute. do 5 right. now left.
  - vm_compute. reflexivity.
Defined.

(** ** [validateSummary]: bounds and what the clean-up removes *)

Lemma orElse_default a b : b <> [] -> orElse a b <> [].
Proof. destruct a; [exact id|discriminate]. Qed.

Lemma capSummary_at_most_203 cleaned : (length (AI.capSummary cleaned) <= 203)%nat.
Proof.
  unfold AI.capSummary.
  destruct (200 <? length cleaned)%nat eqn:El.
  2: { apply Nat.ltb_ge in El. lia. }
  cbv zeta.
  set (truncated := substring0 200 cleaned).
  assert (Ht : (length truncated <= 200)%nat) by apply length_substring0.
  destruct (50 <? _)%Z.
  - etransitivity; [apply length_substring0|].
    pose proof (lastIndexOf_lt 46 truncated).
    pose proof (lastIndexOf_lt 33 truncated).
    pose proof (lastIndexOf_lt 63 truncated). lia.
  - destruct (50 <? lastIndexOf 32 truncated)%Z.
    + rewrite length_app. pose proof (length_substring0 (Z.to_nat (lastIndexOf 32 truncated)) cleaned).
      pose proof (lastIndexOf_lt 32 truncated). cbn [length js]. cbn. lia.
    + rewrite length_app. cbn. lia.
Qed.

Section SummaryBounds.
Context `{CaseMapping}.

(** X3: the normalised summary is never empty and never longer than 203
    characters (200 plus an appended ellipsis). *)
Theorem validateSummary_bounds summary title content :
  AI.validateSummary summary title content <> []
  /\ (length (AI.validateSummary summary title content) <= 203)%nat.
Proof.
  unfold AI.validateSummary. destruct summary as [|c summary].
  - split; [apply orElse_default; discriminate|].
    apply length_orElse; [|vm_compute; lia].
    etransitivity; [apply length_trim|].
    etransitivity; [apply length_substring0|]. lia.
  - cbv zeta. split; [apply orElse_default; discriminate|].
    apply length_orElse; [apply capSummary_at_most_203|vm_compute; lia].
Qed.

End SummaryBounds.

(** *** Characters that never survive [cleanSummary] *)

Lemma Forall_takeWhile (P : N -> Prop) p s : Forall P s -> Forall P (takeWhile p s).
Proof.
  induction 1 as [|c s Hc Hs IH]; cbn; [constructor|].
  destruct (p c); [now constructor|constructor].
Qed.

Lemma Forall_removeAll_go (P : N -> Prop) pat skip s :
  Forall P s -> Forall P (removeAll_go pat skip s).
Proof.
  intros Hs. revert skip.
  induction Hs as [|c s Hc Hs IH]; intros skip; cbn [removeAll_go]; [constructor|].
  destruct skip; [|apply IH].
  destruct (startsWith pat (c :: s)); [apply IH|constructor; [exact Hc|apply IH]].
Qed.

Lemma Forall_removeAll (P : N -> Prop) pat s :
  Forall P s -> Forall P (removeAll pat s).
Proof. apply Forall_removeAll_go. Qed.

Lemma Forall_removeRange_go (P : N -> Prop) lo hi skip s :
  Forall P s -> Forall P (AI.removeRange_go lo hi skip s).
Proof.
  intros Hs. revert skip.
  induction Hs as [|c s Hc Hs IH]; intros skip; cbn [AI.removeRange_go]; [constructor|].
  destruct skip; [apply IH|].
  destruct s as [|d s].
  - destruct (_ && _); [constructor|now constructor].
  - repeat match goal with
      | |- context [if ?b then _ else _] => destruct b
      end; first [apply IH | constructor; [exact Hc|apply IH]].
Qed.

Lemma Forall_removeRange (P : N -> Prop) lo hi s :
  Forall P s -> Forall P (AI.removeRange lo hi s).
Proof. apply Forall_removeRange_go. Qed.

Lemma matchLink_text s text covered :
  AI.matchLink s = Some (text, covered) ->
  text = takeWhile (fun c => negb (c =? 93)) s.
Proof.
  unfold AI.matchLink. cbv zeta.
  destruct (takeWhile (fun c => negb (c =? 93)) s) as [|t0 t] eqn:Et; [discriminate|].
  intros Hm.
  repeat match type of Hm with
    | context [match ?x with _ => _ end] => destruct x; try discriminate
    end.
  now injection Hm as <- _.
Qed.

Lemma Forall_replaceLinks_go (P : N -> Prop) skip s :
  Forall P s -> Forall P (AI.replaceLinks_go skip s).
Proof.
  intros Hs. revert skip.
  induction Hs as [|c s Hc Hs IH]; intros skip; cbn [AI.replaceLinks_go]; [constructor|].
  destruct skip; [|apply IH].
  destruct (c =? 91); [|constructor; [exact Hc|apply IH]].
  destruct (AI.matchLink s) as [[text covered]|] eqn:Em;
    [|constructor; [exact Hc|apply IH]].
  apply Forall_app. split; [|apply IH].
  rewrite (matchLink_text _ _ _ Em). now apply Forall_takeWhile.
Qed.

Lemma Forall_replaceLinks (P : N -> Prop) s :
  Forall P s -> Forall P (AI.replaceLinks s).
Proof. apply Forall_replaceLinks_go. Qed.

Lemma removeAll_single c s : Forall (fun d => d <> c) (removeAll [c] s).
Proof.
  unfold removeAll. induction s as [|d s IH]; cbn [removeAll_go]; [constructor|].
  cbn [startsWith length Nat.sub]. destruct (c =? d) eqn:E; cbn [andb].
  - exact IH.
  - apply N.eqb_neq in E. constructor; [congruence|exact IH].
Qed.

Lemma removeRange_clears lo hi s :
  hi < 55296 ->
  forall skip, Forall (fun c => ~ (lo <= c <= hi)) (AI.removeRange_go lo hi skip s).
Proof.
  intros Hhi. induction s as [|c s IH]; intros skip; cbn [AI.removeRange_go];
    [constructor|].
  destruct skip; [apply IH|].
  destruct s as [|d s].
  - destruct ((lo <=? c) && (c <=? hi)) eqn:E; [constructor|].
    constructor; [|constructor].
    apply andb_false_iff in E. rewrite N.leb_gt, N.leb_gt in E. lia.
  - destruct (AI.isHighSurrogate c && AI.isLowSurrogate d) eqn:Ep.
    + destruct ((lo <=? AI.codePoint c d) && (AI.codePoint c d <=? hi));
        [apply IH|]. constructor; [|apply IH].
      apply andb_true_iff in Ep as [Ep _]. unfold AI.isHighSurrogate in Ep.
      apply andb_true_iff in Ep as [Ep _]. apply N.leb_le in Ep. lia.
    + destruct ((lo <=? c) && (c <=? hi)) eqn:E; [apply IH|].
      constructor; [|apply IH].
      apply andb_false_iff in E. rewrite N.leb_gt, N.leb_gt in E. lia.
Qed.

(** X4: the cleaned summary contains no asterisk, underscore or backquote
    and no character of the blocks U+2600..U+27BF (miscellaneous symbols and
    dingbats). *)
Theorem cleanSummary_strips summary :
  Forall (fun c => c <> 42 /\ c <> 95 /\ c <> 96 /\ ~ (9728 <= c <= 10175))
         (AI.cleanSummary summary).
Proof.
  unfold AI.cleanSummary. cbv zeta.
  change (js "*") with [42]. change (js "_") with [95]. change (js "`") with [96].
  set (t := trim summary).
  assert (H42 : Forall (fun c => c <> 42)
            (AI.replaceLinks (removeAll [96] (removeAll [95] (removeAll (js "__")
               (removeAll [42] (removeAll (js "**")
                  (AI.removeRange 9984 10175 (AI.removeRange 9728 9983
                     (AI.removeRange 128640 128767 (AI.removeRange 128512 128591
                        (AI.removeRange 127744 129535 t)))))))))))).
  { do 1 apply Forall_replaceLinks. do 3 apply Forall_removeAll.
    apply removeAll_single. }
  assert (H95 : Forall (fun c => c <> 95)
            (AI.replaceLinks (removeAll [96] (removeAll [95] (removeAll (js "__")
               (removeAll [42] (removeAll (js "**")
                  (AI.removeRange 9984 10175 (AI.removeRange 9728 9983
                     (AI.removeRange 128640 128767 (AI.removeRange 128512 128591
                        (AI.removeRange 127744 129535 t)))))))))))).
  { apply Forall_replaceLinks, Forall_removeAll, removeAll_single. }
  assert (H96 : Forall (fun c => c <> 96)
            (AI.replaceLinks (removeAll [96] (removeAll [95] (removeAll (js "__")
               (removeAll [42] (removeAll (js "**")
                  (AI.removeRange 9984 10175 (AI.removeRange 9728 9983
                     (AI.removeRange 128640 128767 (AI.removeRange 128512 128591
                        (AI.removeRange 127744 129535 t)))))))))))).
  { apply Forall_replaceLinks, removeAll_single. }
  assert (Hlo : Forall (fun c => ~ (9728 <= c <= 9983))
            (AI.replaceLinks (removeAll [96] (removeAll [95] (removeAll (js "__")
               (removeAll [42] (removeAll (js "**")
                  (AI.removeRange 9984 10175 (AI.removeRange 9728 9983
                     (AI.removeRange 128640 128767 (AI.removeRange 128512 128591
                        (AI.removeRange 127744 129535 t)))))))))))).
  { apply Forall_replaceLinks. do 5 apply Forall_removeAll.
    apply Forall_removeRange. apply removeRange_clears. lia. }
  assert (Hhi : Forall (fun c => ~ (9984 <= c <= 10175))
            (AI.replaceLinks (removeAll [96] (removeAll [95] (removeAll (js "__")
               (removeAll [42] (removeAll (js "**")
                  (AI.removeRange 9984 10175 (AI.removeRange 9728 9983
                     (AI.removeRange 128640 128767 (AI.removeRange 128512 128591
                        (AI.removeRange 127744 129535 t)))))))))))).
  { apply Forall_replaceLinks. do 5 apply Forall_removeAll.
    apply removeRange_clears. lia. }
  pose proof (List.Forall_and H42 (List.Forall_and H95
                (List.Forall_and H96 (List.Forall_and Hlo Hhi)))) as Hall.
  eapply List.Forall_impl; [|exact Hall].
  cbv beta. intros c (? & ? & ? & ? & ?). repeat split; try assumption. lia.
Qed.

(** ** The model loops: which calls are made and what comes back *)

Lemma singleton_split {A} (before : list A) m after x :
  [x] = before ++ m :: after -> before = [] /\ m = x /\ after = [].
Proof.
  destruct before as [|b before]; cbn.
  - intros [= -> <-]. now repeat split.
  - intros [= _ Hrest]. destruct before; discriminate.
Qed.

Section VideoLoopShape.
Variables (attempt : VideoAI.TryBlock) (prompt : jsstring).

Let request (m : jsstring) : VideoAI.ChatRequest :=
  {| VideoAI.model := m; VideoAI.userContent := prompt; VideoAI.max_tokens := 3000 |}.

(** The loop over a non-empty list: the calls made, and the result as fixed by
    the last call. *)
Lemma video_tryModels_last ms :
  ms <> [] -> forall r called,
  VideoAI.tryModels attempt prompt ms = (r, called) ->
  exists before m rest,
    ms = before ++ m :: rest
    /\ called = before ++ [m]
    /\ Forall (fun m' => exists e, attempt (request m') = inl e /\ ModelClassError e)
              before
    /\ match attempt (request m) with
       | inr a => r = Some a
       | inl e => r = None /\ (ModelClassError e -> rest = [])
       end.
Proof.
  induction ms as [|m ms IH]; [intros Hne; now contradiction Hne|].
  intros _ r called. cbn [VideoAI.tryModels]. fold (request m).
  destruct (attempt (request m)) as [e|a] eqn:Ea.
  - destruct (isModelError e) eqn:Em.
    + destruct ms as [|m1 ms].
      * cbn [VideoAI.tryModels]. intros [= <- <-].
        exists [], m, []. rewrite Ea. now repeat split.
      * destruct (VideoAI.tryModels attempt prompt (m1 :: ms)) as [r' called'] eqn:Er.
        intros [= <- <-].
        destruct (IH ltac:(discriminate) _ _ eq_refl)
          as (before & m' & rest & Hms & -> & Hbefore & Hlast).
        exists (m :: before), m', rest.
        split; [cbn; now rewrite Hms|]. split; [reflexivity|].
        split; [|exact Hlast].
        constructor; [|exact Hbefore].
        exists e. split; [exact Ea|]. now apply isModelError_spec.
    + intros [= <- <-]. exists [], m, ms. rewrite Ea.
      split; [reflexivity|]. split; [reflexivity|]. split; [constructor|].
      split; [reflexivity|].
      intros He. apply isModelError_spec in He. congruence.
  - intros [= <- <-]. exists [], m, ms. rewrite Ea. now repeat split.
Qed.

End VideoLoopShape.

(** X5: once the API key is set [transformVideoContent] never raises and
    calls at least one model.  The models it calls are the first ones of the
    model list, in order: [called = before ++ [m]] with
    [models = before ++ m :: rest].  Every model before the last called one
    failed with a model-class error, and the outcome of the last call fixes the
    result: a success is returned unchanged (so the loop stops at the first
    success); a failure gives the terminal fallback, and when that failure is
    of the model class the list was exhausted ([rest = []]). *)
Theorem transformVideoContent_calls attempt key transcript url result called :
  key <> [] ->
  VideoAI.transformVideoContent (Some key) attempt transcript url = (result, called) ->
  exists before m rest,
    VideoAI.models = before ++ m :: rest
    /\ called = before ++ [m]
    /\ Forall (fun m' => exists e, attempt (videoRequest transcript url m') = inl e
                                   /\ ModelClassError e) before
    /\ match attempt (videoRequest transcript url m) with
       | inr analysis => result = inr analysis
       | inl e =>
           result = inr (VideoAI.terminalFallback transcript)
           /\ (ModelClassError e -> rest = [])
       end.
Proof.
  intros Hkey. unfold VideoAI.transformVideoContent.
  destruct key as [|k key]; [now contradiction Hkey|].
  destruct (VideoAI.tryModels attempt _ VideoAI.models) as [r called'] eqn:Er.
  destruct (video_tryModels_last attempt (VideoAI.userPrompt transcript url)
              VideoAI.models ltac:(discriminate) _ _ Er)
    as (before & m & rest & Hms & Hcalled & Hbefore & Hlast).
  intros Hres.
  assert (Hboth : called' = called
                  /\ result = match r with
                              | Some a => inr a
                              | None => inr (VideoAI.terminalFallback transcript)
                              end)
    by (destruct r; injection Hres as <- <-; now split).
  destruct Hboth as [<- ->]. exists before, m, rest.
  split; [exact Hms|]. split; [exact Hcalled|]. split; [exact Hbefore|].
  unfold videoRequest.
  destruct (attempt _) as [e|a].
  - destruct Hlast as [-> Hrest]. now split.
  - now subst r.
Qed.

Lemma transformVideoContent_calls_witness :
  VideoAI.transformVideoContent Samples.apiKey Samples.videoSecondAnswers
    (js "Preheat oven to 350F.") Samples.reelUrl
  = (inr Samples.ovenAnalysis, [js "gpt-4o-mini"; js "gpt-4-turbo"]).
Proof.
  assert (Hkey : js "sk-test" <> []) by (vm_compute; discriminate).
  change Samples.apiKey with (Some (js "sk-test")).
  destruct (VideoAI.transformVideoContent _ _ _ _) as [result called] eqn:E.
  destruct (transformVideoContent_calls _ _ _ _ _ _ Hkey E)
    as (before & m & rest & Hms & Hcalled & Hbefore & Hlast).
  destruct before as [|b0 [|b1 [|b2 before]]]; cbn in Hms.
  - injection Hms as <- <-. exfalso. vm_compute in Hlast.
    destruct Hlast as [_ Hrest]. discriminate Hrest. vm_compute. tauto.
  - injection Hms as <- <- <-. vm_compute in Hlast.
    rewrite Hcalled, Hlast. vm_compute. reflexivity.
  - exfalso. injection Hms as <- <- <- <-.
    apply Forall_cons_1 in Hbefore as [_ Hbefore].
    apply Forall_cons_1 in Hbefore as [(e & He & _) _].
    vm_compute in He. discriminate He.
  - exfalso. injection Hms as _ _ _ Hms. destruct before; discriminate Hms.
Defined.

Section AiLoopShape.
Variable attempt : AI.TryBlock.

Lemma ai_tryModels_shape ms : forall r called,
  AI.tryModels attempt ms = (r, called) ->
  (exists rest, ms = called ++ rest)
  /\ (forall before m after,
         called = before ++ m :: after -> after <> [] ->
         exists e, attempt m = inl e /\ ModelClassError e)
  /\ match r with
     | Some a => exists before m, called = before ++ [m] /\ attempt m = inr a
     | None => True
     end.
Proof.
  induction ms as [|m ms IH]; intros r called; cbn [AI.tryModels].
  - intros [= <- <-]. split; [now exists []|]. split; [|exact I].
    intros [|? ?] ? ? ?; discriminate.
  - destruct (attempt m) as [e|a] eqn:Ea.
    + destruct (isModelError e) eqn:Em.
      * destruct (AI.tryModels attempt ms) as [r' called'] eqn:Er.
        intros [= <- <-].
        destruct (IH _ _ eq_refl) as ([rest ->] & Hfail & Hres).
        split; [now exists rest|]. split.
        -- intros [|b before] m' after Hsplit Hne.
           ++ injection Hsplit as <- _. exists e. split; [exact Ea|].
              now apply isModelError_spec.
           ++ injection Hsplit as _ Hsplit. now apply (Hfail before m' after).
        -- destruct r' as [a|]; [|exact I].
           destruct Hres as (before & m' & -> & Hm').
           now exists (m :: before), m'.
      * intros [= <- <-]. split; [now exists ms|]. split; [|exact I].
        intros before m' after Hsplit Hne.
        apply singleton_split in Hsplit as (_ & _ & ->). now contradiction Hne.
    + intros [= <- <-]. split; [now exists ms|]. split.
      * intros before m' after Hsplit Hne.
        apply singleton_split in Hsplit as (_ & _ & ->). now contradiction Hne.
      * now exists [], m.
Qed.

(** The loop over a non-empty list: the calls made, and the result as fixed by
    the last call. *)
Lemma ai_tryModels_last ms :
  ms <> [] -> forall r called,
  AI.tryModels attempt ms = (r, called) ->
  exists before m rest,
    ms = before ++ m :: rest
    /\ called = before ++ [m]
    /\ Forall (fun m' => exists e, attempt m' = inl e /\ ModelClassError e) before
    /\ match attempt m with
       | inr a => r = Some a
       | inl e => r = None /\ (ModelClassError e -> rest = [])
       end.
Proof.
  induction ms as [|m ms IH]; [intros Hne; now contradiction Hne|].
  intros _ r called. cbn [AI.tryModels].
  destruct (attempt m) as [e|a] eqn:Ea.
  - destruct (isModelError e) eqn:Em.
    + destruct ms as [|m1 ms].
      * cbn [AI.tryModels]. intros [= <- <-].
        exists [], m, []. rewrite Ea. now repeat split.
      * destruct (AI.tryModels attempt (m1 :: ms)) as [r' called'] eqn:Er.
        intros [= <- <-].
        destruct (IH ltac:(discriminate) _ _ eq_refl)
          as (before & m' & rest & Hms & -> & Hbefore & Hlast).
        exists (m :: before), m', rest.
        split; [cbn; now rewrite Hms|]. split; [reflexivity|].
        split; [|exact Hlast].
        constructor; [|exact Hbefore].
        exists e. split; [exact Ea|]. now apply isModelError_spec.
    + intros [= <- <-]. exists [], m, ms. rewrite Ea.
      split; [reflexivity|]. split; [reflexivity|]. split; [constructor|].
      split; [reflexivity|].
      intros He. apply isModelError_spec in He. congruence.
  - intros [= <- <-]. exists [], m, ms. rewrite Ea. now repeat split.
Qed.

End AiLoopShape.

(** X6: [analyzeContent] makes no model call without a client or an API key
    and then returns the fallback analysis.  With both it calls at least one
    model; the models it calls are the first ones of the model list, in order:
    [called = before ++ [m]] with [models = before ++ m :: rest].  Every model
    before the last called one failed with a model-class error, and the outcome
    of the last call fixes the result: a success is returned unchanged (so the
    loop stops at the first success); a failure gives the fallback analysis,
    and when that failure is of the model class the list was exhausted
    ([rest = []]). *)
Theorem analyzeContent_calls client apiKey attempt title content result called :
  AI.analyzeContent client apiKey attempt title content = (result, called) ->
  (client && apiKey = false ->
   result = AI.fallbackAnalysis title content /\ called = [])
  /\ (client && apiKey = true ->
      exists before m rest,
        AI.models = before ++ m :: rest
        /\ called = before ++ [m]
        /\ Forall (fun m' => exists e, attempt m' = inl e /\ ModelClassError e) before
        /\ match attempt m with
           | inr analysis => result = analysis
           | inl e =>
               result = AI.fallbackAnalysis title content
               /\ (ModelClassError e -> rest = [])
           end).
Proof.
  unfold AI.analyzeContent.
  destruct client; cbn [negb andb].
  2: { intros [= <- <-]. split; [now split|discriminate]. }
  destruct apiKey; cbn [negb].
  2: { intros [= <- <-]. split; [now split|discriminate]. }
  destruct (AI.tryModels attempt AI.models) as [r called'] eqn:Er.
  destruct (ai_tryModels_last attempt AI.models ltac:(discriminate) _ _ Er)
    as (before & m & rest & Hms & Hcalled & Hbefore & Hlast).
  intros Hres. split; [discriminate|]. intros _.
  assert (Hboth : called' = called
                  /\ result = match r with
                              | Some a => a
                              | None => AI.fallbackAnalysis title content
                              end)
    by (destruct r; injection Hres as <- <-; now split).
  destruct Hboth as [<- ->]. exists before, m, rest.
  split; [exact Hms|]. split; [exact Hcalled|]. split; [exact Hbefore|].
  destruct (attempt m) as [e|a].
  - destruct Hlast as [-> Hrest]. now split.
  - now subst r.
Qed.

Lemma analyzeContent_calls_witness :
  AI.analyzeContent true true Samples.aiSecondAnswers (js "A title") None
  = (Samples.noteAnalysis, [js "gpt-4o-mini"; js "gpt-4-turbo"]).
Proof.
  destruct (AI.analyzeContent _ _ _ _ _) as [result called] eqn:E.
  destruct (analyzeContent_calls _ _ _ _ _ _ _ E) as [_ Hloop].
  destruct (Hloop eq_refl)
    as (before & m & rest & Hms & Hcalled & Hbefore & Hlast).
  destruct before as [|b0 [|b1 [|b2 before]]]; cbn in Hms.
  - injection Hms as <- <-. exfalso. vm_compute in Hlast.
    destruct Hlast as [_ Hrest]. discriminate Hrest. vm_compute. tauto.
  - injection Hms as <- <- <-. vm_compute in Hlast.
    rewrite Hcalled, Hlast. vm_compute. reflexivity.
  - exfalso. injection Hms as <- <- <- <-.
    apply Forall_cons_1 in Hbefore as [_ Hbefore].
    apply Forall_cons_1 in Hbefore as [(e & He & _) _].
    vm_compute in He. discriminate He.
  - exfalso. injection Hms as _ _ _ Hms. destruct before; discriminate Hms.
Defined.
(** ** The terminal fallback and the normalised title *)

Lemma orElse_cases a b : orElse a b = a \/ orElse a b = b.
Proof. destruct a; [now right|now left]. Qed.

(** X7: the terminal fallback's title is the text before the first period
    among the first 50 characters of the transcript, trimmed, or "Video" when
    that is empty; it is never empty, has at most 50 characters, contains no
    period and has no white space at either end.  The fallback's
    summary is [transcript.substring(0, 200)], the transcript's first 200
    characters: what is left of the transcript after it is the transcript
    without its first 200 characters.  Its category is "General" and its
    content is of type [general], without blocks. *)
Theorem terminalFallback_shape transcript :
  let r := VideoAI.terminalFallback transcript in
  VideoAI.title r = trimmedFirstSentence transcript
  /\ VideoAI.title r <> []
  /\ (length (VideoAI.title r) <= 50)%nat
  /\ Forall (fun c => c <> 46) (VideoAI.title r)
  /\ trim (VideoAI.title r) = VideoAI.title r
  /\ VideoAI.summary r = substring0 200 transcript
  /\ (length (VideoAI.summary r) <= 200)%nat
  /\ transcript = VideoAI.summary r ++ skipn 200 transcript
  /\ VideoAI.category r = js "General"
  /\ VideoAI.structuredContent r
     = {| VideoAI.type := VideoAI.general; VideoAI.recipeBlock := None;
          VideoAI.workoutBlock := None; VideoAI.tutorialBlock := None |}.
Proof.
  cbv zeta. rewrite terminalFallback_title. split; [reflexivity|].
  unfold trimmedFirstSentence.
  set (sentence := trim (textBefore 46 (substring0 50 transcript))).
  assert (Hlen : (length sentence <= 50)%nat).
  { subst sentence. etransitivity; [apply length_trim|].
    etransitivity; [apply length_takeWhile|]. apply length_substring0. }
  assert (Hdot : Forall (fun c => c <> 46) sentence).
  { subst sentence. apply Forall_trim.
    eapply List.Forall_impl; [|apply takeWhile_all].
    intros c Hc. apply negb_true_iff, N.eqb_neq in Hc. exact Hc. }
  split; [apply orElse_default; discriminate|].
  split; [apply length_orElse; [exact Hlen|vm_compute; lia]|].
  split.
  { destruct (orElse_cases sentence (js "Video")) as [-> | ->]; [exact Hdot|].
    repeat (constructor; [vm_compute; discriminate|]). constructor. }
  split.
  { destruct (orElse_cases sentence (js "Video")) as [-> | ->].
    - subst sentence. apply trim_idem.
    - vm_compute. reflexivity. }
  cbn [VideoAI.summary VideoAI.terminalFallback].
  split; [reflexivity|].
  split; [apply length_substring0|].
  split; [unfold substring0; now rewrite firstn_skipn|].
  split; reflexivity.
Qed.

Section TitleShape.
Context `{CaseMapping}.

(** X8: for an ASCII title, the normalised title is ASCII, contains neither
    '#' nor '@', has single U+0020 characters as its only white space, and is
    in Title Case (every character after a space or at the start is not a
    lower-case letter, every other letter is not upper-case). *)
Theorem cleanAndFormatTitle_shape title :
  Forall isAscii title ->
  let t := VideoAI.cleanAndFormatTitle title in
  Forall isAscii t
  /\ Forall (fun c => c <> 35 /\ c <> 64) t
  /\ singleSpaced false t = true
  /\ titleCaseAscii true t = t.
Proof.
  intros Ha. cbv zeta.
  destruct (cleanAndFormatTitle_normal title Ha) as [Hascii Hmark Hsp _ Hcase].
  split; [exact Hascii|]. split; [|now split].
  eapply List.Forall_impl; [|exact Hmark].
  intros c Hc. unfold VideoAI.isMarker in Hc.
  apply orb_false_iff in Hc as [H35 H64]. apply N.eqb_neq in H35, H64. now split.
Qed.

End TitleShape.

Lemma cleanAndFormatTitle_shape_witness :
  singleSpaced false
    (VideoAI.cleanAndFormatTitle (js "  my #1 TIP:   how to @cook  pasta "))
  = true.
Proof.
  refine (proj1 (proj2 (proj2 (cleanAndFormatTitle_shape _ _)))).
  unfold isAscii. repeat (constructor; [vm_compute; reflexivity|]). constructor.
Defined.

(** ** Recipe repair: stability *)

Section RecipeStability.
Implicit Types (o : gmap jsstring JValue) (key : jsstring).

Lemma ensureArray_isArray key o :
  isArray (VideoAI.ensureArray key o !! key) = true.
Proof.
  rewrite ensureArray_same. now destruct (isArray (o !! key)) eqn:E.
Qed.

Lemma ensureArray_id key o :
  isArray (o !! key) = true -> VideoAI.ensureArray key o = o.
Proof. intros Ha. unfold VideoAI.ensureArray. now rewrite Ha. Qed.

Lemma trim_nonempty s : trim s <> [] -> s <> [].
Proof. intros Ht ->. now apply Ht. Qed.

Lemma ensureName_id o s :
  o !! js "name" = Some (JStr s) -> trim s <> [] -> VideoAI.ensureName o = inr o.
Proof.
  intros Hn Ht. unfold VideoAI.ensureName. rewrite Hn. cbn [truthy].
  rewrite (bool_decide_eq_false_2 _ (trim_nonempty s Ht)).
  now rewrite (bool_decide_eq_false_2 _ Ht).
Qed.

Lemma ensureName_post o o' :
  VideoAI.ensureName o = inr o' ->
  (exists s, o' !! js "name" = Some (JStr s) /\ trim s <> [])
  /\ (forall k, js "name" <> k -> o' !! k = o !! k).
Proof.
  assert (Hset : (exists s, <[js "name" := JStr (js "Untitled Recipe")]> o !! js "name"
                            = Some (JStr s) /\ trim s <> [])
                 /\ (forall k, js "name" <> k ->
                       <[js "name" := JStr (js "Untitled Recipe")]> o !! k = o !! k)).
  { split.
    - exists (js "Untitled Recipe"). split; [apply lookup_insert_eq|].
      vm_compute. discriminate.
    - intros k Hk. now apply lookup_insert_ne. }
  unfold VideoAI.ensureName.
  destruct (o !! js "name") as [v|] eqn:En; [|intros [= <-]; exact Hset].
  destruct v as [|b|z|s|l|m].
  - cbn. intros [= <-]. exact Hset.
  - destruct b; cbn; [discriminate|]. intros [= <-]. exact Hset.
  - destruct (negb (truthy (JNum z))); [|discriminate]. intros [= <-]. exact Hset.
  - destruct (negb (truthy (JStr s)) || bool_decide (trim s = [])) eqn:Eb.
    + intros [= <-]. exact Hset.
    + intros [= <-]. split; [|reflexivity]. exists s. split; [exact En|].
      apply orb_false_iff in Eb as [_ Eb]. now apply bool_decide_eq_false in Eb.
  - cbn. discriminate.
  - cbn. discriminate.
Qed.

Lemma cleanServings_post o s :
  VideoAI.cleanServings o !! js "servings" = Some (JStr s) -> s = [].
Proof.
  unfold VideoAI.cleanServings.
  destruct (o !! js "servings") as [v|] eqn:Es; [|now rewrite Es].
  destruct v as [|b|z|s0|l|m]; try (rewrite Es; discriminate).
  destruct (truthy (JStr s0)) eqn:Et.
  - destruct (matchDigits s0).
    + rewrite lookup_insert_eq. discriminate.
    + rewrite lookup_delete_eq. discriminate.
  - rewrite Es. intros [= <-]. cbn in Et.
    now apply negb_false_iff, bool_decide_eq_true in Et.
Qed.

Lemma cleanServings_id o :
  (forall s, o !! js "servings" = Some (JStr s) -> s = []) ->
  VideoAI.cleanServings o = o.
Proof.
  intros Hs. unfold VideoAI.cleanServings.
  destruct (o !! js "servings") as [[| | |s| |]|]; try reflexivity.
  now rewrite (Hs s eq_refl).
Qed.

Context `{NumberFormat}.

Lemma ensureTimeString_post key o o' v :
  VideoAI.ensureTimeString key o = inr o' ->
  o' !! key = Some v ->
  truthy v && negb (isString v) = false.
Proof.
  intros Ho'. destruct (ensureTimeString_returns _ _ _ Ho') as [_ Hkey].
  destruct (o !! key) as [v0|] eqn:Ek.
  - destruct (truthy v0 && negb (isString v0)) eqn:Eb.
    + destruct Hkey as (s & _ & ->). intros [= <-]. cbn. apply andb_false_r.
    + subst o'. rewrite Ek. now intros [= <-].
  - subst o'. rewrite Ek. discriminate.
Qed.

Lemma ensureTimeString_id key o :
  (forall v, o !! key = Some v -> truthy v && negb (isString v) = false) ->
  VideoAI.ensureTimeString key o = inr o.
Proof.
  intros Hk. unfold VideoAI.ensureTimeString.
  destruct (o !! key) as [v|]; [|reflexivity]. now rewrite (Hk v eq_refl).
Qed.

(** X9: a repaired recipe is stable: repairing it again changes nothing.
    The repair touches no key other than [ingredients], [instructions],
    [name], [servings], [prepTime] and [cookTime].  The same holds of the
    recipe block as a whole: the repaired object is a block the repair
    returns unchanged. *)
Theorem repairRecipe_stable o o' :
  VideoAI.repairRecipe o = inr o' ->
  VideoAI.repairRecipe o' = inr o'
  /\ (forall k,
         ~ In k [js "ingredients"; js "instructions"; js "name"; js "servings";
                 js "prepTime"; js "cookTime"] ->
         o' !! k = o !! k)
  /\ VideoAI.repairRecipeData (Some (JObj o)) = inr (VideoAI.RecipeObject o')
  /\ VideoAI.repairRecipeData (Some (JObj o')) = inr (VideoAI.RecipeObject o').
Proof.
  intros Hrepair.
  destruct (repairRecipe_steps _ _ Hrepair) as (o3 & o5 & En & E5 & E6).
  set (o1 := VideoAI.ensureArray (js "ingredients") o) in En.
  set (o2 := VideoAI.ensureArray (js "instructions") o1) in En.
  destruct (ensureName_post _ _ En) as ((name & Hname & Hblank) & Hother3).
  set (o4 := VideoAI.cleanServings o3) in E5.
  destruct (ensureTimeString_returns _ _ _ E5) as [Hother5 _].
  destruct (ensureTimeString_returns _ _ _ E6) as [Hother6 _].
  assert (Hingr : isArray (o' !! js "ingredients") = true).
  { rewrite Hother6, Hother5 by keys. subst o4.
    rewrite cleanServings_other, Hother3 by keys.
    subst o2. rewrite ensureArray_other by keys. apply ensureArray_isArray. }
  assert (Hinstr : isArray (o' !! js "instructions") = true).
  { rewrite Hother6, Hother5 by keys. subst o4.
    rewrite cleanServings_other, Hother3 by keys.
    apply ensureArray_isArray. }
  assert (Hname6 : o' !! js "name" = Some (JStr name)).
  { rewrite Hother6, Hother5 by keys. subst o4.
    now rewrite cleanServings_other by keys. }
  assert (Hserv : forall s, o' !! js "servings" = Some (JStr s) -> s = []).
  { intros s. rewrite Hother6, Hother5 by keys. apply cleanServings_post. }
  assert (Hprep : forall v, o' !! js "prepTime" = Some v ->
                            truthy v && negb (isString v) = false).
  { intros v. rewrite Hother6 by keys. now apply ensureTimeString_post with (o := o4). }
  assert (Hcook : forall v, o' !! js "cookTime" = Some v ->
                            truthy v && negb (isString v) = false).
  { intros v. now apply ensureTimeString_post with (o := o5). }
  assert (Hagain : VideoAI.repairRecipe o' = inr o').
  { unfold VideoAI.repairRecipe. cbv zeta.
    rewrite (ensureArray_id _ o' Hingr), (ensureArray_id _ o' Hinstr).
    rewrite (ensureName_id o' name Hname6 Hblank).
    rewrite (cleanServings_id o' Hserv).
    rewrite (ensureTimeString_id _ o' Hprep).
    apply (ensureTimeString_id _ o' Hcook). }
  split; [exact Hagain|]. split.
  - intros k Hk. cbn [In] in Hk.
    rewrite Hother6, Hother5 by tauto. subst o4.
    rewrite cleanServings_other, Hother3 by tauto.
    subst o2 o1. now rewrite !ensureArray_other by tauto.
  - unfold VideoAI.repairRecipeData. cbn [truthy negb].
    now rewrite Hrepair, Hagain.
Qed.

End RecipeStability.

Lemma repairRecipe_stable_witness :
  exists o',
    VideoAI.repairRecipe Samples.cake = inr o'
    /\ VideoAI.repairRecipe o' = inr o'
    /\ o' !! js "author" = Samples.cake !! js "author".
Proof.
  destruct (VideoAI.repairRecipe Samples.cake) as [e|o'] eqn:E;
    [vm_compute in E; discriminate|].
  exists o'. split; [reflexivity|].
  destruct (repairRecipe_stable _ _ E) as (Hstable & Hframe & _).
  split; [exact Hstable|]. apply Hframe.
  cbn [In]. intros Hin.
  repeat (destruct Hin as [Hin|Hin]; [vm_compute in Hin; discriminate|]).
  exact Hin.
Defined.

(** ** Captions and the acquisition pipeline *)

Lemma captionText_shape textLines :
  trim (Video.captionText textLines) = Video.captionText textLines
  /\ singleSpaced false (Video.captionText textLines) = true.
Proof.
  unfold Video.captionText. split; [apply trim_idem|].
  apply singleSpaced_trim. unfold collapseWs. apply collapseWs_go_spaced.
Qed.

(** X10: a caption text handed out by [extractCaptions] is longer than 50
    characters, trimmed, and single-spaced (its only white space is single
    blanks); it is the cleaned text of a [.vtt] or [.srt] file of the probe
    directory whose name passed the subtitle filter. *)
Theorem extractCaptions_shape probe c :
  Video.extractCaptions probe = Some c ->
  (50 < length c)%nat
  /\ trim c = c
  /\ singleSpaced false c = true
  /\ exists timestamp dir f,
       probe = Video.ProbeListing timestamp dir
       /\ In f dir
       /\ Video.isSubtitleName timestamp (Video.fileName f) = true
       /\ ((endsWith (js ".vtt") (Video.fileName f) = true
            /\ c = Video.captionText (Video.vttTextLines (Video.fileContent f)))
           \/ (endsWith (js ".srt") (Video.fileName f) = true
               /\ c = Video.captionText (Video.srtTextLines (Video.fileContent f)))).
Proof.
  unfold Video.extractCaptions.
  destruct probe as [|timestamp dir]; [discriminate|].
  destruct (List.filter _ dir) as [|first files] eqn:Ef; [discriminate|].
  cbv zeta.
  set (subtitleFile := match find _ _ with Some f => f | None => first end).
  assert (Hin : In subtitleFile dir
                /\ Video.isSubtitleName timestamp (Video.fileName subtitleFile) = true).
  { apply (filter_In (fun f => Video.isSubtitleName timestamp (Video.fileName f))).
    rewrite Ef. subst subtitleFile.
    destruct (find _ (first :: files)) as [f|] eqn:Efind.
    - now apply find_some in Efind as [? _].
    - now left. }
  destruct Hin as [Hin Hname].
  assert (Hvtt : forall text,
             text = Video.captionText (Video.vttTextLines (Video.fileContent subtitleFile)) ->
             endsWith (js ".vtt") (Video.fileName subtitleFile) = true ->
             (50 <? length text)%nat = true ->
             (50 < length text)%nat /\ trim text = text /\ singleSpaced false text = true
             /\ exists timestamp0 dir0 f,
                  Video.ProbeListing timestamp dir = Video.ProbeListing timestamp0 dir0
                  /\ In f dir0
                  /\ Video.isSubtitleName timestamp0 (Video.fileName f) = true
                  /\ ((endsWith (js ".vtt") (Video.fileName f) = true
                       /\ text = Video.captionText (Video.vttTextLines (Video.fileContent f)))
                      \/ (endsWith (js ".srt") (Video.fileName f) = true
                          /\ text = Video.captionText
                                      (Video.srtTextLines (Video.fileContent f))))).
  { intros text -> Hext Hlen. split; [now apply Nat.ltb_lt|].
    split; [apply captionText_shape|]. split; [apply captionText_shape|].
    exists timestamp, dir, subtitleFile. repeat split; auto. }
  assert (Hsrt : forall text,
             text = Video.captionText (Video.srtTextLines (Video.fileContent subtitleFile)) ->
             endsWith (js ".srt") (Video.fileName subtitleFile) = true ->
             (50 <? length text)%nat = true ->
             (50 < length text)%nat /\ trim text = text /\ singleSpaced false text = true
             /\ exists timestamp0 dir0 f,
                  Video.ProbeListing timestamp dir = Video.ProbeListing timestamp0 dir0
                  /\ In f dir0
                  /\ Video.isSubtitleName timestamp0 (Video.fileName f) = true
                  /\ ((endsWith (js ".vtt") (Video.fileName f) = true
                       /\ text = Video.captionText (Video.vttTextLines (Video.fileContent f)))
                      \/ (endsWith (js ".srt") (Video.fileName f) = true
                          /\ text = Video.captionText
                                      (Video.srtTextLines (Video.fileContent f))))).
  { intros text -> Hext Hlen. split; [now apply Nat.ltb_lt|].
    split; [apply captionText_shape|]. split; [apply captionText_shape|].
    exists timestamp, dir, subtitleFile. repeat split; auto. }
  destruct (endsWith (js ".vtt") (Video.fileName subtitleFile)) eqn:Ev.
  - destruct (50 <? length (Video.captionText (Video.vttTextLines _)))%nat eqn:E.
    + intros [= <-]. now apply Hvtt.
    + destruct (endsWith (js ".srt") (Video.fileName subtitleFile)) eqn:Es; [|discriminate].
      destruct (50 <? length (Video.captionText (Video.srtTextLines _)))%nat eqn:E';
        [|discriminate].
      intros [= <-]. now apply Hsrt.
  - destruct (endsWith (js ".srt") (Video.fileName subtitleFile)) eqn:Es; [|discriminate].
    destruct (50 <? length (Video.captionText (Video.srtTextLines _)))%nat eqn:E';
      [|discriminate].
    intros [= <-]. now apply Hsrt.
Qed.

Lemma extractCaptions_shape_witness :
  let c := js "Preheat the oven to 350 degrees. Mix two cups of flour with sugar." in
  (50 < length c)%nat /\ trim c = c /\ singleSpaced false c = true.
Proof.
  intros c.
  assert (E : Video.extractCaptions
                (Video.ProbeListing (js "1700000000000s") [Samples.vttFile]) = Some c)
    by (vm_compute; reflexivity).
  destruct (extractCaptions_shape _ _ E) as (Hlen & Htrim & Hspaced & _).
  repeat split; assumption.
Defined.

Section Pipeline.
Context `{CaseMapping}.

(** X11: the stages of [processVideo] run in a fixed order and each one only
    when the one before it did not settle the call: an unsupported URL is
    rejected before any stage runs; audio is fetched only when the captions
    are unusable; the transcription runs only on audio that was fetched, and
    its outcome is then the result; a caption text is returned unchanged and
    is longer than 50 characters. *)
Theorem processVideo_stages env url result stages :
  Video.processVideo env url = (result, stages) ->
  (Video.supported (Video.detectVideoPlatform url) = false ->
     stages = [] /\ result = inl (newError (js "Unsupported video platform: " ++ url)))
  /\ (exists rest,
        [Video.CaptionStage; Video.AudioStage; Video.TranscribeStage] = stages ++ rest)
  /\ (In Video.AudioStage stages ->
        Video.supported (Video.detectVideoPlatform url) = true
        /\ forall c, Video.captions env url = Some c -> (length c <= 50)%nat)
  /\ (In Video.TranscribeStage stages ->
        exists audioBuffer audioFormat,
          Video.audio env url = inr (audioBuffer, audioFormat)
          /\ result = Video.transcribe env audioBuffer audioFormat)
  /\ (stages = [Video.CaptionStage] ->
        exists c, result = inr c /\ Video.captions env url = Some c
                  /\ (50 < length c)%nat)
  /\ (stages = [Video.CaptionStage; Video.AudioStage] ->
        exists e, result = inl e /\ Video.audio env url = inl e).
Proof.
  unfold Video.processVideo.
  destruct (Video.supported (Video.detectVideoPlatform url)) eqn:Hs; cbn [negb].
  - destruct (Video.usableCaptions (Video.captions env url)) as [c|] eqn:Hc.
    + intros [= <- <-]. apply usableCaptions_some in Hc as [Hc Hl].
      split; [discriminate|].
      split; [now exists [Video.AudioStage; Video.TranscribeStage]|].
      split; [cbn; intros [Hx|[]]; discriminate|].
      split; [cbn; intros [Hx|[]]; discriminate|].
      split; [|discriminate]. intros _. now exists c.
    + assert (Hshort : forall c, Video.captions env url = Some c -> (length c <= 50)%nat).
      { now apply usableCaptions_none. }
      destruct (Video.audio env url) as [e|[audioBuffer audioFormat]] eqn:Ha.
      * intros [= <- <-]. split; [discriminate|].
        split; [now exists [Video.TranscribeStage]|].
        split; [intros _; split; [reflexivity|exact Hshort]|].
        split; [cbn; intros [Hx|[Hx|[]]]; discriminate|].
        split; [discriminate|]. intros _. now exists e.
      * intros [= <- <-]. split; [discriminate|].
        split; [now exists []|].
        split; [intros _; split; [reflexivity|exact Hshort]|].
        split; [intros _; now exists audioBuffer, audioFormat|].
        split; discriminate.
  - intros [= <- <-]. split; [intros _; now split|].
    split; [now exists [Video.CaptionStage; Video.AudioStage; Video.TranscribeStage]|].
    split; [intros []|]. split; [intros []|]. split; discriminate.
Qed.

End Pipeline.

Lemma processVideo_stages_witness :
  In Video.TranscribeStage
     (snd (Video.processVideo Samples.shortCaptionEnv Samples.reelUrl))
  /\ exists audioBuffer audioFormat,
       Video.audio Samples.shortCaptionEnv Samples.reelUrl = inr (audioBuffer, audioFormat)
       /\ fst (Video.processVideo Samples.shortCaptionEnv Samples.reelUrl)
          = Video.transcribe Samples.shortCaptionEnv audioBuffer audioFormat.
Proof.
  assert (Hin : In Video.TranscribeStage
                   (snd (Video.processVideo Samples.shortCaptionEnv Samples.reelUrl)))
    by (vm_compute; tauto).
  split; [exact Hin|].
  exact (proj1 (proj2 (proj2 (proj2
           (processVideo_stages Samples.shortCaptionEnv Samples.reelUrl _ _
              (surjective_pairing _))))) Hin).
Defined.

(** ** The in-memory store: round trips *)

Section StoreRoundTrips.
Implicit Types (st : Storage.MemStorage) (item : Storage.Item).

Lemma getItemById_owned itemId uid st item :
  Storage.items st !! itemId = Some item -> Storage.userId item = uid ->
  Storage.getItemById itemId uid st = (Some item, st).
Proof.
  intros Hget Huid. unfold Storage.getItemById. rewrite Hget.
  now rewrite (bool_decide_eq_true_2 _ Huid).
Qed.

Lemma getItemById_missing itemId uid st :
  Storage.items st !! itemId = None -> Storage.getItemById itemId uid st = (None, st).
Proof. intros Hget. unfold Storage.getItemById. now rewrite Hget. Qed.

Lemma getItemById_some itemId uid st item st' :
  Storage.getItemById itemId uid st = (Some item, st') ->
  Storage.items st !! itemId = Some item /\ Storage.userId item = uid /\ st' = st.
Proof.
  unfold Storage.getItemById.
  destruct (Storage.items st !! itemId) as [item0|]; [|discriminate].
  destruct (bool_decide (Storage.userId item0 = uid)) eqn:E; cbn [negb];
    [|discriminate].
  apply bool_decide_eq_true in E. intros [= <- <-]. now repeat split.
Qed.

(** X12: a created item is stored under the generated id with the creation
    time, with every other field as given; its owner reads it back with
    [getItemById], any other user gets [null], and no other id of the store is
    touched. *)
Theorem createItem_roundtrip itemId now itemData st :
  let item := fst (Storage.createItem itemId now itemData st) in
  let st' := snd (Storage.createItem itemId now itemData st) in
  Storage.id item = itemId
  /\ Storage.createdAt item = now
  /\ Storage.userId item = Storage.userId itemData
  /\ (Storage.type item, Storage.title item, Storage.summary item,
      Storage.category item, Storage.tags item)
     = (Storage.type itemData, Storage.title itemData, Storage.summary itemData,
        Storage.category itemData, Storage.tags itemData)
  /\ (Storage.userNotes item, Storage.url item, Storage.imageUrl item,
      Storage.content item, Storage.videoData item)
     = (Storage.userNotes itemData, Storage.url itemData, Storage.imageUrl itemData,
        Storage.content itemData, Storage.videoData itemData)
  /\ Storage.getItemById itemId (Storage.userId itemData) st' = (Some item, st')
  /\ (forall uid, uid <> Storage.userId itemData ->
        Storage.getItemById itemId uid st' = (None, st'))
  /\ (forall other, other <> itemId ->
        Storage.items st' !! other = Storage.items st !! other).
Proof.
  cbn [Storage.createItem fst snd Storage.id Storage.createdAt Storage.userId
       Storage.type Storage.title Storage.summary Storage.category Storage.tags
       Storage.userNotes Storage.url Storage.imageUrl Storage.content
       Storage.videoData Storage.items].
  repeat split.
  - apply getItemById_owned; [|reflexivity]. cbn [Storage.items]. apply lookup_insert_eq.
  - intros uid Hne. unfold Storage.getItemById. cbn [Storage.items].
    rewrite lookup_insert_eq. cbn [Storage.userId].
    now rewrite bool_decide_eq_false_2 by congruence.
  - intros other Hne. now apply lookup_insert_ne.
Qed.



(** X14: [deleteItem] succeeds exactly on an item that exists and belongs to
    the caller.  Afterwards the id is gone for every user: [getItemById]
    answers [null], a second [deleteItem] and an [updateItem] fail, and no
    other id of the store is touched.  A failed delete changes nothing. *)
Theorem deleteItem_roundtrip itemId uid st :
  (fst (Storage.deleteItem itemId uid st) = true
   <-> exists item, Storage.items st !! itemId = Some item /\ Storage.userId item = uid)
  /\ (fst (Storage.deleteItem itemId uid st) = false ->
      snd (Storage.deleteItem itemId uid st) = st)
  /\ (forall st',
        Storage.deleteItem itemId uid st = (true, st') ->
        (forall u, Storage.getItemById itemId u st' = (None, st'))
        /\ (forall u, Storage.deleteItem itemId u st' = (false, st'))
        /\ (forall u updates, Storage.updateItem itemId u updates st' = (None, st'))
        /\ (forall other, other <> itemId ->
              Storage.items st' !! other = Storage.items st !! other)).
Proof.
  unfold Storage.deleteItem at 1 2 3 4.
  destruct (Storage.items st !! itemId) as [item|] eqn:Hget.
  - destruct (bool_decide (Storage.userId item = uid)) eqn:E; cbn [negb fst snd].
    + apply bool_decide_eq_true in E. split; [|split].
      * split; [|reflexivity]. intros _. now exists item.
      * discriminate.
      * intros st' [= <-].
        assert (Hgone : Storage.items {| Storage.items := delete itemId (Storage.items st) |}
                          !! itemId = None) by apply lookup_delete_eq.
        repeat split.
        -- intros u. now apply getItemById_missing.
        -- intros u. unfold Storage.deleteItem. now rewrite Hgone.
        -- intros u updates. unfold Storage.updateItem. now rewrite Hgone.
        -- intros other Hne. cbn [Storage.items]. now apply lookup_delete_ne.
    + apply bool_decide_eq_false in E. split; [|split].
      * split; [discriminate|]. intros (item' & [= <-] & Hu). contradiction.
      * reflexivity.
      * discriminate.
  - cbn [fst snd]. split; [|split].
    + split; [discriminate|]. intros (? & [=] & _).
    + reflexivity.
    + discriminate.
Qed.

End StoreRoundTrips.


Lemma deleteItem_roundtrip_witness :
  exists st',
    Storage.deleteItem (js "item-1") (js "alice") Samples.store1 = (true, st')
    /\ Storage.getItemById (js "item-1") (js "alice") st' = (None, st')
    /\ Storage.deleteItem (js "item-1") (js "alice") st' = (false, st').
Proof.
  destruct (Storage.deleteItem (js "item-1") (js "alice") Samples.store1)
    as [[|] st'] eqn:E; [|vm_compute in E; discriminate].
  exists st'. split; [reflexivity|].
  destruct (proj2 (proj2 (deleteItem_roundtrip _ _ _)) _ E) as (Hget & Hdel & _).
  split; [apply Hget|apply Hdel].
Defined.

(** ** Listing a user's items *)

Section ListingFacts.
Implicit Types (l values : list Storage.Item) (x item : Storage.Item).

Lemma insertNewest_perm x l : Permutation (Listing.insertNewest x l) (x :: l).
Proof.
  induction l as [|y l IH]; [reflexivity|]. cbn [Listing.insertNewest].
  destruct (Storage.createdAt x <? Storage.createdAt y)%Z; [|reflexivity].
  rewrite IH. apply perm_swap.
Qed.

Lemma sortNewestFirst_perm l : Permutation (Listing.sortNewestFirst l) l.
Proof.
  induction l as [|x l IH]; [reflexivity|].
  cbn [Listing.sortNewestFirst foldr]. rewrite insertNewest_perm.
  now apply perm_skip.
Qed.

Lemma Forall_insertNewest (P : Storage.Item -> Prop) x l :
  P x -> Forall P l -> Forall P (Listing.insertNewest x l).
Proof.
  intros Hx Hl. induction Hl as [|y l Hy Hl IH]; cbn [Listing.insertNewest].
  - now constructor.
  - destruct (Storage.createdAt x <? Storage.createdAt y)%Z.
    + now constructor.
    + constructor; [exact Hx|]. now constructor.
Qed.

Lemma insertNewest_sorted x l :
  Listing.NewestFirst l -> Listing.NewestFirst (Listing.insertNewest x l).
Proof.
  induction l as [|y l IH]; intros Hl; cbn [Listing.insertNewest].
  - cbn. now split.
  - destruct Hl as [Hy Hl].
    destruct (Storage.createdAt x <? Storage.createdAt y)%Z eqn:E.
    + apply Z.ltb_lt in E. split; [|now apply IH].
      apply Forall_insertNewest; [lia|exact Hy].
    + apply Z.ltb_ge in E. split; [|now split].
      constructor; [exact E|].
      eapply List.Forall_impl; [|exact Hy]. cbn. intros z Hz. lia.
Qed.

Lemma sortNewestFirst_sorted l : Listing.NewestFirst (Listing.sortNewestFirst l).
Proof.
  induction l as [|x l IH]; [exact I|].
  cbn [Listing.sortNewestFirst foldr]. now apply insertNewest_sorted.
Qed.

Lemma insertNewest_stable t x l :
  Listing.createdAtTime t (Listing.insertNewest x l)
  = Listing.createdAtTime t (x :: l).
Proof.
  unfold Listing.createdAtTime.
  induction l as [|y l IH]; [reflexivity|]. cbn [Listing.insertNewest].
  destruct (Storage.createdAt x <? Storage.createdAt y)%Z eqn:E; [|reflexivity].
  apply Z.ltb_lt in E. cbn [List.filter] in *. rewrite IH.
  destruct (Storage.createdAt x =? t)%Z eqn:Ex; [|reflexivity].
  apply Z.eqb_eq in Ex.
  now rewrite (proj2 (Z.eqb_neq (Storage.createdAt y) t)) by lia.
Qed.

Lemma sortNewestFirst_stable t l :
  Listing.createdAtTime t (Listing.sortNewestFirst l) = Listing.createdAtTime t l.
Proof.
  induction l as [|x l IH]; [reflexivity|].
  cbn [Listing.sortNewestFirst foldr]. rewrite insertNewest_stable.
  unfold Listing.createdAtTime in *. cbn [List.filter].
  fold (Listing.sortNewestFirst l). now rewrite IH.
Qed.

Lemma In_store_values (m : gmap jsstring Storage.Item) item :
  In item (map snd (map_to_list m)) <-> exists itemId, m !! itemId = Some item.
Proof.
  rewrite in_map_iff. split.
  - intros ([itemId item'] & Hsnd & Hin). cbn in Hsnd. subst item'.
    exists itemId. now apply elem_of_map_to_list, list_elem_of_In.
  - intros (itemId & Hget). exists (itemId, item). split; [reflexivity|].
    now apply list_elem_of_In, elem_of_map_to_list.
Qed.

Lemma getItemsByUserId_In st values uid item :
  Permutation values (map snd (map_to_list (Storage.items st))) ->
  In item (Listing.getItemsByUserId values uid)
  <-> exists itemId,
        Storage.items st !! itemId = Some item /\ Storage.userId item = uid.
Proof.
  intros Hvalues. unfold Listing.getItemsByUserId. split.
  - intros Hin. apply (Permutation_in _ (sortNewestFirst_perm _)) in Hin.
    apply filter_In in Hin as [Hin Hown]. apply bool_decide_eq_true in Hown.
    apply (Permutation_in _ Hvalues), In_store_values in Hin as [itemId Hget].
    now exists itemId.
  - intros (itemId & Hget & Hown).
    apply (Permutation_in _ (Permutation_sym (sortNewestFirst_perm _))).
    apply filter_In. split; [|now apply bool_decide_eq_true].
    apply (Permutation_in _ (Permutation_sym Hvalues)), In_store_values.
    now exists itemId.
Qed.

(** X15: [getItemsByUserId] lists exactly the items of the store that belong
    to the user, each once, newest first; items created at the same instant
    keep the order in which the store iterates them. *)
Theorem getItemsByUserId_spec st values uid :
  Permutation values (map snd (map_to_list (Storage.items st))) ->
  let result := Listing.getItemsByUserId values uid in
  (forall item,
      In item result
      <-> exists itemId,
            Storage.items st !! itemId = Some item /\ Storage.userId item = uid)
  /\ Permutation result
       (List.filter (fun item => bool_decide (Storage.userId item = uid)) values)
  /\ Listing.NewestFirst result
  /\ (forall t,
        Listing.createdAtTime t result
        = Listing.createdAtTime t
            (List.filter (fun item => bool_decide (Storage.userId item = uid)) values)).
Proof.
  intros Hvalues result. subst result.
  split; [intros item; now apply getItemsByUserId_In|].
  unfold Listing.getItemsByUserId. split; [|split].
  - apply sortNewestFirst_perm.
  - apply sortNewestFirst_sorted.
  - intros t. apply sortNewestFirst_stable.
Qed.

End ListingFacts.

Lemma getItemsByUserId_spec_witness :
  Listing.getItemsByUserId [Samples.note1] (js "alice") = [Samples.note1]
  /\ (In Samples.note1 (Listing.getItemsByUserId [Samples.note1] (js "mallory"))
      <-> exists itemId,
            Storage.items Samples.store1 !! itemId = Some Samples.note1
            /\ Storage.userId Samples.note1 = js "mallory").
Proof.
  split; [vm_compute; reflexivity|].
  assert (Hvalues : Permutation [Samples.note1]
                      (map snd (map_to_list (Storage.items Samples.store1)))).
  { unfold Samples.store1. cbn [Storage.items].
    rewrite insert_empty, map_to_list_singleton. reflexivity. }
  exact (proj1 (getItemsByUserId_spec Samples.store1 [Samples.note1] (js "mallory")
                  Hvalues) Samples.note1).
Defined.

(** ** Titles taken from page metadata *)

Section VideoTitle.
Implicit Types (s u v : jsstring) (c d : N).

Lemma trim_head s :
  match trim s with [] => True | c :: _ => isWhiteSpace c = false end.
Proof.
  unfold trim. pose proof (dropWhile_head isWhiteSpace s) as Hh.
  destruct (trimEnd_prefix (trimStart s)) as [w Hw]. unfold trimStart in *.
  destruct (trimEnd (dropWhile isWhiteSpace s)) as [|c r]; [exact I|].
  rewrite Hw in Hh. exact Hh.
Qed.

Lemma trimEnd_last u d : isWhiteSpace d = false -> trimEnd (u ++ [d]) = u ++ [d].
Proof.
  intros Hd. unfold trimEnd. rewrite rev_app_distr. cbn [rev app dropWhile].
  rewrite Hd. cbn [rev]. now rewrite rev_involutive.
Qed.

Lemma trim_ellipsis u : trim u = u -> trim (u ++ js "...") = u ++ js "...".
Proof.
  intros Hu. pose proof (trim_head u) as Hh. rewrite Hu in Hh.
  unfold trim.
  assert (trimStart (u ++ js "...") = u ++ js "...") as ->.
  { destruct u as [|c r]; [reflexivity|]. now apply trimStart_head. }
  change (js "...") with ([46; 46] ++ [46]). rewrite app_assoc.
  now apply trimEnd_last.
Qed.

Lemma singleSpaced_no_whitespace inRun v :
  Forall (fun c => isWhiteSpace c = false) v -> singleSpaced inRun v = true.
Proof.
  intros Hv. revert inRun. induction Hv as [|c v Hc Hv IH]; intros inRun;
    [reflexivity|].
  cbn [singleSpaced]. rewrite Hc. apply IH.
Qed.

Lemma singleSpaced_app_plain inRun u v :
  singleSpaced inRun u = true -> Forall (fun c => isWhiteSpace c = false) v ->
  singleSpaced inRun (u ++ v) = true.
Proof.
  intros Hu Hv. revert inRun Hu. induction u as [|c u IH]; intros inRun Hu.
  - now apply singleSpaced_no_whitespace.
  - cbn [app singleSpaced] in *. destruct (isWhiteSpace c).
    + apply andb_true_iff in Hu as [Hc Hu]. rewrite Hc. now apply IH.
    + now apply IH.
Qed.

(** *** Hashtags *)

Lemma hasHashtag_app_inv u v :
  Routes.hasHashtag (u ++ v) = false ->
  Routes.hasHashtag u = false /\ Routes.hasHashtag v = false.
Proof.
  induction u as [|c u IH]; [now split|].
  cbn [app Routes.hasHashtag]. intros Hh.
  apply orb_false_iff in Hh as [Hc Hh]. destruct (IH Hh) as [Hu Hv].
  split; [|exact Hv]. rewrite Hu, orb_false_r.
  destruct u as [|d u]; [apply andb_false_r|exact Hc].
Qed.

Lemma hasHashtag_app u v :
  Routes.hasHashtag u = false -> Routes.hasHashtag v = false ->
  Routes.startsWithWord v = false -> Routes.hasHashtag (u ++ v) = false.
Proof.
  intros Hu Hv Hw. induction u as [|c u IH]; [exact Hv|].
  cbn [app Routes.hasHashtag] in *.
  apply orb_false_iff in Hu as [Hc Hu]. rewrite (IH Hu), orb_false_r.
  destruct u as [|d u]; [|exact Hc].
  cbn [app]. rewrite Hw. apply andb_false_r.
Qed.

Lemma hasHashtag_tail c s : Routes.hasHashtag (c :: s) = false -> Routes.hasHashtag s = false.
Proof. cbn [Routes.hasHashtag]. intros Hh. now apply orb_false_iff in Hh. Qed.

Lemma hasHashtag_dropWhile p s :
  Routes.hasHashtag s = false -> Routes.hasHashtag (dropWhile p s) = false.
Proof.
  intros Hs. rewrite (takeWhile_dropWhile p s) in Hs.
  now apply hasHashtag_app_inv in Hs.
Qed.

Lemma hasHashtag_trimEnd s :
  Routes.hasHashtag s = false -> Routes.hasHashtag (trimEnd s) = false.
Proof.
  intros Hs. destruct (trimEnd_prefix s) as [w Hw]. rewrite Hw in Hs.
  now apply hasHashtag_app_inv in Hs.
Qed.

Lemma hasHashtag_trim s :
  Routes.hasHashtag s = false -> Routes.hasHashtag (trim s) = false.
Proof. intros Hs. now apply hasHashtag_trimEnd, hasHashtag_dropWhile. Qed.

Lemma hasHashtag_firstn n s :
  Routes.hasHashtag s = false -> Routes.hasHashtag (firstn n s) = false.
Proof.
  intros Hs. rewrite <- (firstn_skipn n s) in Hs.
  now apply hasHashtag_app_inv in Hs.
Qed.

Lemma removeHashtags_go_start inTag s :
  inTag = true \/ Routes.startsWithWord s = false ->
  Routes.startsWithWord (Routes.removeHashtags_go inTag s) = false.
Proof.
  revert inTag. induction s as [|c s IH]; intros inTag Hstart; [reflexivity|].
  cbn [Routes.removeHashtags_go].
  destruct (inTag && isWordChar c) eqn:E1; [apply IH; now left|].
  destruct ((c =? 35) && Routes.startsWithWord s) eqn:E2; [apply IH; now left|].
  cbn [Routes.startsWithWord]. destruct Hstart as [-> | Hc]; [exact E1|exact Hc].
Qed.

Lemma removeHashtags_go_clean inTag s :
  Routes.hasHashtag (Routes.removeHashtags_go inTag s) = false.
Proof.
  revert inTag. induction s as [|c s IH]; intros inTag; [reflexivity|].
  cbn [Routes.removeHashtags_go].
  destruct (inTag && isWordChar c); [apply IH|].
  destruct ((c =? 35) && Routes.startsWithWord s) eqn:E2; [apply IH|].
  cbn [Routes.hasHashtag]. rewrite IH, orb_false_r.
  destruct (c =? 35); [|reflexivity]. cbn [andb] in *.
  apply removeHashtags_go_start. now right.
Qed.

Lemma collapseWs_go_start s :
  Routes.startsWithWord (collapseWs_go false s) = true -> Routes.startsWithWord s = true.
Proof.
  destruct s as [|c s]; [discriminate|]. cbn [collapseWs_go].
  destruct (isWhiteSpace c); [discriminate|exact id].
Qed.

Lemma collapseWs_go_clean inRun s :
  Routes.hasHashtag s = false -> Routes.hasHashtag (collapseWs_go inRun s) = false.
Proof.
  revert inRun. induction s as [|c s IH]; intros inRun Hs; [reflexivity|].
  cbn [Routes.hasHashtag] in Hs. apply orb_false_iff in Hs as [Hc Hs].
  cbn [collapseWs_go]. destruct (isWhiteSpace c).
  - destruct inRun; [now apply IH|].
    cbn [Routes.hasHashtag]. rewrite (IH true Hs). reflexivity.
  - cbn [Routes.hasHashtag]. rewrite (IH false Hs), orb_false_r.
    destruct (c =? 35); [|reflexivity]. cbn [andb] in *.
    destruct (Routes.startsWithWord (collapseWs_go false s)) eqn:E; [|reflexivity].
    apply collapseWs_go_start in E. congruence.
Qed.

Lemma removePrefix_clean s :
  Routes.hasHashtag s = false -> Routes.hasHashtag (Routes.removePrefix s) = false.
Proof.
  intros Hs. unfold Routes.removePrefix.
  pose proof (takeWhile_dropWhile (fun c => negb (c =? 58)) s) as Hsplit.
  destruct (takeWhile _ s) as [|a u]; [exact Hs|].
  destruct (dropWhile (fun c => negb (c =? 58)) s) as [|colon rest]; [exact Hs|].
  rewrite Hsplit in Hs. apply hasHashtag_app_inv in Hs as [_ Hs].
  now apply hasHashtag_dropWhile, (hasHashtag_tail colon).
Qed.

Lemma stripQuotes_clean s :
  Routes.hasHashtag s = false -> Routes.hasHashtag (Routes.stripQuotes s) = false.
Proof.
  intros Hs. unfold Routes.stripQuotes. cbv zeta.
  set (s1 := match s with c :: s' => if Routes.isQuote c then s' else s | [] => [] end).
  assert (H1 : Routes.hasHashtag s1 = false).
  { subst s1. destruct s as [|c s']; [reflexivity|].
    destruct (Routes.isQuote c); [now apply (hasHashtag_tail c)|exact Hs]. }
  destruct (rev s1) as [|c r] eqn:Er; [reflexivity|].
  destruct (Routes.isQuote c); [|exact H1].
  apply (f_equal (@rev N)) in Er. rewrite rev_involutive in Er. cbn [rev] in Er.
  rewrite Er in H1. now apply hasHashtag_app_inv in H1.
Qed.

(** X16: [cleanVideoTitle] returns the empty string only for the empty title.
    Its result has at most 103 characters (100 plus the ellipsis), no white
    space at either end, single blanks as its only white space, and no [#]
    followed by a word character. *)
Theorem cleanVideoTitle_shape rawTitle :
  let t := Routes.cleanVideoTitle rawTitle in
  (t = [] <-> rawTitle = [])
  /\ (length t <= 103)%nat
  /\ trim t = t
  /\ singleSpaced false t = true
  /\ Routes.hasHashtag t = false.
Proof.
  cbv zeta. destruct rawTitle as [|c0 raw]; [repeat split; cbn; lia|].
  unfold Routes.cleanVideoTitle. cbv zeta.
  set (c1 := trim (Routes.removeHashtags (c0 :: raw))).
  set (c2 := trim (Routes.removePrefix c1)).
  set (c3 := trim (Routes.stripQuotes c2)).
  set (c4 := trim (collapseWs c3)).
  assert (Htrim : trim c4 = c4) by apply trim_idem.
  assert (Hspaced : singleSpaced false c4 = true).
  { subst c4. apply singleSpaced_trim. unfold collapseWs. apply collapseWs_go_spaced. }
  assert (Hclean : Routes.hasHashtag c4 = false).
  { subst c4 c3 c2 c1. unfold collapseWs, Routes.removeHashtags.
    apply hasHashtag_trim, collapseWs_go_clean, hasHashtag_trim, stripQuotes_clean,
      hasHashtag_trim, removePrefix_clean, hasHashtag_trim, removeHashtags_go_clean. }
  clearbody c4. clear c1 c2 c3.
  split.
  { split; [|discriminate]. intros He. exfalso. revert He.
    apply orElse_default. discriminate. }
  destruct (100 <? length c4)%nat eqn:Elen.
  - set (cut := substring0 100 c4).
    set (cut' := if (70 <? lastIndexOf 32 cut)%Z
                 then substring0 (Z.to_nat (lastIndexOf 32 cut)) cut else cut).
    assert (Hcut : exists n, cut' = firstn n c4).
    { subst cut' cut. unfold substring0. destruct (70 <? _)%Z.
      - rewrite firstn_firstn. eauto.
      - eauto. }
    destruct Hcut as [n Hcut].
    assert (Hlen : (length cut' <= 100)%nat).
    { subst cut'. destruct (70 <? _)%Z.
      - unfold substring0 at 1. rewrite length_firstn.
        pose proof (length_substring0 100 c4). fold cut in H. lia.
      - apply length_substring0. }
    rewrite orElse_nonempty by (destruct (trim cut'); discriminate).
    split.
    { rewrite length_app. pose proof (length_trim cut') as Ht.
      change (length (js "...")) with 3%nat. lia. }
    split; [apply trim_ellipsis, trim_idem|].
    split.
    + apply singleSpaced_app_plain.
      * apply singleSpaced_trim. rewrite Hcut. now apply singleSpaced_firstn.
      * repeat (constructor; [reflexivity|]). constructor.
    + apply hasHashtag_app; [|reflexivity|reflexivity].
      apply hasHashtag_trim. rewrite Hcut. now apply hasHashtag_firstn.
  - apply Nat.ltb_ge in Elen.
    destruct (orElse_cases c4 (js "Video")) as [-> | ->].
    + repeat split; try assumption. lia.
    + repeat split; vm_compute; try reflexivity. lia.
Qed.

End VideoTitle.

(** ** The user store *)

Section UserStore.
Implicit Types (st : Users.UserStore) (draw : Users.Draw) (userData : Users.UserData).
Implicit Types (address userId existing : jsstring).

Lemma generatedId_nonempty draw : Users.generatedId draw <> [].
Proof. unfold Users.generatedId. discriminate. Qed.

Lemma newUserId_nonempty draw userData : Users.newUserId draw userData <> [].
Proof.
  unfold Users.newUserId. destruct (Users.new_id userData) as [[|c i]|];
    try apply generatedId_nonempty. discriminate.
Qed.

Lemma consistent_indexed st : Users.Consistent st -> Users.Indexed st.
Proof.
  intros [_ Hindex] address userId Hget.
  destruct (Hindex _ _ Hget) as (Hne & user & Huser & _). split; [exact Hne|eauto].
Qed.

Lemma emptyStore_consistent : Users.Consistent Users.emptyStore.
Proof.
  split.
  - intros userId user. cbn. now rewrite lookup_empty.
  - intros address userId. cbn. now rewrite lookup_empty.
Qed.

Lemma getUserByEmail_some address userId st :
  Users.userByEmail st !! address = Some userId -> userId <> [] ->
  Users.getUserByEmail address st = Users.users st !! userId.
Proof.
  intros Hget Hne. unfold Users.getUserByEmail.
  destruct (_ !! address) as [k|]; [|discriminate].
  injection Hget as ->. now rewrite (bool_decide_eq_false_2 _ Hne).
Qed.

Lemma getUserByEmail_none address st :
  Users.userByEmail st !! address = None -> Users.getUserByEmail address st = None.
Proof.
  intros Hget. unfold Users.getUserByEmail.
  now destruct (_ !! address) as [k|]; [discriminate|].
Qed.

(** On an indexed store [upsertUser] returns a user, keeps the store indexed,
    and the user is the one then found under the e-mail address. *)
Lemma upsertUser_indexed draw userData st :
  Users.Indexed st ->
  exists user st',
    Users.upsertUser draw userData st = Some (user, st')
    /\ Users.Indexed st'
    /\ Users.email user = Users.new_email userData
    /\ Users.updatedAt user = Users.updatedNow draw
    /\ Users.getUserByEmail (Users.new_email userData) st' = Some user.
Proof.
  intros Hst. unfold Users.upsertUser.
  destruct (Users.userByEmail st !! Users.new_email userData) as [existing|] eqn:Hidx.
  - destruct (Hst _ _ Hidx) as (Hne & user & Huser).
    rewrite (bool_decide_eq_false_2 _ Hne). cbv zeta. rewrite Huser.
    eexists _, _. split; [reflexivity|]. split; [|split; [reflexivity|split; [reflexivity|]]].
    + intros address userId Hget. cbn [Users.userByEmail Users.users] in *.
      destruct (Hst _ _ Hget) as (Hne' & user' & Huser'). split; [exact Hne'|].
      destruct (decide (userId = existing)) as [->|Hk].
      * rewrite lookup_insert_eq. eauto.
      * rewrite lookup_insert_ne by congruence. eauto.
    + unfold Users.getUserByEmail. cbn [Users.userByEmail Users.users].
      rewrite Hidx, (bool_decide_eq_false_2 _ Hne). apply lookup_insert_eq.
  - cbv zeta.
    eexists _, _. split; [reflexivity|]. split; [|split; [reflexivity|split; [reflexivity|]]].
    + intros address userId Hget. cbn [Users.userByEmail Users.users Users.id Users.email] in *.
      destruct (decide (address = Users.new_email userData)) as [->|Ha].
      * rewrite lookup_insert_eq in Hget. injection Hget as <-.
        split; [apply newUserId_nonempty|]. rewrite lookup_insert_eq. eauto.
      * rewrite lookup_insert_ne in Hget by congruence.
        destruct (Hst _ _ Hget) as (Hne' & user' & Huser'). split; [exact Hne'|].
        destruct (decide (userId = Users.newUserId draw userData)) as [->|Hk].
        -- rewrite lookup_insert_eq. eauto.
        -- rewrite lookup_insert_ne by congruence. eauto.
    + unfold Users.getUserByEmail. cbn [Users.userByEmail Users.users Users.id Users.email].
      rewrite lookup_insert_eq.
      rewrite (bool_decide_eq_false_2 _ (newUserId_nonempty draw userData)).
      apply lookup_insert_eq.
Qed.

Lemma upsertAll_indexed calls st :
  Users.Indexed st ->
  exists st', Users.upsertAll calls st = Some st' /\ Users.Indexed st'.
Proof.
  revert st. induction calls as [|[draw userData] calls IH]; intros st Hst.
  - exists st. now split.
  - cbn [Users.upsertAll].
    destruct (upsertUser_indexed draw userData st Hst) as (user & st1 & -> & Hst1 & _).
    now apply IH.
Qed.

(** X17: in every store reached from the empty one by calls of [upsertUser],
    a further call returns a user record (the e-mail index never names an id
    without a user); that user has the e-mail address and the time stamp of
    the call, and [getUserByEmail] finds it under that address. *)
Theorem upsertUser_reachable calls draw userData :
  exists st user st',
    Users.upsertAll calls Users.emptyStore = Some st
    /\ Users.upsertUser draw userData st = Some (user, st')
    /\ Users.email user = Users.new_email userData
    /\ Users.updatedAt user = Users.updatedNow draw
    /\ Users.getUserByEmail (Users.new_email userData) st' = Some user.
Proof.
  destruct (upsertAll_indexed calls Users.emptyStore) as (st & Hrun & Hst).
  { apply consistent_indexed, emptyStore_consistent. }
  destruct (upsertUser_indexed draw userData st Hst)
    as (user & st' & Hup & _ & Hemail & Htime & Hget).
  exists st, user, st'. now repeat split.
Qed.

(** The step behind the consistency of the store: the id passed, if any, is
    the one the address is registered under, and the id of a new user is not
    taken. *)
Lemma upsertUser_consistent draw userData st :
  Users.Consistent st ->
  (forall userId,
      Users.userByEmail st !! Users.new_email userData = Some userId ->
      Users.new_id userData = None \/ Users.new_id userData = Some userId) ->
  (Users.userByEmail st !! Users.new_email userData = None ->
   Users.users st !! Users.newUserId draw userData = None) ->
  exists user st',
    Users.upsertUser draw userData st = Some (user, st')
    /\ Users.Consistent st'
    /\ Users.getUserById (Users.id user) st' = Some user
    /\ Users.getUserByEmail (Users.new_email userData) st' = Some user
    /\ (forall old,
          Users.getUserByEmail (Users.new_email userData) st = Some old ->
          Users.id user = Users.id old)
    /\ (Users.getUserByEmail (Users.new_email userData) st = None ->
        Users.id user = Users.newUserId draw userData
        /\ Users.createdAt user = Users.createdNow draw)
    /\ (forall address,
          address <> Users.new_email userData ->
          Users.getUserByEmail address st' = Users.getUserByEmail address st)
    /\ (forall userId,
          userId <> Users.id user ->
          Users.getUserById userId st' = Users.getUserById userId st).
Proof.
  intros [Hkey Hindex] Hid Hfresh. unfold Users.upsertUser.
  destruct (Users.userByEmail st !! Users.new_email userData) as [existing|] eqn:Hidx.
  - destruct (Hindex _ _ Hidx) as (Hne & user & Huser & Hemail).
    rewrite (bool_decide_eq_false_2 _ Hne). cbv zeta. rewrite Huser.
    pose proof (Hkey _ _ Huser) as Hkeyu.
    assert (Hsame : Storage.spread (Users.id user) (Users.new_id userData) = existing).
    { destruct (Hid existing eq_refl) as [-> | ->]; [exact Hkeyu|reflexivity]. }
    eexists _, _. split; [reflexivity|].
    unfold Users.Consistent, Users.getUserById.
    cbn [Users.users Users.userByEmail Users.id Users.email Users.createdAt].
    rewrite Hsame.
    split; [split|].
    + intros userId user' Hget.
      destruct (decide (userId = existing)) as [->|Hk].
      * rewrite lookup_insert_eq in Hget. injection Hget as <-. reflexivity.
      * rewrite lookup_insert_ne in Hget by congruence. now apply Hkey.
    + intros address userId Hget.
      destruct (Hindex _ _ Hget) as (Hne' & user' & Huser' & Hemail').
      split; [exact Hne'|].
      destruct (decide (userId = existing)) as [->|Hk].
      * rewrite lookup_insert_eq. eexists. split; [reflexivity|].
        cbn [Users.email]. congruence.
      * rewrite lookup_insert_ne by congruence. eauto.
    + split; [apply lookup_insert_eq|].
      split.
      { rewrite (getUserByEmail_some _ existing) by assumption.
        apply lookup_insert_eq. }
      split.
      { intros old. rewrite (getUserByEmail_some _ existing) by assumption.
        rewrite Huser. intros [= <-]. now symmetry. }
      split.
      { rewrite (getUserByEmail_some _ existing) by assumption.
        rewrite Huser. discriminate. }
      split.
      * intros address Ha.
        destruct (Users.userByEmail st !! address) as [userId|] eqn:Hget.
        -- destruct (Hindex _ _ Hget) as (Hne' & user' & Huser' & Hemail').
           rewrite !(getUserByEmail_some _ userId) by assumption.
           apply lookup_insert_ne. intros <-. congruence.
        -- now rewrite !getUserByEmail_none by assumption.
      * intros userId Hk. apply lookup_insert_ne. congruence.
  - cbv zeta. specialize (Hfresh eq_refl).
    eexists _, _. split; [reflexivity|].
    unfold Users.Consistent, Users.getUserById.
    cbn [Users.users Users.userByEmail Users.id Users.email Users.createdAt].
    split; [split|].
    + intros userId user' Hget.
      destruct (decide (userId = Users.newUserId draw userData)) as [->|Hk].
      * rewrite lookup_insert_eq in Hget. now injection Hget as <-.
      * rewrite lookup_insert_ne in Hget by congruence. now apply Hkey.
    + intros address userId Hget.
      destruct (decide (address = Users.new_email userData)) as [->|Ha].
      * rewrite lookup_insert_eq in Hget. injection Hget as <-.
        split; [apply newUserId_nonempty|]. rewrite lookup_insert_eq.
        eexists. now split.
      * rewrite lookup_insert_ne in Hget by congruence.
        destruct (Hindex _ _ Hget) as (Hne' & user' & Huser' & Hemail').
        split; [exact Hne'|].
        rewrite lookup_insert_ne by congruence. eauto.
    + split; [apply lookup_insert_eq|].
      split.
      { rewrite (getUserByEmail_some _ (Users.newUserId draw userData));
          [apply lookup_insert_eq|apply lookup_insert_eq|apply newUserId_nonempty]. }
      split.
      { rewrite getUserByEmail_none by assumption. discriminate. }
      split; [now split|].
      split.
      * intros address Ha.
        destruct (Users.userByEmail st !! address) as [userId|] eqn:Hget.
        -- destruct (Hindex _ _ Hget) as (Hne' & user' & Huser' & Hemail').
           rewrite (getUserByEmail_some address userId st) by assumption.
           rewrite (getUserByEmail_some address userId);
             [|cbn [Users.userByEmail]; now rewrite lookup_insert_ne by congruence
              |assumption].
           apply lookup_insert_ne. congruence.
        -- rewrite (getUserByEmail_none address st) by assumption.
           apply getUserByEmail_none. cbn [Users.userByEmail].
           now rewrite lookup_insert_ne by congruence.
      * intros userId Hk. apply lookup_insert_ne. congruence.
Qed.

(** X18: on a consistent store, a call of [upsertUser] that passes no id other
    than the one its address is registered under, and whose new id is not
    taken, keeps the store consistent.  The user returned carries the address
    and the update time of the call, and is found under its id and under its
    address; a registered address keeps its id, an unregistered one gets the
    new id and creation time; no other address and no other id is affected. *)
Theorem upsertUser_roundtrip draw userData st :
  Users.Consistent st ->
  (forall userId,
      Users.userByEmail st !! Users.new_email userData = Some userId ->
      Users.new_id userData = None \/ Users.new_id userData = Some userId) ->
  (Users.userByEmail st !! Users.new_email userData = None ->
   Users.users st !! Users.newUserId draw userData = None) ->
  exists user st',
    Users.upsertUser draw userData st = Some (user, st')
    /\ Users.Consistent st'
    /\ Users.email user = Users.new_email userData
    /\ Users.updatedAt user = Users.updatedNow draw
    /\ Users.getUserById (Users.id user) st' = Some user
    /\ Users.getUserByEmail (Users.new_email userData) st' = Some user
    /\ (forall old,
          Users.getUserByEmail (Users.new_email userData) st = Some old ->
          Users.id user = Users.id old)
    /\ (Users.getUserByEmail (Users.new_email userData) st = None ->
        Users.id user = Users.newUserId draw userData
        /\ Users.createdAt user = Users.createdNow draw)
    /\ (forall address,
          address <> Users.new_email userData ->
          Users.getUserByEmail address st' = Users.getUserByEmail address st)
    /\ (forall userId,
          userId <> Users.id user ->
          Users.getUserById userId st' = Users.getUserById userId st).
Proof.
  intros Hst Hid Hfresh.
  destruct (upsertUser_consistent draw userData st Hst Hid Hfresh)
    as (user & st' & Hup & Hst' & Hbyid & Hbyemail & Hold & Hnew & Haddr & Hids).
  destruct (upsertUser_indexed draw userData st (consistent_indexed st Hst))
    as (user0 & st0 & Hup0 & _ & Hemail & Htime & _).
  rewrite Hup in Hup0. injection Hup0 as <- <-.
  exists user, st'.
  split; [exact Hup|]. split; [exact Hst'|]. split; [exact Hemail|].
  split; [exact Htime|]. split; [exact Hbyid|]. split; [exact Hbyemail|].
  split; [exact Hold|]. split; [exact Hnew|]. split; [exact Haddr|exact Hids].
Qed.

End UserStore.

Lemma upsertUser_roundtrip_witness :
  exists user st',
    Users.upsertUser Accounts.draw1 Accounts.ada Users.emptyStore = Some (user, st')
    /\ Users.Consistent st'
    /\ Users.getUserById (Users.id user) st' = Some user
    /\ Users.getUserByEmail (js "ada@example.com") st' = Some user
    /\ Users.id user = js "user-1700000000000-k3x9q2m1z".
Proof.
  destruct (upsertUser_roundtrip Accounts.draw1 Accounts.ada Users.emptyStore)
    as (user & st' & Hup & Hst' & _ & _ & Hbyid & Hbyemail & _ & Hnew & _).
  - apply emptyStore_consistent.
  - intros userId Hget. now left.
  - intros _. apply lookup_empty.
  - exists user, st'.
    split; [exact Hup|]. split; [exact Hst'|]. split; [exact Hbyid|].
    split; [exact Hbyemail|]. now destruct (Hnew eq_refl) as [-> _].
Defined.

(** ** Authentication *)

Section Authentication.
Implicit Types (st : Users.UserStore) (draw : Users.Draw) (headers : Middleware.Headers).
Implicit Types (verifyToken : Jwt.Verify) (generateToken : Jwt.Sign).
Implicit Types (token idToken : jsstring).

Lemma bearer_token (authHeader : jsstring) :
  bool_decide (authHeader = []) || negb (startsWith (js "Bearer ") authHeader) = false
  <-> exists token, authHeader = js "Bearer " ++ token.
Proof.
  rewrite orb_false_iff, negb_false_iff, startsWith_spec. split.
  - intros [_ [rest ->]]. now exists rest.
  - intros [token ->]. split; [|now exists token].
    apply bool_decide_eq_false. discriminate.
Qed.

Lemma bearer_inj (a b : jsstring) :
  Some (js "Bearer " ++ a) = Some (js "Bearer " ++ b) -> a = b.
Proof. intros Hab. apply (app_inv_head (js "Bearer ")). congruence. Qed.

(** X19: outside the development short cut (in production, or without the
    header [x-dev-token: dev]) the middleware never changes the store; it
    lets a request through exactly when the [Authorization] header is
    [Bearer ] followed by a token that verifies and whose [userId] is that of
    a stored user, and [req.user] is then that user; every other request is
    answered with status 401. *)
Theorem jwtAuthMiddleware_spec production verifyToken draw headers st :
  production = true \/ Middleware.xDevToken headers <> Some (js "dev") ->
  exists outcome,
    Middleware.jwtAuthMiddleware production verifyToken draw headers st
    = Some (outcome, st)
    /\ (forall authenticated,
          outcome = Middleware.Next authenticated
          <-> exists token payload user,
                Middleware.authorization headers = Some (js "Bearer " ++ token)
                /\ verifyToken token = Some payload
                /\ Users.getUserById (Jwt.userId payload) st = Some user
                /\ authenticated = Middleware.authUser user)
    /\ (forall status error,
          outcome = Middleware.Respond status error -> status = 401%Z).
Proof.
  intros Hmode. unfold Middleware.jwtAuthMiddleware.
  assert (bool_decide (Middleware.xDevToken headers = Some (js "dev"))
          && negb production = false) as ->.
  { destruct Hmode as [-> | Hdev]; [apply andb_false_r|].
    now rewrite (bool_decide_eq_false_2 _ Hdev). }
  destruct (Middleware.authorization headers) as [authHeader|] eqn:Hauth.
  - destruct (bool_decide (authHeader = []) || negb (startsWith (js "Bearer ") authHeader))
      eqn:Hbearer.
    + eexists. split; [reflexivity|]. split; [|now intros ? ? [= <- _]].
      intros authenticated. split; [discriminate|].
      intros (token & _ & _ & Ha & _).
      assert (Hb : exists t, authHeader = js "Bearer " ++ t)
        by (exists token; congruence).
      apply bearer_token in Hb. congruence.
    + apply bearer_token in Hbearer as [token ->].
      change (skipn 7 (js "Bearer " ++ token)) with token. cbv zeta.
      destruct (verifyToken token) as [payload|] eqn:Hverify.
      * destruct (Users.getUserById (Jwt.userId payload) st) as [user|] eqn:Huser.
        -- eexists. split; [reflexivity|]. split; [|discriminate].
           intros authenticated. split.
           ++ intros [= <-]. now exists token, payload, user.
           ++ intros (token' & payload' & user' & Ht & Hv & Hu & ->).
              apply bearer_inj in Ht. subst token'.
              rewrite Hverify in Hv. injection Hv as <-.
              rewrite Huser in Hu. now injection Hu as <-.
        -- eexists. split; [reflexivity|]. split; [|now intros ? ? [= <- _]].
           intros authenticated. split; [discriminate|].
           intros (token' & payload' & user' & Ht & Hv & Hu & _).
           apply bearer_inj in Ht. subst token'.
           rewrite Hverify in Hv. injection Hv as <-. congruence.
      * eexists. split; [reflexivity|]. split; [|now intros ? ? [= <- _]].
        intros authenticated. split; [discriminate|].
        intros (token' & payload' & user' & Ht & Hv & _).
        apply bearer_inj in Ht. subst token'. congruence.
  - eexists. split; [reflexivity|]. split; [|now intros ? ? [= <- _]].
    intros authenticated. split; [discriminate|].
    intros (? & ? & ? & [=] & _).
Qed.

(** *** Names *)

Lemma join_splitOn c s : join [c] (splitOn c s) = s.
Proof.
  induction s as [|d s IH]; [reflexivity|]. cbn [splitOn].
  pose proof (splitOn_nonempty c s) as Hne.
  destruct (d =? c) eqn:Ed.
  - apply N.eqb_eq in Ed. subst d.
    destruct (splitOn c s) as [|w ws]; [now contradiction Hne|].
    change (join [c] ([] :: w :: ws)) with (c :: join [c] (w :: ws)).
    f_equal. exact IH.
  - destruct (splitOn c s) as [|w ws]; [now contradiction Hne|].
    rewrite join_cons_cons. f_equal. exact IH.
Qed.

Lemma trimStart_app_space s :
  trimStart (s ++ [32]) = match trimStart s with [] => [] | r => r ++ [32] end.
Proof.
  unfold trimStart. induction s as [|c s IH]; [reflexivity|].
  cbn [app dropWhile]. destruct (isWhiteSpace c); [exact IH|reflexivity].
Qed.

Lemma trimEnd_app_space s : trimEnd (s ++ [32]) = trimEnd s.
Proof. unfold trimEnd. rewrite rev_app_distr. reflexivity. Qed.

Lemma trim_app_space s : trim (s ++ [32]) = trim s.
Proof.
  unfold trim. rewrite trimStart_app_space.
  destruct (trimStart s) as [|c r]; [reflexivity|]. apply trimEnd_app_space.
Qed.

Lemma orEmpty_orNull s : Users.orEmpty (Users.orNull (Users.Str s)) = s.
Proof. now destruct s. Qed.

Lemma orNull_idem v : Users.orNull (Users.orNull v) = Users.orNull v.
Proof. now destruct v as [| |[|c s]]. Qed.

(** The first and last name that [handleGoogleLogin] stores spell the Google
    name again. *)
Lemma google_name_parts fullName :
  trim (Users.orEmpty (Users.orNull (Users.Str (hd [] (splitOn 32 fullName))))
        ++ js " "
        ++ Users.orEmpty
             (Users.orNull (Users.Str (join (js " ") (tl (splitOn 32 fullName))))))
  = trim fullName.
Proof.
  rewrite !orEmpty_orNull. pose proof (join_splitOn 32 fullName) as Hjoin.
  pose proof (splitOn_nonempty 32 fullName) as Hne.
  destruct (splitOn 32 fullName) as [|w [|w' ws]]; [now contradiction Hne| |].
  - cbn [hd tl join] in *. subst w. rewrite app_nil_r. apply trim_app_space.
  - cbn [hd tl]. now rewrite <- Hjoin.
Qed.

Lemma upsertUser_google draw googleUser st user st' :
  Users.upsertUser draw (MobileAuth.googleUserData googleUser) st = Some (user, st') ->
  Users.email user = MobileAuth.email googleUser
  /\ Users.firstName user
     = Users.orNull (Users.Str (hd [] (splitOn 32 (MobileAuth.name googleUser))))
  /\ Users.lastName user
     = Users.orNull
         (Users.Str (join (js " ") (tl (splitOn 32 (MobileAuth.name googleUser))))).
Proof.
  unfold Users.upsertUser.
  destruct (Users.userByEmail st !! _) as [existing|].
  - destruct (bool_decide (existing = [])).
    + cbv zeta. intros [= <- _]. cbn. rewrite !orNull_idem. now repeat split.
    + destruct (Users.users st !! existing) as [old|]; [|discriminate].
      intros [= <- _]. now repeat split.
  - cbv zeta. intros [= <- _]. cbn. rewrite !orNull_idem. now repeat split.
Qed.

(** X20: a successful Google login stores the account under the verified
    e-mail address, with the Google name split at its first blank into first
    and last name; the reply names the account by that e-mail address and by
    the trimmed Google name (the address when the name is blank), and its
    token is signed for the account's id and address.  A failed login leaves
    the store as it was. *)
Theorem handleGoogleLogin_account verifyIdToken generateToken draw idToken st outcome st' :
  MobileAuth.handleGoogleLogin verifyIdToken generateToken draw idToken st
  = Some (outcome, st') ->
  match outcome with
  | inl error =>
      st' = st /\ MobileAuth.verifyGoogleToken verifyIdToken idToken = inl error
  | inr result =>
      exists googleUser user,
        MobileAuth.verifyGoogleToken verifyIdToken idToken = inr googleUser
        /\ Users.upsertUser draw (MobileAuth.googleUserData googleUser) st
           = Some (user, st')
        /\ Users.email user = MobileAuth.email googleUser
        /\ (exists first rest,
              splitOn 32 (MobileAuth.name googleUser) = first :: rest
              /\ join (js " ") (first :: rest) = MobileAuth.name googleUser
              /\ Users.firstName user = Users.orNull (Users.Str first)
              /\ Users.lastName user
                 = Users.orNull (Users.Str (join (js " ") rest)))
        /\ MobileAuth.login_email (MobileAuth.user result) = MobileAuth.email googleUser
        /\ MobileAuth.login_id (MobileAuth.user result) = Users.id user
        /\ MobileAuth.login_name (MobileAuth.user result)
           = orElse (trim (MobileAuth.name googleUser)) (MobileAuth.email googleUser)
        /\ MobileAuth.token result
           = generateToken {| Jwt.userId := Users.id user;
                              Jwt.email := MobileAuth.email googleUser |}
  end.
Proof.
  unfold MobileAuth.handleGoogleLogin.
  destruct (MobileAuth.verifyGoogleToken verifyIdToken idToken) as [error|googleUser];
    [now intros [= <- <-]|].
  destruct (Users.upsertUser draw (MobileAuth.googleUserData googleUser) st)
    as [[user st1]|] eqn:Hup; [|discriminate].
  intros [= <- <-].
  destruct (upsertUser_google _ _ _ _ _ Hup) as (Hemail & Hfirst & Hlast).
  exists googleUser, user. cbn [MobileAuth.user MobileAuth.token MobileAuth.login_email
    MobileAuth.login_id MobileAuth.login_name].
  split; [reflexivity|]. split; [exact Hup|]. split; [exact Hemail|].
  split.
  { pose proof (join_splitOn 32 (MobileAuth.name googleUser)) as Hjoin.
    pose proof (splitOn_nonempty 32 (MobileAuth.name googleUser)) as Hne.
    destruct (splitOn 32 (MobileAuth.name googleUser)) as [|first rest];
      [now contradiction Hne|].
    exists first, rest. cbn [hd tl] in Hfirst, Hlast. now repeat split. }
  split; [exact Hemail|]. split; [reflexivity|]. split.
  - unfold MobileAuth.displayName. rewrite Hfirst, Hlast, Hemail.
    now rewrite google_name_parts.
  - now rewrite Hemail.
Qed.

(** X21: on a consistent store, with a generated id that is not taken and a
    token that verifies to the payload it was signed for, the token handed
    out by a successful Google login passes the middleware: the request that
    sends it is let through as the account that logged in. *)
Theorem google_login_authenticates
    verifyIdToken generateToken verifyToken draw draw' production idToken st result st' :
  Users.Consistent st ->
  Users.users st !! Users.generatedId draw = None ->
  verifyToken (MobileAuth.token result)
  = Some {| Jwt.userId := MobileAuth.login_id (MobileAuth.user result);
            Jwt.email := MobileAuth.login_email (MobileAuth.user result) |} ->
  MobileAuth.handleGoogleLogin verifyIdToken generateToken draw idToken st
  = Some (inr result, st') ->
  exists user,
    Users.getUserById (MobileAuth.login_id (MobileAuth.user result)) st' = Some user
    /\ Users.email user = MobileAuth.login_email (MobileAuth.user result)
    /\ Users.Consistent st'
    /\ forall headers,
         Middleware.authorization headers
         = Some (js "Bearer " ++ MobileAuth.token result) ->
         production = true \/ Middleware.xDevToken headers <> Some (js "dev") ->
         Middleware.jwtAuthMiddleware production verifyToken draw' headers st'
         = Some (Middleware.Next (Middleware.authUser user), st').
Proof.
  intros Hst Hfresh Hcodec. unfold MobileAuth.handleGoogleLogin.
  destruct (MobileAuth.verifyGoogleToken verifyIdToken idToken) as [error|googleUser];
    [discriminate|].
  destruct (upsertUser_consistent draw (MobileAuth.googleUserData googleUser) st Hst)
    as (user & st1 & Hup & Hst1 & Hbyid & _).
  { intros userId _. now left. }
  { intros _. exact Hfresh. }
  rewrite Hup. intros [= <- <-].
  cbn [MobileAuth.user MobileAuth.token MobileAuth.login_email MobileAuth.login_id]
    in *.
  exists user. split; [exact Hbyid|]. split; [reflexivity|]. split; [exact Hst1|].
  intros headers Hauth Hmode. unfold Middleware.jwtAuthMiddleware.
  assert (bool_decide (Middleware.xDevToken headers = Some (js "dev"))
          && negb production = false) as ->.
  { destruct Hmode as [-> | Hdev]; [apply andb_false_r|].
    now rewrite (bool_decide_eq_false_2 _ Hdev). }
  rewrite Hauth.
  match goal with
  | |- context [bool_decide ?P || negb ?b] =>
      assert (Hb : bool_decide P || negb b = false) by (apply bearer_token; eauto);
      rewrite Hb
  end.
  change (skipn 7 (js "Bearer " ++ ?t)) with t. cbv zeta.
  rewrite Hcodec. cbn [Jwt.userId]. now rewrite Hbyid.
Qed.

End Authentication.

Lemma jwtAuthMiddleware_spec_witness :
  exists outcome,
    Middleware.jwtAuthMiddleware true Accounts.verify Accounts.draw1
      Accounts.devHeaders Users.emptyStore
    = Some (outcome, Users.emptyStore)
    /\ (forall authenticated,
          outcome = Middleware.Next authenticated
          <-> exists token payload user,
                Middleware.authorization Accounts.devHeaders
                = Some (js "Bearer " ++ token)
                /\ Accounts.verify token = Some payload
                /\ Users.getUserById (Jwt.userId payload) Users.emptyStore = Some user
                /\ authenticated = Middleware.authUser user)
    /\ (forall status error,
          outcome = Middleware.Respond status error -> status = 401%Z).
Proof. apply jwtAuthMiddleware_spec. left. reflexivity. Defined.

Lemma handleGoogleLogin_account_witness :
  exists result st',
    MobileAuth.handleGoogleLogin Accounts.acceptAda Accounts.sign Accounts.draw1
      (js "id-token") Users.emptyStore
    = Some (inr result, st')
    /\ MobileAuth.login_name (MobileAuth.user result) = js "Ada Lovelace"
    /\ MobileAuth.login_email (MobileAuth.user result) = js "ada@example.com".
Proof.
  destruct (MobileAuth.handleGoogleLogin Accounts.acceptAda Accounts.sign
              Accounts.draw1 (js "id-token") Users.emptyStore)
    as [[[error|result] st']|] eqn:E; try (vm_compute in E; discriminate).
  exists result, st'. split; [reflexivity|].
  destruct (handleGoogleLogin_account _ _ _ _ _ _ _ E)
    as (googleUser & user & Hverify & _ & _ & _ & Hemail & _ & Hname & _).
  vm_compute in Hverify. injection Hverify as <-.
  split; [rewrite Hname|rewrite Hemail]; vm_compute; reflexivity.
Defined.

Lemma google_login_authenticates_witness :
  exists result st' user,
    MobileAuth.handleGoogleLogin Accounts.acceptAda Accounts.sign Accounts.draw1
      (js "id-token") Users.emptyStore
    = Some (inr result, st')
    /\ Users.getUserById (MobileAuth.login_id (MobileAuth.user result)) st' = Some user
    /\ Middleware.jwtAuthMiddleware true Accounts.verify Accounts.draw2
         {| Middleware.xDevToken := None;
            Middleware.authorization := Some (js "Bearer " ++ MobileAuth.token result) |}
         st'
       = Some (Middleware.Next (Middleware.authUser user), st').
Proof.
  destruct (MobileAuth.handleGoogleLogin Accounts.acceptAda Accounts.sign
              Accounts.draw1 (js "id-token") Users.emptyStore)
    as [[[error|result] st']|] eqn:E; try (vm_compute in E; discriminate).
  assert (Hverify : Accounts.verify (MobileAuth.token result)
                    = Some {| Jwt.userId := MobileAuth.login_id (MobileAuth.user result);
                              Jwt.email := MobileAuth.login_email (MobileAuth.user result) |}).
  { vm_compute in E. injection E as <- _. vm_compute. reflexivity. }
  destruct (google_login_authenticates Accounts.acceptAda Accounts.sign Accounts.verify
              Accounts.draw1 Accounts.draw2 true (js "id-token") Users.emptyStore
              result st' emptyStore_consistent (lookup_empty _) Hverify E)
    as (user & Hbyid & _ & _ & Hpass).
  exists result, st', user. split; [reflexivity|]. split; [exact Hbyid|].
  apply Hpass; [reflexivity|now left].
Defined.

(** ** What [analyzeContent] hands out *)

Section AnalysisOutput.
Context `{CaseMapping}.

Lemma spacedText_allowed s :
  SpacedText s -> Forall (fun c => c = 32 \/ isWordChar c = true \/ c = 45) s.
Proof.
  intros Hs. eapply List.Forall_impl; [|exact Hs].
  intros c [->|Hc]; [now left|right].
  unfold isPlain in Hc. apply orb_true_iff in Hc as [Hc|Hc]; [now left|right].
  now apply N.eqb_eq in Hc.
Qed.

Lemma summary_from_text text :
  orElse (trim (substring0 160 text)) (js "No summary available.") <> []
  /\ (length (orElse (trim (substring0 160 text)) (js "No summary available."))
      <= 160)%nat.
Proof.
  split; [apply orElse_default; discriminate|].
  apply length_orElse; [|vm_compute; lia].
  etransitivity; [apply length_trim|]. apply length_substring0.
Qed.

Lemma fallbackAnalysis_presentable title content :
  Completion.Presentable (AI.fallbackAnalysis title content).
Proof.
  unfold Completion.Presentable, AI.fallbackAnalysis. cbv zeta.
  cbn [AI.category AI.summary].
  destruct (summary_from_text (AI.textSource title content)) as [Hne Hlen].
  split; [vm_compute; lia|].
  split; [repeat (constructor; [right; left; vm_compute; reflexivity|]); constructor|].
  destruct (200 <? length _)%nat eqn:E.
  - apply Nat.ltb_lt in E. lia.
  - split; [exact Hne|lia].
Qed.

Lemma validateSummary_presentable summary title content :
  AI.validateSummary summary title content <> []
  /\ (length (AI.validateSummary summary title content) <= 203)%nat.
Proof.
  unfold AI.validateSummary. destruct summary as [|c summary].
  - destruct (summary_from_text (AI.textSource title content)) as [Hne Hlen].
    split; [exact Hne|lia].
  - cbv zeta. split; [apply orElse_default; discriminate|].
    apply length_orElse; [apply capSummary_at_most_203|vm_compute; lia].
Qed.

Lemma tryBlock_presentable create parse title content model analysis :
  Completion.tryBlock create parse title content model = inr analysis ->
  Completion.Presentable analysis.
Proof.
  unfold Completion.tryBlock.
  destruct (create model) as [e|responseContent]; [discriminate|]. cbv zeta.
  destruct (Completion.parseResult parse _) as [e|result]; [discriminate|].
  destruct (Completion.getProp _ (js "category") result) as [e|category];
    [discriminate|].
  destruct (Completion.getProp _ (js "summary") result) as [e|summary];
    [discriminate|].
  intros [= <-]. unfold Completion.Presentable. cbn [AI.category AI.summary].
  assert (Hcat : forall s,
            (2 <= length (AI.validateCategory s))%nat
            /\ Forall (fun c => c = 32 \/ isWordChar c = true \/ c = 45)
                      (AI.validateCategory s)).
  { intros s. destruct (validateCategory_spaced_text s) as [Hlen Hspaced].
    split; [exact Hlen|now apply spacedText_allowed]. }
  split; [|split].
  - unfold Completion.validateCategoryOf.
    destruct category as [[| | |s| |]|]; apply Hcat.
  - unfold Completion.validateCategoryOf.
    destruct category as [[| | |s| |]|]; apply Hcat.
  - unfold Completion.validateSummaryOf.
    destruct summary as [[| | |s| |]|]; apply validateSummary_presentable.
Qed.

Lemma analysis_is_presentable client apiKey create parse title content :
  Completion.Presentable
    (fst (AI.analyzeContent client apiKey
            (Completion.tryBlock create parse title content) title content)).
Proof.
  unfold AI.analyzeContent.
  destruct (negb client); [apply fallbackAnalysis_presentable|].
  destruct (negb apiKey); [apply fallbackAnalysis_presentable|].
  destruct (AI.tryModels _ AI.models) as [[analysis|] called] eqn:Et;
    [|apply fallbackAnalysis_presentable].
  destruct (ai_tryModels_shape _ _ _ _ Et) as (_ & _ & before & m & _ & Hm).
  cbn [fst]. now apply tryBlock_presentable in Hm.
Qed.

(** X22: whatever the models answer (well-formed JSON or not, fields of any
    type, errors of any kind), with or without a client and an API key,
    [analyzeContent] returns an analysis whose category has at least two
    characters, all of them letters, digits, underscores, hyphens or blanks,
    and whose summary is non-empty and at most 203 characters long.  The
    analysis is the fallback analysis, or the validated answer of one of the
    three models. *)
Theorem analyzeContent_presentable client apiKey create parse title content :
  let analysis :=
    fst (AI.analyzeContent client apiKey
           (Completion.tryBlock create parse title content) title content) in
  Completion.Presentable analysis
  /\ (analysis = AI.fallbackAnalysis title content
      \/ exists model,
           In model AI.models
           /\ Completion.tryBlock create parse title content model = inr analysis).
Proof.
  cbv zeta. split; [apply analysis_is_presentable|].
  unfold AI.analyzeContent.
  destruct (negb client); [now left|].
  destruct (negb apiKey); [now left|].
  destruct (AI.tryModels _ AI.models) as [[analysis|] called] eqn:Et; [|now left].
  destruct (ai_tryModels_shape _ _ _ _ Et)
    as ([rest Hmodels] & _ & before & m & Hcalled & Hm).
  right. exists m. split; [|exact Hm].
  rewrite Hmodels, Hcalled. apply in_or_app. left. apply in_or_app. right. now left.
Qed.

End AnalysisOutput.

(** ** The handlers *)

Section NoteHandler.
Context `{CaseMapping}.

Ltac rejected :=
  cbn [fst snd Handlers.status Handlers.body Handlers.fail];
  split; [auto|];
  split; [split; [discriminate|intros (? & ? & ? & ? & ? & ? & ? & ?); congruence]|];
  split; [intros _; split; [reflexivity|eauto]|];
  intros item [=].

(** X23: [POST /save-note] answers 200, 400 or 401, and 200 exactly for an
    authenticated request whose [title] and [content] are non-empty strings.
    Any other answer carries an error message and leaves the store as it
    was.  On 200 exactly one item is added, under the generated id: a note of
    the authenticated user with the title and content sent, no tags, and a
    category and summary that are presentable whatever the models answered;
    the owner reads it back with [getItemById]. *)
Theorem saveNote_spec auth fields client apiKey create parse itemId now st :
  let result :=
    Handlers.saveNote auth fields client apiKey create parse itemId now st in
  let response := fst result in
  let st' := snd result in
  (Handlers.status response = 200%Z \/ Handlers.status response = 400%Z
   \/ Handlers.status response = 401%Z)
  /\ (Handlers.status response = 200%Z
      <-> exists user title content,
            auth = Some user
            /\ fields !! js "title" = Some (JStr title) /\ title <> []
            /\ fields !! js "content" = Some (JStr content) /\ content <> [])
  /\ (Handlers.status response <> 200%Z ->
      st' = st /\ exists error, Handlers.body response = Handlers.ErrorBody error)
  /\ (forall item,
        Handlers.body response = Handlers.ItemBody item ->
        exists user content,
          auth = Some user
          /\ fields !! js "title" = Some (JStr (Storage.title item))
          /\ fields !! js "content" = Some (JStr content)
          /\ Storage.content item = Some content
          /\ Storage.id item = itemId
          /\ Storage.userId item = Middleware.id user
          /\ Storage.type item = Storage.note
          /\ Storage.createdAt item = now
          /\ Storage.tags item = []
          /\ (Storage.userNotes item, Storage.url item, Storage.imageUrl item,
              Storage.videoData item) = (None, None, None, None)
          /\ Completion.Presentable
               {| AI.category := Storage.category item;
                  AI.summary := Storage.summary item |}
          /\ Storage.getItemById itemId (Middleware.id user) st' = (Some item, st')
          /\ (forall other, other <> itemId ->
                Storage.items st' !! other = Storage.items st !! other)).
Proof.
  cbv zeta. unfold Handlers.saveNote.
  destruct auth as [user|]; [|rejected].
  destruct (fields !! js "title") as [[| | |[|c t]| |]|] eqn:Htitle; try rejected.
  destruct (fields !! js "content") as [[| | |[|d k]| |]|] eqn:Hcontent; try rejected.
  cbv zeta. cbn [Storage.createItem fst snd Handlers.status Handlers.body Handlers.ok
                 Storage.id Storage.userId Storage.type Storage.title Storage.summary
                 Storage.category Storage.tags Storage.createdAt Storage.userNotes
                 Storage.url Storage.imageUrl Storage.content Storage.videoData].
  split; [now left|].
  split.
  { split; [|reflexivity]. intros _. exists user, (c :: t), (d :: k).
    repeat split; try reflexivity; discriminate. }
  split; [intros Hne; now contradiction Hne|].
  intros item [= <-].
  cbn [Storage.id Storage.userId Storage.type Storage.title Storage.summary
       Storage.category Storage.tags Storage.createdAt Storage.userNotes
       Storage.url Storage.imageUrl Storage.content Storage.videoData].
  exists user, (d :: k).
  do 10 (split; [reflexivity|]).
  split.
  { pose proof (analysis_is_presentable client apiKey create parse (c :: t)
                  (Some (d :: k))) as Hp.
    exact Hp. }
  split.
  - apply getItemById_owned; [|reflexivity]. cbn [Storage.items].
    apply lookup_insert_eq.
  - intros other Hne. cbn [Storage.items]. now apply lookup_insert_ne.
Qed.

End NoteHandler.

(** *** Saving a video *)

Lemma cleanVideoTitle_nonempty c rawTitle : Routes.cleanVideoTitle (c :: rawTitle) <> [].
Proof. unfold Routes.cleanVideoTitle. cbv zeta. apply orElse_default. discriminate. Qed.

Lemma videoTitle_nonempty platform aiTitle metadata :
  Handlers.videoTitle platform aiTitle metadata <> [].
Proof.
  assert (Hgen : orElse aiTitle (js "Video from " ++ Handlers.platformName platform) <> [])
    by (apply orElse_default; discriminate).
  unfold Handlers.videoTitle. cbv zeta.
  destruct metadata as [e|found]; [exact Hgen|].
  destruct (_ || _); [|exact Hgen].
  destruct (Handlers.title found) as [|c t]; [exact Hgen|].
  apply cleanVideoTitle_nonempty.
Qed.

Lemma videoError_shape error :
  Handlers.status (Handlers.videoError error) = 500%Z
  /\ exists text,
       Handlers.body (Handlers.videoError error) = Handlers.ErrorBody text
       /\ text <> [].
Proof.
  unfold Handlers.videoError.
  repeat match goal with
  | |- context [if ?b then _ else _] => destruct b
  end; (split; [reflexivity|]); eexists; (split; [reflexivity|]);
    try discriminate.
  unfold Handlers.messageOr. destruct (message error) as [[|c m]|]; discriminate.
Qed.

Section VideoHandler.
Context `{CaseMapping}.

Ltac refused :=
  cbn [fst snd Handlers.status Handlers.body Handlers.fail];
  split; [auto|];
  split; [intros _; split; [reflexivity|eexists; split; [reflexivity|discriminate]]|];
  split; [try reflexivity; try (intros ? ? [=]); try congruence|];
  intros item [=].

(** X24: [POST /save-video] answers 200, 400, 401 or 500.  Every answer but
    200 carries a non-empty error message and leaves the store as it was; a
    URL of an unsupported platform is refused with 400.  On 200 exactly one
    item is added, under the generated id: a video of the authenticated user
    for the URL sent, which is valid and of a supported platform, holding
    the transcript that [processVideo] returned (which is not blank), the
    platform detected, and the summary, category and structured content that
    [transformVideoContent] returned; its title is never empty. *)
Theorem saveVideo_spec auth fields validUrl env apiKey attempt extractMetadata
    itemId now st :
  let result :=
    Handlers.saveVideo auth fields validUrl env apiKey attempt extractMetadata
      itemId now st in
  let response := fst result in
  let st' := snd result in
  (Handlers.status response = 200%Z \/ Handlers.status response = 400%Z
   \/ Handlers.status response = 401%Z \/ Handlers.status response = 500%Z)
  /\ (Handlers.status response <> 200%Z ->
      st' = st
      /\ exists error,
           Handlers.body response = Handlers.ErrorBody error /\ error <> [])
  /\ (forall user url,
        auth = Some user -> fields !! js "url" = Some (JStr url) ->
        Video.supported (Video.detectVideoPlatform url) = false ->
        Handlers.status response = 400%Z)
  /\ (forall item,
        Handlers.body response = Handlers.ItemBody item ->
        exists user url transcript aiAnalysis,
          auth = Some user
          /\ fields !! js "url" = Some (JStr url)
          /\ validUrl url = true
          /\ Video.supported (Video.detectVideoPlatform url) = true
          /\ fst (Video.processVideo env url) = inr transcript
          /\ trim transcript <> []
          /\ fst (VideoAI.transformVideoContent apiKey attempt transcript url)
             = inr aiAnalysis
          /\ Storage.id item = itemId
          /\ Storage.userId item = Middleware.id user
          /\ Storage.type item = Storage.video
          /\ Storage.createdAt item = now
          /\ Storage.url item = Some url
          /\ Storage.title item <> []
          /\ (Storage.summary item, Storage.category item)
             = (VideoAI.summary aiAnalysis, VideoAI.category aiAnalysis)
          /\ Storage.videoData item
             = Some {| Storage.platform := Video.type (Video.detectVideoPlatform url);
                       Storage.transcript := Some transcript;
                       Storage.structuredContent :=
                         Some (VideoAI.structuredContent aiAnalysis) |}
          /\ Storage.getItemById itemId (Middleware.id user) st' = (Some item, st')
          /\ (forall other, other <> itemId ->
                Storage.items st' !! other = Storage.items st !! other)).
Proof.
  cbv zeta. unfold Handlers.saveVideo.
  destruct auth as [user|]; [|refused].
  destruct (fields !! js "url") as [[| | |[|c u]| |]|] eqn:Hurl; try refused.
  cbv zeta. destruct (validUrl (c :: u)) eqn:Hvalid; cbn [negb]; [|refused].
  destruct (Video.supported (Video.detectVideoPlatform (c :: u))) eqn:Hsupported;
    cbn [negb]; [|refused].
  assert (Herror : forall error,
    (Handlers.status (Handlers.videoError error) = 200%Z
     \/ Handlers.status (Handlers.videoError error) = 400%Z
     \/ Handlers.status (Handlers.videoError error) = 401%Z
     \/ Handlers.status (Handlers.videoError error) = 500%Z)
    /\ (Handlers.status (Handlers.videoError error) <> 200%Z ->
        st = st
        /\ exists text,
             Handlers.body (Handlers.videoError error) = Handlers.ErrorBody text
             /\ text <> [])
    /\ (forall user0 url,
          Some user = Some user0 -> Some (JStr (c :: u)) = Some (JStr url) ->
          Video.supported (Video.detectVideoPlatform url) = false ->
          Handlers.status (Handlers.videoError error) = 400%Z)
    /\ (forall item,
          Handlers.body (Handlers.videoError error) = Handlers.ItemBody item -> False)).
  { intros error. destruct (videoError_shape error) as (Hs & text & Hb & Hne).
    split; [auto|]. split; [intros _; split; [reflexivity|eauto]|].
    split; [|intros item; rewrite Hb; discriminate].
    intros user0 url _ Hu Hs'. assert (url = c :: u) as -> by congruence.
    congruence. }
  destruct (fst (Video.processVideo env (c :: u))) as [error|transcript] eqn:Hprocess.
  { cbn [fst snd]. destruct (Herror error) as (H1 & H2 & H3 & H4).
    repeat split; try assumption; try apply H2; try assumption.
    intros item Hitem. now destruct (H4 item Hitem). }
  destruct (bool_decide (transcript = []) || bool_decide (length (trim transcript) = 0%nat))
    eqn:Hblank.
  { cbn [fst snd Handlers.status Handlers.body Handlers.fail].
    split; [auto|].
    split; [intros _; split; [reflexivity|eexists; split; [reflexivity|discriminate]]|].
    split; [|intros item [=]].
    intros user0 url _ Hu Hs'. assert (url = c :: u) as -> by congruence.
    congruence. }
  apply orb_false_iff in Hblank as [_ Hblank]. apply bool_decide_eq_false in Hblank.
  destruct (fst (VideoAI.transformVideoContent apiKey attempt transcript (c :: u)))
    as [error|aiAnalysis] eqn:Htransform.
  { cbn [fst snd]. destruct (Herror error) as (H1 & H2 & H3 & H4).
    repeat split; try assumption; try apply H2; try assumption.
    intros item Hitem. now destruct (H4 item Hitem). }
  cbv zeta. cbn [Storage.createItem fst snd Handlers.status Handlers.body Handlers.ok
                 Storage.id Storage.userId Storage.type Storage.title Storage.summary
                 Storage.category Storage.tags Storage.createdAt Storage.userNotes
                 Storage.url Storage.imageUrl Storage.content Storage.videoData].
  split; [now left|].
  split; [intros Hne; now contradiction Hne|].
  split.
  { intros user0 url _ Hu Hs'. assert (url = c :: u) as -> by congruence.
    congruence. }
  intros item [= <-].
  cbn [Storage.id Storage.userId Storage.type Storage.title Storage.summary
       Storage.category Storage.tags Storage.createdAt Storage.userNotes
       Storage.url Storage.imageUrl Storage.content Storage.videoData].
  exists user, (c :: u), transcript, aiAnalysis.
  split; [reflexivity|]. split; [reflexivity|]. split; [exact Hvalid|].
  split; [exact Hsupported|]. split; [exact Hprocess|].
  split; [intros Ht; apply Hblank; now rewrite Ht|].
  split; [exact Htransform|].
  do 5 (split; [reflexivity|]).
  split; [apply videoTitle_nonempty|].
  do 2 (split; [reflexivity|]).
  split.
  - apply getItemById_owned; [|reflexivity]. cbn [Storage.items].
    apply lookup_insert_eq.
  - intros other Hne. cbn [Storage.items]. now apply lookup_insert_ne.
Qed.

End VideoHandler.

(** *** Categories *)

Section Categories.
Implicit Types (a b x y z : jsstring) (l seen : list jsstring).

Lemma ltString_irrefl a : Handlers.ltString a a = false.
Proof.
  induction a as [|c a IH]; [reflexivity|]. cbn [Handlers.ltString].
  now rewrite N.ltb_irrefl, N.eqb_refl, IH.
Qed.

Lemma ltString_trans a b x :
  Handlers.ltString a b = true -> Handlers.ltString b x = true ->
  Handlers.ltString a x = true.
Proof.
  revert b x. induction a as [|c a IH]; intros [|d b] [|e x]; cbn [Handlers.ltString];
    try discriminate; try reflexivity.
  rewrite !orb_true_iff, !andb_true_iff, !N.ltb_lt, !N.eqb_eq.
  intros [Hcd|[-> Hab]] [Hde|[-> Hbx]].
  - left. lia.
  - now left.
  - now left.
  - right. split; [reflexivity|]. now apply (IH b).
Qed.

Lemma ltString_total a b :
  Handlers.ltString a b = false -> a <> b -> Handlers.ltString b a = true.
Proof.
  revert b. induction a as [|c a IH]; intros [|d b]; cbn [Handlers.ltString];
    try discriminate; try reflexivity; try congruence.
  rewrite orb_false_iff, andb_false_iff, !orb_true_iff, !andb_true_iff.
  rewrite !N.ltb_lt, N.ltb_ge, !N.eqb_eq, N.eqb_neq.
  intros [Hdc [Hne|Hab]] Hneq.
  - left. lia.
  - destruct (N.eq_dec c d) as [->|Hcd]; [|left; lia].
    right. split; [reflexivity|]. apply IH; [exact Hab|]. congruence.
Qed.

Lemma In_insertString z x l :
  In z (Handlers.insertString x l) <-> z = x \/ In z l.
Proof.
  induction l as [|y l IH]; cbn [Handlers.insertString].
  - cbn. intuition.
  - destruct (Handlers.ltString y x); cbn [In]; [rewrite IH|]; intuition.
Qed.

Lemma In_sortStrings z l : In z (Handlers.sortStrings l) <-> In z l.
Proof.
  induction l as [|x l IH]; [reflexivity|].
  cbn [Handlers.sortStrings foldr In]. fold (Handlers.sortStrings l).
  rewrite In_insertString, IH. intuition.
Qed.

Lemma insertString_increasing x l :
  Handlers.Increasing l -> ~ In x l -> Handlers.Increasing (Handlers.insertString x l).
Proof.
  induction l as [|y l IH]; intros Hl Hx; cbn [Handlers.insertString].
  - cbn. now split.
  - destruct Hl as [Hy Hl]. destruct (Handlers.ltString y x) eqn:E.
    + split; [|apply IH; [exact Hl|intros Hin; apply Hx; now right]].
      apply List.Forall_forall. intros z Hz. apply In_insertString in Hz as [->|Hz];
        [exact E|]. rewrite List.Forall_forall in Hy. now apply Hy.
    + assert (Hxy : Handlers.ltString x y = true).
      { apply ltString_total; [exact E|]. intros ->. apply Hx. now left. }
      split; [|now split]. constructor; [exact Hxy|].
      eapply List.Forall_impl; [|exact Hy]. cbn. intros z Hz.
      now apply (ltString_trans x y z).
Qed.

Lemma sortStrings_increasing l : NoDup l -> Handlers.Increasing (Handlers.sortStrings l).
Proof.
  induction 1 as [|x l Hx Hl IH]; [exact I|].
  cbn [Handlers.sortStrings foldr]. fold (Handlers.sortStrings l).
  apply insertString_increasing; [exact IH|].
  rewrite In_sortStrings. now rewrite <- list_elem_of_In.
Qed.

Lemma In_distinct z seen l :
  In z (Handlers.distinct seen l) <-> In z l /\ ~ In z seen.
Proof.
  revert seen. induction l as [|x l IH]; intros seen; cbn [Handlers.distinct].
  - cbn. intuition.
  - destruct (bool_decide (x ∈ seen)) eqn:E.
    + apply bool_decide_eq_true in E. rewrite list_elem_of_In in E.
      rewrite IH. cbn [In]. split; [intuition|].
      intros [[->|Hz] Hs]; [contradiction|now split].
    + apply bool_decide_eq_false in E. rewrite list_elem_of_In in E.
      cbn [In]. rewrite IH. cbn [In]. split.
      * intros [->|[Hz Hs]]; [now split; [left|]|].
        split; [now right|]. intros Hin. apply Hs. now right.
      * intros [[->|Hz] Hs]; [now left|].
        destruct (decide (x = z)) as [->|Hne]; [now left|].
        right. split; [exact Hz|]. intros [Hxz|Hin]; [contradiction|contradiction].
Qed.

Lemma NoDup_distinct seen l : NoDup (Handlers.distinct seen l).
Proof.
  revert seen. induction l as [|x l IH]; intros seen; cbn [Handlers.distinct].
  - constructor.
  - destruct (bool_decide (x ∈ seen)); [apply IH|].
    constructor; [|apply IH].
    rewrite list_elem_of_In, In_distinct. intros [_ Hs]. apply Hs. now left.
Qed.

(** X25: [GET /categories] answers an authenticated request with the
    categories of the user's items, each once, in strictly increasing order
    of their UTF-16 code units; a category is listed exactly when one of the
    user's items in the store has it. *)
Theorem getCategories_spec st values user :
  Permutation values (map snd (map_to_list (Storage.items st))) ->
  exists categories,
    Handlers.getCategories (Some user) values
    = Handlers.ok (Handlers.CategoriesBody categories)
    /\ Handlers.Increasing categories
    /\ (forall category,
          In category categories
          <-> exists itemId item,
                Storage.items st !! itemId = Some item
                /\ Storage.userId item = Middleware.id user
                /\ Storage.category item = category).
Proof.
  intros Hvalues. unfold Handlers.getCategories. cbv zeta.
  eexists. split; [reflexivity|]. split.
  - apply sortStrings_increasing, NoDup_distinct.
  - intros category. rewrite In_sortStrings, In_distinct, in_map_iff. split.
    + intros [(item & Hcat & Hin) _].
      apply (getItemsByUserId_In st) in Hin as (itemId & Hget & Hown);
        [|exact Hvalues].
      now exists itemId, item.
    + intros (itemId & item & Hget & Hown & Hcat). split; [|intros []].
      exists item. split; [exact Hcat|].
      apply (getItemsByUserId_In st); [exact Hvalues|]. now exists itemId.
Qed.

End Categories.

Lemma getCategories_spec_witness :
  exists categories,
    Handlers.getCategories (Some Accounts.alice) [Samples.note1]
    = Handlers.ok (Handlers.CategoriesBody categories)
    /\ Handlers.Increasing categories
    /\ (In (js "Lifestyle") categories
        <-> exists itemId item,
              Storage.items Samples.store1 !! itemId = Some item
              /\ Storage.userId item = Middleware.id Accounts.alice
              /\ Storage.category item = js "Lifestyle").
Proof.
  assert (Hvalues : Permutation [Samples.note1]
                      (map snd (map_to_list (Storage.items Samples.store1)))).
  { unfold Samples.store1. cbn [Storage.items].
    rewrite insert_empty, map_to_list_singleton. reflexivity. }
  destruct (getCategories_spec Samples.store1 [Samples.note1] Accounts.alice Hvalues)
    as (categories & Hresponse & Hsorted & Hlisted).
  exists categories. split; [exact Hresponse|]. split; [exact Hsorted|].
  apply Hlisted.
Defined.

(** ** Which platform a URL is filed under *)

Section PlatformType.
Context `{CaseMapping}.

Lemma vm_tiktok_is_tiktok url : mentions "vm.tiktok.com" url -> mentions "tiktok.com" url.
Proof.
  unfold mentions, Substring. intros (a & b & Hab).
  exists (a ++ js "vm."), b. rewrite Hab, <- !app_assoc. reflexivity.
Qed.

(** X26: the first pattern that matches decides the platform.  A URL is
    filed under TikTok exactly when it mentions [tiktok.com]; under Instagram
    exactly when it does not and is an Instagram reel URL; and it is accepted
    as YouTube exactly when it is neither and mentions [youtube.com] or
    [youtu.be], whether or not it is a Shorts URL. *)
Theorem detectVideoPlatform_type url :
  (Video.type (Video.detectVideoPlatform url) = Video.tiktok
   <-> mentions "tiktok.com" url)
  /\ (Video.type (Video.detectVideoPlatform url) = Video.instagram
      <-> ~ mentions "tiktok.com" url /\ matchesInstagramReels url)
  /\ (Video.detectVideoPlatform url
      = {| Video.type := Video.youtube; Video.supported := true |}
      <-> ~ mentions "tiktok.com" url /\ ~ matchesInstagramReels url
          /\ matchesYouTube url).
Proof.
  pose proof (vm_tiktok_is_tiktok url) as Hvm. revert Hvm.
  unfold Video.detectVideoPlatform, matchesInstagramReels, matchesYouTube.
  rewrite <- !includes_mentions.
  destruct (includes (js "tiktok.com") _), (includes (js "vm.tiktok.com") _),
    (includes (js "instagram.com") _), (includes (js "/reel/") _),
    (includes (js "/reels/") _), (includes (js "youtube.com") _),
    (includes (js "youtu.be") _), (includes (js "/shorts/") _),
    (includes (js "youtube.com/shorts/") _); cbn; intros Hvm;
    intuition (try discriminate; congruence).
Qed.

End PlatformType.

(** ** Saving a link *)

Lemma linkError_shape error :
  Handlers.status (Handlers.linkError error) = 500%Z
  /\ exists text,
       Handlers.body (Handlers.linkError error) = Handlers.ErrorBody text
       /\ text <> [].
Proof.
  unfold Handlers.linkError.
  repeat match goal with
  | |- context [if ?b then _ else _] => destruct b
  end; (split; [reflexivity|]); eexists; (split; [reflexivity|]);
    try discriminate.
  unfold Handlers.messageOr. destruct (message error) as [[|c m]|]; discriminate.
Qed.

Section LinkHandler.
Context `{CaseMapping}.

Ltac declined :=
  cbn [fst snd Handlers.status Handlers.body Handlers.fail];
  split; [auto|];
  split; [split; [discriminate|intros (? & ? & ? & ? & ? & ? & ? & ?); congruence]|];
  split; [intros _; split; [reflexivity|eexists; split; [reflexivity|discriminate]]|];
  intros item [=].

(** X27: [POST /save-link] answers 200, 400, 401 or 500, and 200 exactly for
    an authenticated request whose [url] is a non-empty string that parses as
    a URL and whose page look-up returns.  Every other answer carries a
    non-empty error message and leaves the store as it was.  On 200 exactly
    one item is added, under the generated id: a link of the authenticated
    user for the URL sent, titled as the page, with the page's image if it
    has one and a category and summary that are presentable whatever the
    models answered. *)
Theorem saveLink_spec auth fields validUrl extractMetadata client apiKey create parse
    itemId now st :
  let result :=
    Handlers.saveLink auth fields validUrl extractMetadata client apiKey create parse
      itemId now st in
  let response := fst result in
  let st' := snd result in
  (Handlers.status response = 200%Z \/ Handlers.status response = 400%Z
   \/ Handlers.status response = 401%Z \/ Handlers.status response = 500%Z)
  /\ (Handlers.status response = 200%Z
      <-> exists user url metadata,
            auth = Some user
            /\ fields !! js "url" = Some (JStr url) /\ url <> []
            /\ validUrl url = true
            /\ extractMetadata url = inr metadata)
  /\ (Handlers.status response <> 200%Z ->
      st' = st
      /\ exists error,
           Handlers.body response = Handlers.ErrorBody error /\ error <> [])
  /\ (forall item,
        Handlers.body response = Handlers.ItemBody item ->
        exists user url metadata,
          auth = Some user
          /\ fields !! js "url" = Some (JStr url)
          /\ extractMetadata url = inr metadata
          /\ Storage.id item = itemId
          /\ Storage.userId item = Middleware.id user
          /\ Storage.type item = Storage.link
          /\ Storage.createdAt item = now
          /\ Storage.url item = Some url
          /\ Storage.title item = Handlers.title metadata
          /\ Storage.imageUrl item = Handlers.orUndefined (Handlers.imageUrl metadata)
          /\ (Storage.tags item, Storage.userNotes item, Storage.content item,
              Storage.videoData item) = ([], None, None, None)
          /\ Completion.Presentable
               {| AI.category := Storage.category item;
                  AI.summary := Storage.summary item |}
          /\ Storage.getItemById itemId (Middleware.id user) st' = (Some item, st')
          /\ (forall other, other <> itemId ->
                Storage.items st' !! other = Storage.items st !! other)).
Proof.
  cbv zeta. unfold Handlers.saveLink.
  destruct auth as [user|]; [|declined].
  destruct (fields !! js "url") as [[| | |[|c u]| |]|] eqn:Hurl; try declined.
  cbv zeta. destruct (validUrl (c :: u)) eqn:Hvalid; cbn [negb].
  2: { cbn [fst snd Handlers.status Handlers.body Handlers.fail].
       split; [auto|].
       split; [split; [discriminate|]|].
       { intros (user0 & url & metadata & _ & Hu & _ & Hv & _).
         assert (url = c :: u) as -> by congruence. congruence. }
       split; [intros _; split; [reflexivity|eexists; split; [reflexivity|discriminate]]|].
       intros item [=]. }
  destruct (extractMetadata (c :: u)) as [error|metadata] eqn:Hmeta.
  { cbn [fst snd]. destruct (linkError_shape error) as (Hs & text & Hb & Hne).
    split; [auto|].
    split; [split; [congruence|]|].
    { intros (user0 & url & metadata & _ & Hu & _ & _ & Hm).
      assert (url = c :: u) as -> by congruence. congruence. }
    split; [intros _; split; [reflexivity|eauto]|].
    intros item. rewrite Hb. discriminate. }
  cbv zeta. cbn [Storage.createItem fst snd Handlers.status Handlers.body Handlers.ok
                 Storage.id Storage.userId Storage.type Storage.title Storage.summary
                 Storage.category Storage.tags Storage.createdAt Storage.userNotes
                 Storage.url Storage.imageUrl Storage.content Storage.videoData].
  split; [now left|].
  split.
  { split; [|reflexivity]. intros _. exists user, (c :: u), metadata.
    repeat split; try reflexivity; try assumption; discriminate. }
  split; [intros Hne; now contradiction Hne|].
  intros item [= <-].
  cbn [Storage.id Storage.userId Storage.type Storage.title Storage.summary
       Storage.category Storage.tags Storage.createdAt Storage.userNotes
       Storage.url Storage.imageUrl Storage.content Storage.videoData].
  exists user, (c :: u), metadata.
  split; [reflexivity|]. split; [reflexivity|]. split; [exact Hmeta|].
  do 8 (split; [reflexivity|]).
  split.
  { exact (analysis_is_presentable client apiKey create parse
             (Handlers.title metadata) (Handlers.description metadata)). }
  split.
  - apply getItemById_owned; [|reflexivity]. cbn [Storage.items].
    apply lookup_insert_eq.
  - intros other Hne. cbn [Storage.items]. now apply lookup_insert_ne.
Qed.

End LinkHandler.

(** ** Apple sign-in *)

Lemma upsertUser_names draw userData st user st' first last :
  Users.new_firstName userData = Some (Users.orNull (Users.Str first)) ->
  Users.new_lastName userData = Some (Users.orNull (Users.Str last)) ->
  Users.upsertUser draw userData st = Some (user, st') ->
  Users.email user = Users.new_email userData
  /\ Users.firstName user = Users.orNull (Users.Str first)
  /\ Users.lastName user = Users.orNull (Users.Str last).
Proof.
  intros Hfirst Hlast. unfold Users.upsertUser.
  destruct (Users.userByEmail st !! _) as [existing|].
  - destruct (bool_decide (existing = [])).
    + cbv zeta. intros [= <- _]. cbn. rewrite Hfirst, Hlast. cbn.
      rewrite !orNull_idem. now repeat split.
    + destruct (Users.users st !! existing) as [old|]; [|discriminate].
      intros [= <- _]. cbn. rewrite Hfirst, Hlast. now repeat split.
  - cbv zeta. intros [= <- _]. cbn. rewrite Hfirst, Hlast. cbn.
    rewrite !orNull_idem. now repeat split.
Qed.

(** X28: [handleAppleLogin] does not look at the identity token: with any
    other token it does the same.  A successful login is a login to the
    account of [user@example.com], named by the trimmed [name] sent with the
    request when that is a non-empty string and by [Test User] when it is
    missing or falsy; the token is signed for that account.  The login fails,
    leaving the store as it was, exactly on a truthy [name] that is no
    string. *)
Theorem handleAppleLogin_account generateToken draw identityToken userInfo st outcome st' :
  MobileAuth.handleAppleLogin generateToken draw identityToken userInfo st
  = Some (outcome, st') ->
  (forall otherToken,
      MobileAuth.handleAppleLogin generateToken draw otherToken userInfo st
      = Some (outcome, st'))
  /\ match outcome with
     | inl error =>
         st' = st
         /\ exists v, MobileAuth.infoName userInfo = Some v
                      /\ truthy v = true /\ isString v = false
     | inr result =>
         exists fullName,
           (MobileAuth.infoName userInfo = Some (JStr fullName) /\ fullName <> []
            \/ fullName = js "Test User"
               /\ forall v, MobileAuth.infoName userInfo = Some v -> truthy v = false)
           /\ MobileAuth.login_email (MobileAuth.user result) = js "user@example.com"
           /\ MobileAuth.login_name (MobileAuth.user result)
              = orElse (trim fullName) (js "user@example.com")
           /\ MobileAuth.token result
              = generateToken
                  {| Jwt.userId := MobileAuth.login_id (MobileAuth.user result);
                     Jwt.email := js "user@example.com" |}
     end.
Proof.
  intros Hlogin. split; [intros otherToken; exact Hlogin|].
  revert Hlogin. unfold MobileAuth.handleAppleLogin. cbv zeta.
  set (appleUser := MobileAuth.verifyAppleToken identityToken).
  assert (Hname :
    match MobileAuth.appleName userInfo appleUser with
    | inl _ => exists v, MobileAuth.infoName userInfo = Some v
                         /\ truthy v = true /\ isString v = false
    | inr fullName =>
        MobileAuth.infoName userInfo = Some (JStr fullName) /\ fullName <> []
        \/ fullName = js "Test User"
           /\ forall v, MobileAuth.infoName userInfo = Some v -> truthy v = false
    end).
  { unfold MobileAuth.appleName. cbv zeta.
    destruct (MobileAuth.infoName userInfo) as [v|];
      [|right; split; [reflexivity|discriminate]].
    destruct (truthy v) eqn:Ev.
    - destruct v as [|b|z|s|l|o];
        try (eexists; split; [reflexivity|split; [exact Ev|reflexivity]]).
      left. split; [reflexivity|]. intros ->. discriminate.
    - right. split; [reflexivity|]. now intros v' [= <-]. }
  destruct (MobileAuth.appleName userInfo appleUser) as [error|fullName].
  - intros [= <- <-]. now split.
  - destruct (Users.upsertUser draw _ st) as [[user st1]|] eqn:Hup; [|discriminate].
    intros [= <- <-].
    destruct (upsertUser_names draw (MobileAuth.appleUserData appleUser fullName)
                st user st1 (hd [] (splitOn 32 fullName))
                (join (js " ") (tl (splitOn 32 fullName))) eq_refl eq_refl Hup)
      as (Hemail & Hfirst & Hlast).
    cbn [Users.new_email MobileAuth.appleUserData MobileAuth.apple_email appleUser
         MobileAuth.verifyAppleToken] in Hemail.
    exists fullName. split; [exact Hname|].
    cbn [MobileAuth.user MobileAuth.token MobileAuth.login_email
         MobileAuth.login_id MobileAuth.login_name].
    split; [exact Hemail|]. split.
    + unfold MobileAuth.displayName. rewrite Hfirst, Hlast, Hemail.
      now rewrite google_name_parts.
    + now rewrite Hemail.
Qed.

Lemma handleAppleLogin_account_witness :
  exists result st',
    MobileAuth.handleAppleLogin Accounts.sign Accounts.draw1 (js "any-token") None
      Users.emptyStore
    = Some (inr result, st')
    /\ MobileAuth.handleAppleLogin Accounts.sign Accounts.draw1 (js "another-token")
         None Users.emptyStore
       = Some (inr result, st')
    /\ MobileAuth.login_email (MobileAuth.user result) = js "user@example.com"
    /\ MobileAuth.login_name (MobileAuth.user result) = js "Test User".
Proof.
  destruct (MobileAuth.handleAppleLogin Accounts.sign Accounts.draw1 (js "any-token")
              None Users.emptyStore)
    as [[[error|result] st']|] eqn:E; try (vm_compute in E; discriminate).
  exists result, st'. split; [reflexivity|].
  destruct (handleAppleLogin_account _ _ _ _ _ _ _ E)
    as (Hany & fullName & Hfull & Hemail & Hname & _).
  split; [apply Hany|]. split; [exact Hemail|].
  rewrite Hname. destruct Hfull as [[Hinfo _]|[-> _]]; [discriminate|].
  vm_compute. reflexivity.
Defined.

(** ** The development short cut *)

Lemma upsertUser_dev draw st devUser st' :
  Users.upsertUser draw Middleware.devUserData st = Some (devUser, st') ->
  Users.id devUser = js "dev-user-123"
  /\ Users.email devUser = js "dev@smartvault.app"
  /\ Users.firstName devUser = Users.Str (js "Dev")
  /\ Users.lastName devUser = Users.Str (js "User").
Proof.
  unfold Users.upsertUser.
  destruct (Users.userByEmail st !! _) as [existing|].
  - destruct (bool_decide (existing = [])).
    + cbv zeta. intros [= <- _]. now repeat split.
    + destruct (Users.users st !! existing) as [old|]; [|discriminate].
      intros [= <- _]. now repeat split.
  - cbv zeta. intros [= <- _]. now repeat split.
Qed.

(** X29: outside production, a request with the header [x-dev-token: dev] is
    let through as the development user, whatever its [Authorization]
    header says.  On a consistent store in which the development address is
    unregistered, or registered under [dev-user-123], and that id is not
    taken by another account, the user is created or updated under that id,
    the store stays consistent, and the address is registered under that id
    afterwards. *)
Theorem jwtAuthMiddleware_dev verifyToken draw headers st :
  Middleware.xDevToken headers = Some (js "dev") ->
  Users.Consistent st ->
  (forall userId : jsstring,
      Users.userByEmail st !! js "dev@smartvault.app" = Some userId ->
      userId = js "dev-user-123") ->
  (Users.userByEmail st !! js "dev@smartvault.app" = None ->
   Users.users st !! js "dev-user-123" = None) ->
  exists devUser st',
    Middleware.jwtAuthMiddleware false verifyToken draw headers st
    = Some (Middleware.Next (Middleware.authUser devUser), st')
    /\ Middleware.authUser devUser
       = {| Middleware.id := js "dev-user-123";
            Middleware.email := js "dev@smartvault.app";
            Middleware.firstName := Users.Str (js "Dev");
            Middleware.lastName := Users.Str (js "User") |}
    /\ Users.Consistent st'
    /\ Users.getUserById (js "dev-user-123") st' = Some devUser
    /\ Users.getUserByEmail (js "dev@smartvault.app") st' = Some devUser
    /\ (forall userId,
          userId <> js "dev-user-123" ->
          Users.getUserById userId st' = Users.getUserById userId st).
Proof.
  intros Hdev Hst Hregistered Hfree.
  destruct (upsertUser_consistent draw Middleware.devUserData st Hst)
    as (devUser & st' & Hup & Hst' & Hbyid & Hbyemail & _ & _ & _ & Hids).
  { intros userId Hget. right. cbn [Users.new_id Middleware.devUserData].
    f_equal. symmetry. now apply Hregistered. }
  { exact Hfree. }
  destruct (upsertUser_dev _ _ _ _ Hup) as (Hid & Hemail & Hfirst & Hlast).
  exists devUser, st'. unfold Middleware.jwtAuthMiddleware.
  rewrite (bool_decide_eq_true_2 _ Hdev). cbn [negb andb]. rewrite Hup.
  split; [reflexivity|].
  split; [unfold Middleware.authUser; now rewrite Hid, Hemail, Hfirst, Hlast|].
  split; [exact Hst'|]. rewrite Hid in Hbyid, Hids.
  split; [exact Hbyid|]. split; [exact Hbyemail|exact Hids].
Qed.

Lemma jwtAuthMiddleware_dev_witness :
  exists devUser st',
    Middleware.jwtAuthMiddleware false Accounts.verify Accounts.draw1
      Accounts.devHeaders Users.emptyStore
    = Some (Middleware.Next (Middleware.authUser devUser), st')
    /\ Users.id devUser = js "dev-user-123"
    /\ Users.getUserById (js "dev-user-123") st' = Some devUser.
Proof.
  destruct (jwtAuthMiddleware_dev Accounts.verify Accounts.draw1 Accounts.devHeaders
              Users.emptyStore)
    as (devUser & st' & Hrun & Hauth & _ & Hbyid & _).
  - reflexivity.
  - apply emptyStore_consistent.
  - intros userId Hget. cbn in Hget. now rewrite lookup_empty in Hget.
  - intros _. apply lookup_empty.
  - exists devUser, st'. split; [exact Hrun|]. split; [|exact Hbyid].
    now injection Hauth.
Defined.

(** ** Verifying a Google token *)

(** X30: [verifyGoogleToken] succeeds exactly when the library returns a
    payload with a non-empty e-mail address; the user it returns has that
    address, the payload's picture, and as name the payload's [name], else
    its [given_name], else the part of the address before the first [@].
    Every error it throws is a plain [Error] (no status, no code) whose
    message is one of four fixed texts or [Google token verification
    failed: ] followed by a non-empty detail. *)
Theorem verifyGoogleToken_spec verifyIdToken idToken :
  match MobileAuth.verifyGoogleToken verifyIdToken idToken with
  | inr googleUser =>
      exists payload,
        verifyIdToken idToken = inr (Some payload)
        /\ MobileAuth.payload_email payload = Some (MobileAuth.email googleUser)
        /\ MobileAuth.email googleUser <> []
        /\ MobileAuth.picture googleUser = MobileAuth.payload_picture payload
        /\ MobileAuth.name googleUser
           = MobileAuth.given (MobileAuth.payload_name payload)
               (MobileAuth.given (MobileAuth.payload_given_name payload)
                  (textBefore 64 (MobileAuth.email googleUser)))
  | inl error =>
      (forall payload address,
          verifyIdToken idToken = inr (Some payload) ->
          MobileAuth.payload_email payload = Some address -> address = [])
      /\ status error = None /\ code error = None
      /\ exists text,
           message error = Some text
           /\ (In text
                 [js "Token is not yet valid. Please check your device clock.";
                  js "Token has expired. Please try logging in again.";
                  js "Token audience mismatch. Please ensure you are using the correct app.";
                  js "Invalid token signature. Token may be corrupted."]
               \/ exists detail,
                    text = js "Google token verification failed: " ++ detail
                    /\ detail <> [])
  end.
Proof.
  assert (Hfriendly : forall e,
    status (MobileAuth.friendlyError e) = None
    /\ code (MobileAuth.friendlyError e) = None
    /\ exists text,
         message (MobileAuth.friendlyError e) = Some text
         /\ (In text
               [js "Token is not yet valid. Please check your device clock.";
                js "Token has expired. Please try logging in again.";
                js "Token audience mismatch. Please ensure you are using the correct app.";
                js "Invalid token signature. Token may be corrupted."]
             \/ exists detail,
                  text = js "Google token verification failed: " ++ detail
                  /\ detail <> [])).
  { intros e. unfold MobileAuth.friendlyError. cbv zeta.
    repeat match goal with
    | |- context [if ?b then _ else _] => destruct b
    end; (split; [reflexivity|]); (split; [reflexivity|]); eexists;
      (split; [reflexivity|]).
    - left. cbn [In]. tauto.
    - left. cbn [In]. tauto.
    - left. cbn [In]. tauto.
    - left. cbn [In]. tauto.
    - right. eexists. split; [reflexivity|].
      unfold MobileAuth.given. destruct (message e) as [[|c m]|]; discriminate. }
  unfold MobileAuth.verifyGoogleToken.
  destruct (verifyIdToken idToken) as [e|[payload|]] eqn:Hverify.
  - split; [discriminate|]. apply Hfriendly.
  - destruct (MobileAuth.payload_email payload) as [[|c address]|] eqn:Hemail.
    + split; [|apply Hfriendly].
      intros payload' address' [= <-] Ha. congruence.
    + cbv zeta. exists payload. cbn [MobileAuth.email MobileAuth.picture MobileAuth.name].
      split; [reflexivity|]. split; [exact Hemail|]. split; [discriminate|].
      split; [reflexivity|]. now rewrite hd_splitOn.
    + split; [|apply Hfriendly].
      intros payload' address' [= <-] Ha. congruence.
  - split; [discriminate|]. apply Hfriendly.
Qed.

